(** * QoS-aware routing engines: Q-learning and ant-colony routers

    A shallow embedding of [src/algorithms/q_learning.py] and
    [src/algorithms/aco_optimizer.py].

    - Python floats are IEEE binary64 numbers: the kernel's primitive
      [float]. The integer literals the code mixes with them (the default
      bandwidth [0], a demand read with [int]) are exactly representable
      and are written as floats.
    - The networkx graph is its adjacency structure, a dict of dicts kept
      in insertion order: association lists.
    - The [random] module is an oracle indexed by the number of draws made
      so far; every function that draws threads that counter.
    - A raised exception ([KeyError], [IndexError], [ValueError]) is [None]
      in the option monad. *)

From Stdlib Require Import ZArith List Floats Bool Lia String.
From stdpp Require Import base option list gmap.

Set Warnings "-inexact-float".

(** ** Python's comparisons and reductions on floats *)

Module PyFloat.
Local Open Scope float_scope.

(** [min(a, b)]: [b] replaces [a] only when [b < a]. *)
Definition min2 (a b : float) : float := if b <? a then b else a.

(** [max(a, b)]: [b] replaces [a] only when [b > a]. *)
Definition max2 (a b : float) : float := if a <? b then b else a.

(** [min(iterable)] over a non-empty iterable; [ValueError] on an empty one. *)
Definition min_of (l : list float) : option float :=
  match l with
  | [] => None
  | x :: xs => Some (fold_left min2 xs x)
  end.

(** [max(iterable, default=d)]. *)
Definition max_default (d : float) (l : list float) : float :=
  match l with
  | [] => d
  | x :: xs => fold_left max2 xs x
  end.

(** [max(items, key=...)] on items paired with their keys: the first item
    whose key no later key exceeds. *)
Definition argmax {A} (l : list (A * float)) : option A :=
  match l with
  | [] => None
  | x :: xs =>
      Some (fst (fold_left (fun best c => if snd best <? snd c then c else best) xs x))
  end.

(** A float that is a number (not NaN): the only floats equal to themselves. *)
Definition is_number (x : float) : Prop := (x =? x) = true.

(** [a / b] on floats; [None] is the [ZeroDivisionError] of a divisor equal
    to 0 (either zero). Nothing else raises: an overflow gives [inf]. *)
Definition div (a b : float) : option float :=
  if b =? 0 then None else Some (a / b).

(** [math.isfinite(x)]: neither NaN nor an infinity. *)
Definition isfinite (x : float) : bool := abs x <? infinity.

End PyFloat.

(** ** Python dicts keyed by node, in insertion order *)

Definition node := nat.

Section Dict.
Context {A : Type}.

(** [d[k]]; [None] is the [KeyError]. *)
Fixpoint dict_get (k : node) (d : list (node * A)) : option A :=
  match d with
  | [] => None
  | (k', v) :: d' => if decide (k = k') then Some v else dict_get k d'
  end.

(** [d[k] = v] for a key the dict holds: the key keeps its position. *)
Fixpoint dict_set (k : node) (v : A) (d : list (node * A)) : list (node * A) :=
  match d with
  | [] => [(k, v)]
  | (k', v') :: d' =>
      if decide (k = k') then (k, v) :: d' else (k', v') :: dict_set k v d'
  end.

Definition dict_keys (d : list (node * A)) : list node := map fst d.
End Dict.

(** [zip(path, path[1:])]: the consecutive pairs [path[i], path[i+1]]. *)
Fixpoint pairs (p : list node) : list (node * node) :=
  match p with
  | u :: (v :: _) as p' => (u, v) :: pairs p'
  | _ => []
  end.

(** ** The network (networkx [Graph]) *)

Record EdgeData := {
  bandwidth : option float;
  delay : option float;
  reliability : option float
}.

Record NodeData := { node_reliability : option float }.

(** [g_node] is networkx's [_node] and [g_adj] its [_adj]: [g_adj[u][v]] is
    the attribute dict of the edge [u - v]. *)
Record Graph := {
  g_node : list (node * NodeData);
  g_adj : list (node * list (node * EdgeData))
}.

Module Graph.

(** [graph.nodes], iterated. *)
Definition nodes (g : Graph) : list node := dict_keys (g_node g).

(** [graph.nodes[n]]. *)
Definition node_data (g : Graph) (n : node) : option NodeData := dict_get n (g_node g).

(** [graph.neighbors(n)]. *)
Definition neighbors (g : Graph) (n : node) : option (list node) :=
  nbrs ← dict_get n (g_adj g); Some (dict_keys nbrs).

(** [graph.edges[u, v]]. *)
Definition edges (g : Graph) (u v : node) : option EdgeData :=
  nbrs ← dict_get u (g_adj g); dict_get v nbrs.

(** [graph.edges()], iterated: every adjacency entry whose far end has not
    been the near end yet. *)
Fixpoint edge_list_from (seen : list node) (adj : list (node * list (node * EdgeData)))
  : list (node * node) :=
  match adj with
  | [] => []
  | (n, nbrs) :: adj' =>
      map (λ nbr, (n, nbr)) (filter (λ nbr, nbr ∉ seen) (dict_keys nbrs))
        ++ edge_list_from (n :: seen) adj'
  end.

Definition edge_list (g : Graph) : list (node * node) := edge_list_from [] (g_adj g).

(** [graph.edges[path[i], path[i+1]].get("bandwidth", dflt)] for every [i]. *)
Definition edge_bandwidths (g : Graph) (dflt : float) (p : list node) : option (list float) :=
  mapM (λ '(u, v), e ← edges g u v; Some (default dflt (bandwidth e))) (pairs p).

(** The bottleneck of a path: the least edge bandwidth along it, found as the
    code does ([if bw < min_bw: min_bw = bw] from [inf]). *)
Definition bottleneck (g : Graph) (dflt : float) (p : list node) : option float :=
  bws ← edge_bandwidths g dflt p; Some (fold_left PyFloat.min2 bws infinity).

(** Every consecutive pair of the path is an edge of the network. *)
Definition is_walk (g : Graph) (p : list node) : Prop :=
  Forall (λ uv, is_Some (edges g uv.1 uv.2)) (pairs p).

(** Every node of the path is a node of the network. *)
Definition on_nodes (g : Graph) (p : list node) : Prop :=
  Forall (λ n, is_Some (node_data g n)) p.

(** Every bandwidth attribute along the path is a number, not NaN. *)
Definition numeric_bandwidths (g : Graph) (p : list node) : Prop :=
  Forall (λ uv, ∀ e b, edges g uv.1 uv.2 = Some e → bandwidth e = Some b →
                       PyFloat.is_number b) (pairs p).

(** A simple path of the network: no node twice, every hop an edge. *)
Definition simple_walk (g : Graph) (p : list node) : Prop :=
  NoDup p ∧ is_walk g p.

(** The path carries the demand: its bottleneck, a missing bandwidth
    counting as [dflt], is at least [demand_bw]. *)
Definition feasible (g : Graph) (dflt demand_bw : float) (p : list node) : Prop :=
  ∃ b, bottleneck g dflt p = Some b ∧ (demand_bw <=? b)%float = true.

End Graph.

(** ** The cost model ([src/metrics.py])

    Both routers import [calculate_path_attributes] and
    [calculate_weighted_cost] from it; here the two functions are
    parameters. *)

Record Weights := { w_delay : float; w_reliability : float; w_resource : float }.

Record PathAttributes := {
  total_delay : float;
  reliability_cost : float;
  resource_cost : float
}.

Class Metrics := {
  calculate_path_attributes : Graph → list node → PathAttributes;
  calculate_weighted_cost : PathAttributes → Weights → float
}.

(** ** The [random] module: an oracle indexed by the number of draws so far *)

Record Rng := {
  random : nat → float;              (* random.random() *)
  choice : nat → nat;                (* random.choice(seq): a position in seq *)
  choices : nat → list float → nat   (* random.choices(seq, weights, k=1)[0]: a position *)
}.

(** The item a draw selects; [None] on an empty sequence ([IndexError]). *)
Definition pick {A} (l : list A) (i : nat) : option A := l !! (i mod length l).

(** [random.choices(seq, weights=weights, k=1)[0]] at draw [t]. The library
    accumulates the weights, wants as many of them as there are items, adds
    [0.0] to their total and raises ([ValueError]) unless that total is
    positive and finite; [None] is one of these errors, or the
    [IndexError] of no weight at all. *)
Definition random_choices {A} (rng : Rng) (t : nat) (seq : list A) (weights : list float)
  : option A :=
  if decide (length weights = length seq) then
    match weights with
    | [] => None
    | w0 :: ws =>
        let total := (fold_left PrimFloat.add ws w0 + 0.0)%float in
        if (total <=? 0)%float then None
        else if PyFloat.isfinite total then pick seq (choices rng t weights)
        else None
    end
  else None.

(** ** What [get_path_metrics] returns *)

Record MetricsRecord := {
  m_path : list node;
  m_total_delay : float;
  m_total_reliability : float;
  m_reliability_cost : option float;   (* reported by the Q-learning router only *)
  m_resource_cost : float;
  m_total_cost : float;
  m_bottleneck_bw : float;
  m_hop_count : nat;
  m_node_count : option nat            (* reported by the Q-learning router only *)
}.

Inductive PathMetrics :=
| Invalid (error : string)             (* {"valid": False, "error": ...} *)
| Valid (r : MetricsRecord).           (* {"valid": True, ...} *)

Definition valid (m : PathMetrics) : bool :=
  match m with Valid _ => true | Invalid _ => false end.

(** [total_reliability]: the product of the edge and node reliabilities. *)
Definition path_reliability (g : Graph) (p : list node) : option float :=
  edge_rel ← mapM (λ '(u, v), e ← Graph.edges g u v; Some (default 1.0%float (reliability e))) (pairs p);
  node_rel ← mapM (λ n, d ← Graph.node_data g n; Some (default 1.0%float (node_reliability d))) p;
  Some (fold_left PrimFloat.mul node_rel (fold_left PrimFloat.mul edge_rel 1.0%float)).

(** ** QLearningRouter ([src/algorithms/q_learning.py]) *)

Module QLearningRouter.

Abbreviation QTable := (list (node * list (node * float))).

(** The attributes [__init__] sets and no method reassigns. *)
Record Config := {
  graph : Graph;
  weights : Weights;
  alpha : float;
  gamma : float;
  min_epsilon : float;
  epsilon_decay : float;
  episodes : nat;
  max_steps : nat;
  step_penalty : float;
  progress_bonus : float
}.

(** The attributes the methods mutate. *)
Record State := {
  Q : QTable;
  best_path : option (list node);
  best_cost : float;
  epsilon : float
}.

(** The locals of one episode of [train]. [steps] is kept as the fuel of
    the loop: [max_steps - steps]. *)
Record Walk := {
  state : node;
  visited : gset node;
  path : list node;
  min_bw_on_path : float
}.

(** [{node: {nbr: 0.0 for nbr in graph.neighbors(node)} for node in graph.nodes}] *)
Definition fresh_Q (g : Graph) : option QTable :=
  mapM (λ n, nbrs ← Graph.neighbors g n; Some (n, map (λ nbr, (nbr, 0.0%float)) nbrs))
       (Graph.nodes g).

(** [__init__]: the router and its first state. *)
Definition new (g : Graph) (w : Weights)
    (alpha gamma initial_epsilon min_epsilon epsilon_decay : float)
    (episodes max_steps : nat) (step_penalty progress_bonus : float)
  : option (Config * State) :=
  q ← fresh_Q g;
  Some ({| graph := g; weights := w; alpha := alpha; gamma := gamma;
           min_epsilon := min_epsilon; epsilon_decay := epsilon_decay;
           episodes := episodes; max_steps := max_steps;
           step_penalty := step_penalty; progress_bonus := progress_bonus |},
        {| Q := q; best_path := None; best_cost := infinity;
           epsilon := initial_epsilon |}).

Section Methods.
Context `{!Metrics} (rng : Rng) (cfg : Config).
Local Open Scope float_scope.

Definition path_cost (p : list node) : float :=
  calculate_weighted_cost (calculate_path_attributes (graph cfg) p) (weights cfg).

(** [[a for a in self.Q[state] if a not in visited]], each action with
    its value [self.Q[state][a]]. *)
Definition actions_of (qs : list (node * float)) (visited : gset node)
  : list (node * float) :=
  filter (λ av, av.1 ∉ visited) qs.

(** Epsilon-greedy selection; the second component counts the draws. *)
Definition select_action (eps : float) (t : nat) (actions : list (node * float))
  : option (node * nat) :=
  if random rng t <? eps
  then a ← pick (map fst actions) (choice rng (S t)); Some (a, S (S t))
  else a ← PyFloat.argmax actions; Some (a, S t).

(** [if cost < self.best_cost: ...] *)
Definition record_best (st : State) (cost : float) (p : list node) : State :=
  if cost <? best_cost st
  then {| Q := Q st; best_path := Some p; best_cost := cost; epsilon := epsilon st |}
  else st.

(** The reward of a step and the state after the [if next_state == dst]
    block. *)
Definition reward_of (dst : node) (demand_bw : float) (st : State)
    (next_state : node) (path : list node) (min_bw : float) : float * State :=
  let reward := step_penalty cfg + progress_bonus cfg in
  if decide (next_state = dst) then
    let cost := PyFloat.max2 (path_cost path) 1e-6 in
    if demand_bw <=? min_bw
    then (2000.0 / cost, record_best st cost path)
    else (-1.0, st)
  else (reward, st).

(** [self.Q[state][action] += self.alpha * (reward + self.gamma * future_q
    - self.Q[state][action])] *)
Definition update_Q (q : QTable) (s a : node) (reward future_q : float)
  : option QTable :=
  qs ← dict_get s q;
  old ← dict_get a qs;
  let new := old + alpha cfg * (reward + gamma cfg * future_q - old) in
  Some (dict_set s (dict_set a new qs) q).

(** One pass through the body of the [while] loop. [Some None] is the
    [break]. *)
Definition step (dst : node) (demand_bw : float) (st : State) (t : nat) (w : Walk)
  : option (option (State * nat * Walk)) :=
  qs ← dict_get (state w) (Q st);
  let actions := actions_of qs (visited w) in
  match actions with
  | [] => Some None
  | _ =>
      '(action, t') ← select_action (epsilon st) t actions;
      e ← Graph.edges (graph cfg) (state w) action;
      let bw := default 0 (bandwidth e) in
      let min_bw := PyFloat.min2 (min_bw_on_path w) bw in
      let next_state := action in
      let path' := path w ++ [next_state] in
      let visited' := visited w ∪ {[next_state]} in
      let '(reward, st1) := reward_of dst demand_bw st next_state path' min_bw in
      qn ← dict_get next_state (Q st1);
      let future_q := PyFloat.max_default 0.0 (map snd qn) in
      q' ← update_Q (Q st1) (state w) action reward future_q;
      Some (Some ({| Q := q'; best_path := best_path st1;
                     best_cost := best_cost st1; epsilon := epsilon st1 |},
                  t',
                  {| state := next_state; visited := visited';
                     path := path'; min_bw_on_path := min_bw |}))
  end.

(** [while state != dst and steps < self.max_steps: ...] *)
Fixpoint episode (dst : node) (demand_bw : float) (fuel : nat)
    (st : State) (t : nat) (w : Walk) : option (State * nat) :=
  if decide (state w = dst) then Some (st, t) else
  match fuel with
  | O => Some (st, t)
  | S fuel' =>
      r ← step dst demand_bw st t w;
      match r with
      | None => Some (st, t)
      | Some (st', t', w') => episode dst demand_bw fuel' st' t' w'
      end
  end.

Definition start (src : node) : Walk :=
  {| state := src; visited := {[src]}; path := [src]; min_bw_on_path := infinity |}.

(** [if self.epsilon > self.min_epsilon: self.epsilon *= self.epsilon_decay] *)
Definition decay (st : State) : State :=
  if min_epsilon cfg <? epsilon st
  then {| Q := Q st; best_path := best_path st; best_cost := best_cost st;
          epsilon := epsilon st * epsilon_decay cfg |}
  else st.

(** [for _ in range(n): ...] of [train]. *)
Fixpoint train_episodes (src dst : node) (demand_bw : float) (n : nat)
    (st : State) (t : nat) : option (State * nat) :=
  match n with
  | O => Some (st, t)
  | S n' =>
      '(st1, t1) ← episode dst demand_bw (max_steps cfg) st t (start src);
      train_episodes src dst demand_bw n' (decay st1) t1
  end.

Definition train (src dst : node) (demand_bw : float) (st : State) (t : nat)
  : option (State * nat) :=
  train_episodes src dst demand_bw (episodes cfg) st t.

Definition get_best_path (st : State) : option (list node) := best_path st.

Definition get_path_metrics (path : option (list node)) (demand_bw : float)
  : option PathMetrics :=
  match path with
  | Some p =>
      if decide (length p < 2)%nat then Some (Invalid "Geçerli bir yol bulunamadı") else
      let attrs := calculate_path_attributes (graph cfg) p in
      total_reliability ← path_reliability (graph cfg) p;
      bws ← Graph.edge_bandwidths (graph cfg) infinity p;
      min_bw ← PyFloat.min_of bws;
      if min_bw <? demand_bw then Some (Invalid "Bant genişliği kısıtı sağlanmadı") else
      Some (Valid {| m_path := p;
                     m_total_delay := total_delay attrs;
                     m_total_reliability := total_reliability;
                     m_reliability_cost := Some (reliability_cost attrs);
                     m_resource_cost := resource_cost attrs;
                     m_total_cost := calculate_weighted_cost attrs (weights cfg);
                     m_bottleneck_bw := min_bw;
                     m_hop_count := length p - 1;
                     m_node_count := Some (length p) |})
  | None => Some (Invalid "Geçerli bir yol bulunamadı")
  end.

(** The state every run of [run_multiple] starts from. *)
Definition reset : option State :=
  q ← fresh_Q (graph cfg);
  Some {| Q := q; best_path := None; best_cost := infinity; epsilon := 1.0 |}.

(** [if self.best_path is not None: ...] after a run. *)
Definition keep_best (st : State) (global_best : float * option (list node))
  : float * option (list node) :=
  match best_path st with
  | Some p =>
      let cost := path_cost p in
      if cost <? global_best.1 then (cost, Some p) else global_best
  | None => global_best
  end.

(** [for _ in range(runs): ...] of [run_multiple]; the last component is
    [(global_best_cost, global_best_path)]. *)
Fixpoint run_loop (src dst : node) (demand_bw : float) (runs : nat) (st : State)
    (t : nat) (global_best : float * option (list node))
  : option (State * nat * (float * option (list node))) :=
  match runs with
  | O => Some (st, t, global_best)
  | S runs' =>
      st0 ← reset;
      '(st1, t1) ← train src dst demand_bw st0 t;
      run_loop src dst demand_bw runs' st1 t1 (keep_best st1 global_best)
  end.

Definition run_multiple (src dst : node) (demand_bw : float) (runs : nat)
    (st : State) (t : nat) : option (option (list node) * State * nat) :=
  '(st', t', (global_best_cost, global_best_path)) ←
    run_loop src dst demand_bw runs st t (infinity, None);
  Some (global_best_path,
        {| Q := Q st'; best_path := global_best_path;
           best_cost := global_best_cost; epsilon := epsilon st' |},
        t').

End Methods.

End QLearningRouter.

(** ** ACORouter ([src/algorithms/aco_optimizer.py]) *)

(** Python's [**] on floats, which is not a kernel primitive: a parameter.
    [pow x y] is [None] where [x ** y] raises ([ZeroDivisionError] for a
    zero base and a negative exponent, [OverflowError] for a result out of
    range) or is not a float (the complex power of a negative base with a
    fractional exponent, which the comparisons of [random.choices] then
    refuse). *)
Class FloatPow := { pow : float → float → option float }.

Module ACORouter.

(** The attributes [__init__] sets and no method reassigns. *)
Record Config := {
  graph : Graph;
  weights : Weights;
  ant_count : nat;
  iterations : nat;
  alpha : float;
  beta : float;
  evaporation : float;
  q : float;
  nodes : list node
}.

(** The attributes the methods mutate. *)
Record State := {
  best_path : option (list node);
  best_cost : float;
  pheromones : gmap (node * node) float
}.

(** [_initialize_pheromones], on the table [ph]. *)
Definition initialize_pheromones (g : Graph) (ph : gmap (node * node) float)
  : gmap (node * node) float :=
  fold_left (λ ph '(u, v), <[(v, u) := 1.0%float]> (<[(u, v) := 1.0%float]> ph))
            (Graph.edge_list g) ph.

(** [__init__]: the router and its first state. *)
Definition new (g : Graph) (w : Weights) (ant_count iterations : nat)
    (alpha beta evaporation q : float) : Config * State :=
  ({| graph := g; weights := w; ant_count := ant_count; iterations := iterations;
      alpha := alpha; beta := beta; evaporation := evaporation; q := q;
      nodes := Graph.nodes g |},
   {| best_path := None; best_cost := infinity;
      pheromones := initialize_pheromones g ∅ |}).

Section Methods.
Context `{!Metrics} `{!FloatPow} (rng : Rng) (cfg : Config).
Local Open Scope float_scope.

(** The unvisited neighbours whose edge carries the demand. *)
Fixpoint valid_neighbors (current : node) (visited : gset node) (demand_bw : float)
    (neighbors : list node) : option (list node) :=
  match neighbors with
  | [] => Some []
  | n :: rest =>
      if decide (n ∈ visited) then valid_neighbors current visited demand_bw rest
      else
        e ← Graph.edges (graph cfg) current n;
        let bw := default 0 (bandwidth e) in
        tail ← valid_neighbors current visited demand_bw rest;
        Some (if demand_bw <=? bw then n :: tail else tail)
  end.

(** [prob = (tau ** self.alpha) * (eta ** self.beta)] for every valid
    neighbour; [None] is an error on the way: the [ZeroDivisionError] of
    [1.0 / (edge_delay + 0.1)] at [edge_delay + 0.1 == 0], or an error of
    [**]. *)
Definition attractiveness (ph : gmap (node * node) float) (current : node)
    (valid : list node) : option (list float) :=
  mapM (λ n,
          let tau := default 1.0 (ph !! (current, n)) in
          e ← Graph.edges (graph cfg) current n;
          let edge_delay := default 1.0 (delay e) in
          eta ← PyFloat.div 1.0 (edge_delay + 0.1);
          tau_alpha ← pow tau (alpha cfg);
          eta_beta ← pow eta (beta cfg);
          Some (tau_alpha * eta_beta))
       valid.

(** The roulette-wheel draw among the valid neighbours. The division is
    guarded by [if denominator == 0]; [random.choices] raises on weights
    whose total is not positive and finite. *)
Definition next_node (t : nat) (valid : list node) (probabilities : list float)
  : option node :=
  let denominator := fold_left PrimFloat.add probabilities 0.0 in
  if denominator =? 0
  then pick valid (choice rng t)
  else random_choices rng t valid (map (λ p, p / denominator) probabilities).

(** [for _ in range(len(self.nodes) * 2): ...] of [_construct_path]; the
    outer [None] is an exception, the inner one the ant that failed. *)
Fixpoint construct_loop (ph : gmap (node * node) float) (dst : node) (demand_bw : float)
    (fuel : nat) (t : nat) (current : node) (path : list node) (visited : gset node)
  : option (option (list node) * nat) :=
  match fuel with
  | O => Some (None, t)
  | S fuel' =>
      if decide (current = dst) then Some (Some path, t) else
      neighbors ← Graph.neighbors (graph cfg) current;
      valid ← valid_neighbors current visited demand_bw neighbors;
      match valid with
      | [] => Some (None, t)
      | _ =>
          probabilities ← attractiveness ph current valid;
          next ← next_node t valid probabilities;
          construct_loop ph dst demand_bw fuel' (S t) next (path ++ [next])
                         (visited ∪ {[next]})
      end
  end.

Definition construct_path (ph : gmap (node * node) float) (src dst : node)
    (demand_bw : float) (t : nat) : option (option (list node) * nat) :=
  construct_loop ph dst demand_bw (length (nodes cfg) * 2) t src [src] {[src]}.

Definition calculate_path_cost (p : list node) : float :=
  calculate_weighted_cost (calculate_path_attributes (graph cfg) p) (weights cfg).

(** Evaporation of one pheromone value, with its floor. *)
Definition evaporate (p : float) : float :=
  let p' := p * (1.0 - evaporation cfg) in
  if p' <? 0.01 then 0.01 else p'.

(** [if key in self.pheromones: self.pheromones[key] += deposit] *)
Definition add_deposit (deposit : float) (key : node * node)
    (ph : gmap (node * node) float) : gmap (node * node) float :=
  alter (λ p, p + deposit) key ph.

(** The deposit of one ant along its path, in both directions; [None] is
    the [ZeroDivisionError] of [cost + 0.0001 == 0]. *)
Definition deposit_path (ph : gmap (node * node) float) (pc : list node * float)
  : option (gmap (node * node) float) :=
  deposit ← PyFloat.div (q cfg) (pc.2 + 0.0001);
  Some (fold_left (λ ph '(u, v), add_deposit deposit (v, u) (add_deposit deposit (u, v) ph))
                  (pairs pc.1) ph).

Definition update_pheromones (ph : gmap (node * node) float)
    (all_paths : list (list node * float)) : option (gmap (node * node) float) :=
  fold_left (λ acc pc, ph' ← acc; deposit_path ph' pc) all_paths (Some (evaporate <$> ph)).

(** [if cost < self.best_cost: ...] *)
Definition record_best (st : State) (cost : float) (p : list node) : State :=
  if cost <? best_cost st
  then {| best_path := Some p; best_cost := cost; pheromones := pheromones st |}
  else st.

(** [for _ in range(self.ant_count): ...]: the ants of one iteration. *)
Fixpoint send_ants (src dst : node) (demand_bw : float) (ants : nat) (st : State)
    (t : nat) (all_paths : list (list node * float))
  : option (State * nat * list (list node * float)) :=
  match ants with
  | O => Some (st, t, all_paths)
  | S ants' =>
      '(path, t') ← construct_path (pheromones st) src dst demand_bw t;
      match path with
      | Some p =>
          let cost := calculate_path_cost p in
          send_ants src dst demand_bw ants' (record_best st cost p) t'
                    (all_paths ++ [(p, cost)])
      | None => send_ants src dst demand_bw ants' st t' all_paths
      end
  end.

(** [for _ in range(self.iterations): ...] of [train]. *)
Fixpoint iterate (src dst : node) (demand_bw : float) (n : nat) (st : State) (t : nat)
  : option (State * nat) :=
  match n with
  | O => Some (st, t)
  | S n' =>
      '(st1, t1, all_paths) ← send_ants src dst demand_bw (ant_count cfg) st t [];
      ph' ← update_pheromones (pheromones st1) all_paths;
      iterate src dst demand_bw n'
              {| best_path := best_path st1; best_cost := best_cost st1;
                 pheromones := ph' |}
              t1
  end.

Definition train (src dst : node) (demand_bw : float) (st : State) (t : nat)
  : option (State * nat) :=
  iterate src dst demand_bw (iterations cfg)
          {| best_path := None; best_cost := infinity; pheromones := pheromones st |} t.

Definition get_best_path (st : State) : option (list node) := best_path st.

Definition get_path_metrics (path : option (list node)) (demand_bw : float)
  : option PathMetrics :=
  match path with
  | Some p =>
      if decide (length p < 2)%nat then Some (Invalid "Yol bulunamadı") else
      bws ← Graph.edge_bandwidths (graph cfg) 0 p;
      let min_bw := fold_left PyFloat.min2 bws infinity in
      if min_bw <? demand_bw then Some (Invalid "Bant genişliği yetersiz") else
      let attrs := calculate_path_attributes (graph cfg) p in
      let cost := calculate_weighted_cost attrs (weights cfg) in
      total_reliability ← path_reliability (graph cfg) p;
      Some (Valid {| m_path := p;
                     m_total_delay := total_delay attrs;
                     m_total_reliability := total_reliability;
                     m_reliability_cost := None;
                     m_resource_cost := resource_cost attrs;
                     m_total_cost := cost;
                     m_bottleneck_bw := min_bw;
                     m_hop_count := length p - 1;
                     m_node_count := None |})
  | None => Some (Invalid "Yol bulunamadı")
  end.

End Methods.

End ACORouter.

(** ** The panel ([main.py]): the engines behind [calculate_score] *)

Module NetworkApp.

(** What [calculate_metrics_manual] returns. *)
Record ManualMetrics := {
  mm_valid : bool;
  mm_path : list node;
  mm_total_delay : float;
  mm_total_reliability : float;
  mm_resource_cost : float;
  mm_total_cost : float;
  mm_bottleneck_bw : float
}.

Section Methods.
Context `{!Metrics} `{!FloatPow} (rng : Rng) (graph : Graph).
Local Open Scope float_scope.

(** [if metrics and metrics.get("valid", False): if metrics["total_cost"] <
    best_cost: ...] on [(best_metrics, best_cost)]. *)
Definition keep_cheapest (metrics : PathMetrics) (best : option MetricsRecord * float)
  : option MetricsRecord * float :=
  match metrics with
  | Valid r => if m_total_cost r <? best.2 then (Some r, m_total_cost r) else best
  | Invalid _ => best
  end.

(** The [for _ in range(5)] loop of the Q-Learning branch, a new router
    per round. *)
Fixpoint q_learning_rounds (weights : Weights) (src dst : node) (bandwidth_needed : float)
    (n : nat) (t : nat) (best : option MetricsRecord * float)
  : option (option MetricsRecord * float * nat) :=
  match n with
  | O => Some (best, t)
  | S n' =>
      '(router, st0) ← QLearningRouter.new graph weights 0.15 0.92 1.0 0.01 0.99
                                           4000 100 (-2.0) 0.5;
      '(st1, t1) ← QLearningRouter.train rng router src dst bandwidth_needed st0 t;
      let path := QLearningRouter.get_best_path st1 in
      metrics ← QLearningRouter.get_path_metrics router path bandwidth_needed;
      q_learning_rounds weights src dst bandwidth_needed n' t1 (keep_cheapest metrics best)
  end.

(** The Q-Learning branch of [calculate_score] for one demand: the
    [metrics] it goes on to show, [None] for "Yol bulunamadı". *)
Definition q_learning_score (weights : Weights) (src dst : node) (bandwidth_needed : float)
    (t : nat) : option (option MetricsRecord * nat) :=
  '(best, t') ← q_learning_rounds weights src dst bandwidth_needed 5 t (None, infinity);
  Some (best.1, t').

(** The [for _ in range(5)] loop of the ACO branch. *)
Fixpoint aco_rounds (weights : Weights) (src dst : node) (bandwidth_needed : float)
    (n : nat) (t : nat) (best : option MetricsRecord * float)
  : option (option MetricsRecord * float * nat) :=
  match n with
  | O => Some (best, t)
  | S n' =>
      let '(router, st0) := ACORouter.new graph weights 20 20 1.0 2.0 0.5 100.0 in
      '(st1, t1) ← ACORouter.train rng router src dst bandwidth_needed st0 t;
      match ACORouter.get_best_path st1 with
      | Some path =>
          if decide (1 < length path)%nat then
            metrics ← ACORouter.get_path_metrics router (Some path) bandwidth_needed;
            aco_rounds weights src dst bandwidth_needed n' t1 (keep_cheapest metrics best)
          else aco_rounds weights src dst bandwidth_needed n' t1 best
      | None => aco_rounds weights src dst bandwidth_needed n' t1 best
      end
  end.

(** The ACO branch of [calculate_score] for one demand. *)
Definition aco_score (weights : Weights) (src dst : node) (bandwidth_needed : float)
    (t : nat) : option (option MetricsRecord * nat) :=
  '(best, t') ← aco_rounds weights src dst bandwidth_needed 5 t (None, infinity);
  Some (best.1, t').

(** [calculate_metrics_manual], which the Dijkstra branch applies to the
    path of [nx.shortest_path]; every attribute is read with [[...]], and
    [min] of no edge is a [ValueError]. *)
Definition calculate_metrics_manual (path : list node) (weights : Weights)
  : option ManualMetrics :=
  let attrs := calculate_path_attributes graph path in
  let cost := calculate_weighted_cost attrs weights in
  edge_rel ← mapM (λ '(u, v), e ← Graph.edges graph u v; reliability e) (pairs path);
  node_rel ← mapM (λ n, d ← Graph.node_data graph n; node_reliability d) path;
  let total_reliability :=
    fold_left PrimFloat.mul node_rel (fold_left PrimFloat.mul edge_rel 1.0) in
  bws ← mapM (λ '(u, v), e ← Graph.edges graph u v; bandwidth e) (pairs path);
  min_bw ← PyFloat.min_of bws;
  Some {| mm_valid := true;
          mm_path := path;
          mm_total_delay := total_delay attrs;
          mm_total_reliability := total_reliability;
          mm_resource_cost := resource_cost attrs;
          mm_total_cost := cost;
          mm_bottleneck_bw := min_bw |}.

End Methods.

End NetworkApp.

(** ** The Q-learning experiments ([src/experimentsql.py]) *)

Module Experiments.

Section Run.
Context `{!Metrics} (rng : Rng) (graph : Graph).
Local Open Scope float_scope.

(** What one run appends to [run_costs], from [if best_path and
    len(best_path) > 1:] on. *)
Definition run_cost (weights : Weights) (best_path : option (list node))
    (demand_bw : float) : option float :=
  match best_path with
  | Some p =>
      if decide (1 < length p)%nat then
        let attrs := calculate_path_attributes graph p in
        let cost := calculate_weighted_cost attrs weights in
        bws ← mapM (λ '(u, v), e ← Graph.edges graph u v; bandwidth e) (pairs p);
        min_bw ← PyFloat.min_of bws;
        Some (if demand_bw <=? min_bw then cost else infinity)
      else Some infinity
  | None => Some infinity
  end.

(** One pass through the body of [for run in range(1, num_runs + 1)]: a
    new router, its training, and the cost appended to [run_costs]. *)
Definition run (weights : Weights) (episodes : nat) (src dst : node) (demand_bw : float)
    (t : nat) : option (float * nat) :=
  '(ql, st0) ← QLearningRouter.new graph weights 0.1 0.9 1.0 0.01 0.99
                                   episodes 500 (-2.0) 0.5;
  '(st1, t1) ← QLearningRouter.train rng ql src dst demand_bw st0 t;
  let best_path := QLearningRouter.get_best_path st1 in
  cost ← run_cost weights best_path demand_bw;
  Some (cost, t1).

End Run.

End Experiments.

(** ** Scenarios: concrete networks, a cost model and a random source *)

Module Scenario.
Definition edge (bw : float) : EdgeData :=
  {| bandwidth := Some bw; delay := Some 1%float; reliability := Some 0.9%float |}.


Definition plain_node : NodeData := {| node_reliability := Some 1%float |}.

(** The ring 0-1-2-3-0 with delay 1, reliability 0.9 and bandwidth 10 on
    every edge. *)
Definition ring : Graph := {|
  g_node := [(0, plain_node); (1, plain_node); (2, plain_node); (3, plain_node)];
  g_adj := [(0, [(1, edge 10); (3, edge 10)]);
            (1, [(0, edge 10); (2, edge 10)]);
            (2, [(1, edge 10); (3, edge 10)]);
            (3, [(2, edge 10); (0, edge 10)])]
|}.

(** Two nodes joined by one edge of bandwidth 10. *)
Definition link : Graph := {|
  g_node := [(0, plain_node); (1, plain_node)];
  g_adj := [(0, [(1, edge 10)]); (1, [(0, edge 10)])]
|}.

(** The line 0-1-2, bandwidth 10 on both edges. *)
Definition line : Graph := {|
  g_node := [(0, plain_node); (1, plain_node); (2, plain_node)];
  g_adj := [(0, [(1, edge 10)]);
            (1, [(0, edge 10); (2, edge 10)]);
            (2, [(1, edge 10)])]
|}.


(** Modelled from the spec: the Cost Model of [src/metrics.py], which is
    not among the sources. [total_delay] is the sum of the edge delays and
    the scalar cost the weighted sum of the three attributes, as the spec
    states them; the reliability and resource transforms, which the spec
    leaves open, are 0 here. It is the cost model the routers are
    evaluated with on the networks above. *)
Definition delay_metrics : Metrics := {|
  calculate_path_attributes g p :=
    {| total_delay :=
         fold_left PrimFloat.add
           (map (λ uv, match Graph.edges g uv.1 uv.2 with
                       | Some e => default 0%float (delay e)
                       | None => 0%float
                       end) (pairs p)) 0%float;
       reliability_cost := 0%float;
       resource_cost := 0%float |};
  calculate_weighted_cost a w :=
    (w_delay w * total_delay a + w_reliability w * reliability_cost a
      + w_resource w * resource_cost a)%float
|}.

Definition delay_only : Weights := {| w_delay := 1%float; w_reliability := 0%float; w_resource := 0%float |}.

(** Every criterion switched off: every path costs 0. *)
Definition no_weights : Weights := {| w_delay := 0%float; w_reliability := 0%float; w_resource := 0%float |}.

(** [x ** y] for the exponents the scenarios use, [1.0] and [2.0]: the
    square of a finite base that is out of range is the [OverflowError]. *)
Definition pow12 : FloatPow := {|
  pow x y :=
    if (y =? 2)%float
    then if PyFloat.isfinite x && negb (PyFloat.isfinite (x * x)) then None
         else Some (x * x)%float
    else Some x
|}.

(** A random source: [random()] is always [0.5], and the [t]-th draw of
    [choice] or [choices] selects position [t] (modulo the length). *)
Definition draws : Rng := {| random _ := 0.5%float; choice t := t; choices t _ := t |}.

(** [QLearningRouter(g, w, initial_epsilon=e, episodes=n)], the other
    arguments at the defaults of [__init__]. *)
Definition qlearning (g : Graph) (w : Weights) (e : float) (n : nat)
  : option (QLearningRouter.Config * QLearningRouter.State) :=
  QLearningRouter.new g w 0.15%float 0.92%float e 0.01%float 0.99%float
                      n 100 (-2.0)%float 0.5%float.

(** The router and the state that constructor call builds on a network
    whose nodes all have an adjacency entry. *)
Definition qlearning_cfg (g : Graph) (w : Weights) (n : nat) : QLearningRouter.Config :=
  {| QLearningRouter.graph := g; QLearningRouter.weights := w;
     QLearningRouter.alpha := 0.15%float; QLearningRouter.gamma := 0.92%float;
     QLearningRouter.min_epsilon := 0.01%float;
     QLearningRouter.epsilon_decay := 0.99%float;
     QLearningRouter.episodes := n; QLearningRouter.max_steps := 100;
     QLearningRouter.step_penalty := (-2.0)%float;
     QLearningRouter.progress_bonus := 0.5%float |}.

Definition qlearning_init (g : Graph) (e : float) : QLearningRouter.State :=
  {| QLearningRouter.Q := default [] (QLearningRouter.fresh_Q g);
     QLearningRouter.best_path := None;
     QLearningRouter.best_cost := infinity;
     QLearningRouter.epsilon := e |}.

(** The state and the draw counter after a call that raised nothing. *)
Definition after {S : Type} (s0 : S) (r : option (S * nat)) : S * nat :=
  default (s0, 0) r.

(** [ACORouter(g, w, ant_count=ants, iterations=n)] with the defaults of
    [__init__] for the rest. *)
Definition aco (g : Graph) (w : Weights) (ants n : nat)
  : ACORouter.Config * ACORouter.State :=
  ACORouter.new g w ants n 1.0%float 2.0%float 0.5%float 100.0%float.

End Scenario.

(** * Properties *)

(** ** The order of binary64 numbers

    The comparisons of the kernel's floats are specified on [spec_float] by
    [SFcompare]. A number's [rank] is a triple of integers whose
    lexicographic order is that comparison; the order facts the routers
    rely on are then linear integer arithmetic. *)

Section FloatOrder.
Local Open Scope float_scope.

Definition rank (f : spec_float) : option (Z * Z * Z) :=
  match f with
  | S754_nan => None
  | S754_infinity true => Some (-2, 0, 0)%Z
  | S754_finite true m e => Some (-1, - e, Zneg m)%Z
  | S754_zero _ => Some (0, 0, 0)%Z
  | S754_finite false m e => Some (1, e, Zpos m)%Z
  | S754_infinity false => Some (2, 0, 0)%Z
  end.

Definition rank_compare (x y : Z * Z * Z) : comparison :=
  let '(c1, e1, m1) := x in
  let '(c2, e2, m2) := y in
  match (c1 ?= c2)%Z with
  | Eq => match (e1 ?= e2)%Z with Eq => (m1 ?= m2)%Z | r => r end
  | r => r
  end.

Definition rank_lt (x y : Z * Z * Z) : Prop :=
  let '(c1, e1, m1) := x in
  let '(c2, e2, m2) := y in
  (c1 < c2 \/ (c1 = c2 /\ (e1 < e2 \/ (e1 = e2 /\ m1 < m2))))%Z.

Lemma SFcompare_rank a b :
  SFcompare a b =
  match rank a, rank b with
  | Some x, Some y => Some (rank_compare x y)
  | _, _ => None
  end.
Proof.
  destruct a as [sa|sa| |sa ma ea], b as [sb|sb| |sb mb eb];
    try destruct sa; try destruct sb; simpl; try reflexivity.
  rewrite Z.compare_opp, (Z.compare_antisym ea eb).
  destruct (ea ?= eb)%Z; reflexivity.
Qed.

Lemma rank_compare_Lt x y : rank_compare x y = Lt <-> rank_lt x y.
Proof.
  destruct x as [[c1 e1] m1], y as [[c2 e2] m2]; simpl.
  destruct (Z.compare_spec c1 c2), (Z.compare_spec e1 e2), (Z.compare_spec m1 m2);
    split; intros; try discriminate; try lia; reflexivity.
Qed.

Lemma rank_compare_Eq x y : rank_compare x y = Eq <-> x = y.
Proof.
  destruct x as [[c1 e1] m1], y as [[c2 e2] m2]; simpl.
  destruct (Z.compare_spec c1 c2), (Z.compare_spec e1 e2), (Z.compare_spec m1 m2);
    split; intros H'; try discriminate; try (injection H'; lia);
    subst; reflexivity.
Qed.

Lemma rank_trichotomy x y : rank_lt x y \/ x = y \/ rank_lt y x.
Proof.
  destruct x as [[c1 e1] m1], y as [[c2 e2] m2]; simpl.
  destruct (Z.lt_trichotomy c1 c2) as [?|[->|?]]; [lia| |lia].
  destruct (Z.lt_trichotomy e1 e2) as [?|[->|?]]; [lia| |lia].
  destruct (Z.lt_trichotomy m1 m2) as [?|[->|?]]; [lia| |lia].
  right; left; reflexivity.
Qed.

Definition frank (x : float) : option (Z * Z * Z) := rank (Prim2SF x).

Lemma ltb_rank x y :
  (x <? y) = true <->
  exists kx ky, frank x = Some kx /\ frank y = Some ky /\ rank_lt kx ky.
Proof.
  rewrite FloatAxioms.ltb_spec. unfold SFltb, frank. rewrite SFcompare_rank.
  destruct (rank (Prim2SF x)) as [kx|], (rank (Prim2SF y)) as [ky|];
    try (split; [discriminate | intros (?&?&?&?&?); discriminate]).
  pose proof (rank_compare_Lt kx ky) as HLt.
  destruct (rank_compare kx ky); split; intros H'; try discriminate; try reflexivity.
  - destruct H' as (?&?&[= <-]&[= <-]&Hr). apply HLt in Hr. discriminate.
  - exists kx, ky. split; [reflexivity|]. split; [reflexivity|]. now apply HLt.
  - destruct H' as (?&?&[= <-]&[= <-]&Hr). apply HLt in Hr. discriminate.
Qed.

Lemma leb_rank x y :
  (x <=? y) = true <->
  exists kx ky, frank x = Some kx /\ frank y = Some ky /\ (rank_lt kx ky \/ kx = ky).
Proof.
  rewrite FloatAxioms.leb_spec. unfold SFleb, frank. rewrite SFcompare_rank.
  destruct (rank (Prim2SF x)) as [kx|], (rank (Prim2SF y)) as [ky|];
    try (split; [discriminate | intros (?&?&?&?&?); discriminate]).
  pose proof (rank_compare_Lt kx ky) as HLt.
  pose proof (rank_compare_Eq kx ky) as HEq.
  destruct (rank_compare kx ky); split; intros H'; try discriminate; try reflexivity.
  - exists kx, ky. split; [reflexivity|]. split; [reflexivity|]. right. now apply HEq.
  - exists kx, ky. split; [reflexivity|]. split; [reflexivity|]. left. now apply HLt.
  - destruct H' as (?&?&[= <-]&[= <-]&[Hr|Hr]).
    + apply HLt in Hr. discriminate.
    + apply HEq in Hr. discriminate.
Qed.

Lemma is_number_rank x : PyFloat.is_number x <-> exists k, frank x = Some k.
Proof.
  unfold PyFloat.is_number. rewrite FloatAxioms.eqb_spec. unfold SFeqb, frank.
  rewrite SFcompare_rank.
  destruct (rank (Prim2SF x)) as [k|].
  - pose proof (proj2 (rank_compare_Eq k k) eq_refl) as ->.
    split; [eauto | reflexivity].
  - split; [discriminate | intros [? ?]; discriminate].
Qed.

Lemma rank_infinity : frank infinity = Some (2, 0, 0)%Z.
Proof. reflexivity. Qed.

Lemma rank_bounded f k :
  rank f = Some k -> rank_lt k (2, 0, 0)%Z \/ k = (2, 0, 0)%Z.
Proof.
  destruct f as [s|s| |s m e]; try destruct s; simpl; intros [= <-];
    try (left; simpl; lia); now right.
Qed.

End FloatOrder.

(** Unfolds float comparisons in the context and the goal into ranks. *)
Ltac float_ranks :=
  repeat match goal with
    | H : (_ <? _)%float = true |- _ =>
        apply ltb_rank in H; destruct H as (?&?&?&?&?)
    | H : (_ <=? _)%float = true |- _ =>
        apply leb_rank in H; destruct H as (?&?&?&?&?)
    | H : PyFloat.is_number _ |- _ =>
        apply is_number_rank in H; destruct H as (?&?)
    end;
  repeat match goal with
    | H : frank ?x = Some _, H' : frank ?x = Some _ |- _ =>
        rewrite H in H'; injection H' as <-
    end.

Ltac rank_arith :=
  repeat match goal with
    | k : (Z * Z * Z)%type |- _ => destruct k as [[? ?] ?]
    end;
  unfold rank_lt in *;
  repeat match goal with
    | H : (_, _, _) = (_, _, _) |- _ => injection H as ? ? ?
    | H : _ \/ _ = _ |- _ => idtac
    end;
  subst.

Section FloatOrderFacts.
Local Open Scope float_scope.

Lemma ltb_is_number x y :
  (x <? y) = true -> PyFloat.is_number x /\ PyFloat.is_number y.
Proof. intros H. float_ranks. split; apply is_number_rank; eauto. Qed.

Lemma leb_is_number x y :
  (x <=? y) = true -> PyFloat.is_number x /\ PyFloat.is_number y.
Proof. intros H. float_ranks. split; apply is_number_rank; eauto. Qed.

Lemma ltb_leb x y : (x <? y) = true -> (x <=? y) = true.
Proof.
  intros H. float_ranks. apply leb_rank. eauto 10.
Qed.

Lemma leb_refl x : PyFloat.is_number x -> (x <=? x) = true.
Proof. intros H. float_ranks. apply leb_rank. eauto 10. Qed.

Lemma ltb_irrefl x : (x <? x) = false.
Proof.
  destruct (x <? x) eqn:H; [|reflexivity]. float_ranks. rank_arith. lia.
Qed.

Lemma ltb_trans x y z : (x <? y) = true -> (y <? z) = true -> (x <? z) = true.
Proof.
  intros H1 H2. float_ranks. apply ltb_rank.
  do 2 eexists. split; [eassumption|]. split; [eassumption|].
  rank_arith. lia.
Qed.

Lemma leb_trans x y z : (x <=? y) = true -> (y <=? z) = true -> (x <=? z) = true.
Proof.
  intros H1 H2. float_ranks. apply leb_rank.
  do 2 eexists. split; [eassumption|]. split; [eassumption|].
  rank_arith.
  repeat match goal with H : _ \/ (_, _, _) = (_, _, _) |- _ =>
    destruct H as [H|[= -> -> ->]] end; try lia; auto.
Qed.

Lemma ltb_leb_trans x y z : (x <? y) = true -> (y <=? z) = true -> (x <? z) = true.
Proof.
  intros H1 H2. float_ranks. apply ltb_rank.
  do 2 eexists. split; [eassumption|]. split; [eassumption|].
  rank_arith.
  repeat match goal with H : _ \/ (_, _, _) = (_, _, _) |- _ =>
    destruct H as [H|[= -> -> ->]] end; try lia; auto.
Qed.

Lemma leb_ltb_trans x y z : (x <=? y) = true -> (y <? z) = true -> (x <? z) = true.
Proof.
  intros H1 H2. float_ranks. apply ltb_rank.
  do 2 eexists. split; [eassumption|]. split; [eassumption|].
  rank_arith.
  repeat match goal with H : _ \/ (_, _, _) = (_, _, _) |- _ =>
    destruct H as [H|[= -> -> ->]] end; try lia; auto.
Qed.

(** On numbers the order is total: [not (x < y)] is [y <= x]. *)
Lemma ltb_false_leb x y :
  PyFloat.is_number x -> PyFloat.is_number y ->
  (x <? y) = false -> (y <=? x) = true.
Proof.
  intros [kx Hx]%is_number_rank [ky Hy]%is_number_rank Hlt. apply leb_rank.
  exists ky, kx. split; [assumption|]. split; [assumption|].
  destruct (rank_trichotomy kx ky) as [Hr|[Hr|Hr]]; [|now right|now left].
  assert ((x <? y) = true) by (apply ltb_rank; eauto 10).
  congruence.
Qed.

Lemma leb_ltb_false x y : (y <=? x) = true -> (x <? y) = false.
Proof.
  intros Hle. destruct (x <? y) eqn:Hlt; [|reflexivity].
  float_ranks. rank_arith.
  repeat match goal with H : _ \/ (_, _, _) = (_, _, _) |- _ =>
    destruct H as [H|[= -> -> ->]] end; lia.
Qed.

Lemma leb_infinity x : PyFloat.is_number x -> (x <=? infinity) = true.
Proof.
  intros [kx Hx]%is_number_rank. apply leb_rank.
  exists kx, (2, 0, 0)%Z. split; [assumption|]. split; [apply rank_infinity|].
  now apply (rank_bounded (Prim2SF x)).
Qed.

Lemma infinity_leb x : (infinity <=? x) = true -> x = infinity.
Proof.
  intros (k1 & k2 & H1 & H2 & Hr)%leb_rank.
  rewrite rank_infinity in H1. injection H1 as <-.
  pose proof (rank_bounded _ _ H2) as Hb.
  assert (k2 = (2, 0, 0)%Z) as ->.
  { destruct k2 as [[c e] m]. simpl in Hr, Hb.
    destruct Hr as [Hr|Hr]; [|by symmetry].
    destruct Hb as [Hb|Hb]; [lia|assumption]. }
  apply Prim2SF_inj. unfold frank in H2.
  destruct (Prim2SF x) as [s|s| |s mm e]; try destruct s; simpl in H2;
    try discriminate; reflexivity.
Qed.

End FloatOrderFacts.

(** ** Dicts, consecutive pairs and running minima *)

Section DictFacts.
Context {A : Type}.
Implicit Types (d : list (node * A)) (k : node) (v : A).

Lemma dict_get_set_eq k v d : dict_get k (dict_set k v d) = Some v.
Proof.
  induction d as [|[k' v'] d IH]; simpl.
  - by rewrite decide_True.
  - destruct (decide (k = k')) as [->|Hne]; simpl.
    + by rewrite decide_True.
    + by rewrite decide_False.
Qed.

Lemma dict_get_set_ne k k' v d : k ≠ k' → dict_get k' (dict_set k v d) = dict_get k' d.
Proof.
  intros Hne. induction d as [|[k0 v0] d IH]; simpl.
  - by rewrite decide_False.
  - destruct (decide (k = k0)) as [->|Hne0]; simpl.
    + by rewrite !decide_False.
    + destruct (decide (k' = k0)); [done|apply IH].
Qed.

Lemma dict_keys_set k v d : is_Some (dict_get k d) → dict_keys (dict_set k v d) = dict_keys d.
Proof.
  induction d as [|[k0 v0] d IH]; simpl; intros [x Hx]; [done|].
  destruct (decide (k = k0)) as [->|Hne]; simpl; [done|].
  f_equal. apply IH. eauto.
Qed.

Lemma dict_get_elem_of k v d : dict_get k d = Some v → (k, v) ∈ d.
Proof.
  induction d as [|[k0 v0] d IH]; simpl; [done|].
  destruct (decide (k = k0)) as [->|Hne].
  - intros [= ->]. apply list_elem_of_here.
  - intros Hd. apply list_elem_of_further. by apply IH.
Qed.

Lemma dict_keys_get k d : k ∈ dict_keys d → is_Some (dict_get k d).
Proof.
  induction d as [|[k0 v0] d IH]; simpl.
  - by intros ?%elem_of_nil.
  - destruct (decide (k = k0)) as [->|Hne]; [eauto|].
    intros [?|?]%elem_of_cons; [done|by apply IH].
Qed.
End DictFacts.

Section PairsFacts.

Lemma pairs_snoc (p : list node) (u a : node) :
  pairs ((p ++ [u]) ++ [a]) = pairs (p ++ [u]) ++ [(u, a)].
Proof.
  induction p as [|x p IH]; [done|].
  destruct p as [|y p]; [done|].
  change (pairs (((x :: y :: p) ++ [u]) ++ [a]))
    with ((x, y) :: pairs (((y :: p) ++ [u]) ++ [a])).
  by rewrite IH.
Qed.

Lemma pairs_elem_of (p : list node) (u v : node) : (u, v) ∈ pairs p → u ∈ p ∧ v ∈ p.
Proof.
  induction p as [|x p IH]; simpl; [by intros ?%elem_of_nil|].
  destruct p as [|y p]; [by intros ?%elem_of_nil|].
  intros [[= -> ->]|Hin]%elem_of_cons.
  - split; [apply list_elem_of_here|apply list_elem_of_further, list_elem_of_here].
  - destruct (IH Hin). split; by apply list_elem_of_further.
Qed.

Lemma pairs_length (p : list node) : length (pairs p) = (length p - 1)%nat.
Proof.
  induction p as [|x p IH]; [done|].
  destruct p as [|y p]; [done|].
  change (length (pairs (x :: y :: p))) with (S (length (pairs (y :: p)))).
  rewrite IH. simpl. lia.
Qed.

(** On a simple path no hop occurs twice, in either direction. *)
Lemma pairs_NoDup (p : list node) : NoDup p → NoDup (pairs p).
Proof.
  induction p as [|x p IH]; [constructor|].
  destruct p as [|y p]; [constructor|].
  intros [Hx Hp]%NoDup_cons.
  change (pairs (x :: y :: p)) with ((x, y) :: pairs (y :: p)).
  apply NoDup_cons. split; [|by apply IH].
  intros [Hin _]%pairs_elem_of. done.
Qed.

Lemma pairs_oriented (p : list node) (u v : node) :
  NoDup p → (u, v) ∈ pairs p → (v, u) ∉ pairs p.
Proof.
  induction p as [|x p IH]; [by intros _ ?%elem_of_nil|].
  destruct p as [|y p]; [by intros _ ?%elem_of_nil|].
  intros [Hx Hp]%NoDup_cons.
  change (pairs (x :: y :: p)) with ((x, y) :: pairs (y :: p)).
  intros [[= -> ->]|Hin]%elem_of_cons [[= Hv Hu]|Hin']%elem_of_cons.
  - subst. apply Hx, list_elem_of_here.
  - apply pairs_elem_of in Hin' as [_ Hin']. done.
  - subst. apply pairs_elem_of in Hin as [_ Hin]. done.
  - by apply (IH Hp Hin).
Qed.

End PairsFacts.

Section MinFacts.
Local Open Scope float_scope.

(** A running minimum is its start or one of the values met. *)
Lemma fold_min2_cases (l : list float) (a : float) :
  fold_left PyFloat.min2 l a = a ∨ fold_left PyFloat.min2 l a ∈ l.
Proof.
  revert a. induction l as [|x l IH]; intros a; simpl; [by left|].
  destruct (IH (PyFloat.min2 a x)) as [->|Hin].
  - unfold PyFloat.min2. destruct (x <? a); [right; apply list_elem_of_here|by left].
  - right. by apply list_elem_of_further.
Qed.

Lemma min2_is_number (a b : float) :
  PyFloat.is_number a → PyFloat.is_number b → PyFloat.is_number (PyFloat.min2 a b).
Proof. unfold PyFloat.min2. by destruct (b <? a). Qed.

Lemma min2_leb_l (a b : float) : PyFloat.is_number a → (PyFloat.min2 a b <=? a) = true.
Proof.
  intros Ha. unfold PyFloat.min2. destruct (b <? a) eqn:Hlt.
  - by apply ltb_leb.
  - by apply leb_refl.
Qed.

Lemma min2_leb_r (a b : float) :
  PyFloat.is_number a → PyFloat.is_number b → (PyFloat.min2 a b <=? b) = true.
Proof.
  intros Ha Hb. unfold PyFloat.min2. destruct (b <? a) eqn:Hlt.
  - by apply leb_refl.
  - by apply ltb_false_leb.
Qed.

(** A bound below every value and below the start is below the running
    minimum. *)
Lemma fold_min2_lower_bound (l : list float) (a d : float) :
  (d <=? a) = true → Forall (λ b, (d <=? b) = true) l →
  (d <=? fold_left PyFloat.min2 l a) = true.
Proof.
  intros Ha Hl. destruct (fold_min2_cases l a) as [->|Hin]; [done|].
  by eapply Forall_forall in Hl.
Qed.

Lemma fold_min2_is_number (l : list float) (a : float) :
  PyFloat.is_number a → Forall PyFloat.is_number l →
  PyFloat.is_number (fold_left PyFloat.min2 l a).
Proof.
  intros Ha Hl. destruct (fold_min2_cases l a) as [->|Hin]; [done|].
  by eapply Forall_forall in Hl.
Qed.

Lemma is_number_infinity : PyFloat.is_number infinity.
Proof. reflexivity. Qed.

(** [min(values)] is the running minimum from [inf] when the values are
    numbers. *)
Lemma min_of_fold (l : list float) (m : float) :
  Forall PyFloat.is_number l → PyFloat.min_of l = Some m →
  m = fold_left PyFloat.min2 l infinity.
Proof.
  destruct l as [|x l]; simpl; [done|]. intros Hl [= <-].
  f_equal. unfold PyFloat.min2.
  destruct (x <? infinity) eqn:Hlt; [done|].
  apply Forall_cons in Hl as [Hx _]. apply infinity_leb.
  by apply ltb_false_leb.
Qed.

Lemma min2_number_l (a b : float) :
  PyFloat.is_number a → PyFloat.is_number (PyFloat.min2 a b).
Proof.
  intros Ha. unfold PyFloat.min2. destruct (b <? a) eqn:Hlt; [|done].
  by apply ltb_is_number in Hlt as [Hb _].
Qed.

(** A running minimum from a number never rises above its start ... *)
Lemma fold_min2_leb_start (l : list float) (a : float) :
  PyFloat.is_number a → (fold_left PyFloat.min2 l a <=? a) = true.
Proof.
  revert a. induction l as [|y l IH]; intros a Ha; simpl; [by apply leb_refl|].
  eapply leb_trans; [apply IH, min2_number_l, Ha|by apply min2_leb_l].
Qed.

(** ... nor above any number it has met. *)
Lemma fold_min2_leb_elem (l : list float) (a x : float) :
  PyFloat.is_number a → PyFloat.is_number x → x ∈ l →
  (fold_left PyFloat.min2 l a <=? x) = true.
Proof.
  revert a. induction l as [|y l IH]; intros a Ha Hx; simpl; [by intros ?%elem_of_nil|].
  intros [->|Hin]%elem_of_cons.
  - eapply leb_trans; [apply fold_min2_leb_start, min2_number_l, Ha|].
    by apply min2_leb_r.
  - apply IH; [by apply min2_number_l|done|done].
Qed.

(** [min(values)] is one of the values. *)
Lemma min_of_elem_of (l : list float) (m : float) : PyFloat.min_of l = Some m → m ∈ l.
Proof.
  destruct l as [|x l]; simpl; [done|]. intros [= <-].
  destruct (fold_min2_cases l x) as [->|Hin];
    [apply list_elem_of_here|by apply list_elem_of_further].
Qed.

(** [max(c, k)] below a bound puts [c] below it. *)
Lemma max2_ltb_l (c k b : float) :
  (PyFloat.max2 c k <? b) = true → (c <? b) = true.
Proof.
  unfold PyFloat.max2. destruct (c <? k) eqn:Hck; [|done].
  intros Hkb. by eapply ltb_trans.
Qed.

End MinFacts.

Section GraphFacts.
Context (g : Graph).
Local Open Scope float_scope.

Lemma mapM_snoc {A B} (f : A → option B) (l : list A) (x : A) :
  mapM f (l ++ [x]) = ys ← mapM f l; y ← f x; Some (ys ++ [y]).
Proof.
  induction l as [|a l IH]; simpl.
  - by destruct (f x).
  - destruct (f a); simpl; [|done]. rewrite IH.
    destruct (mapM f l); simpl; [|done]. by destruct (f x).
Qed.

Lemma edge_bandwidths_snoc dflt p u a :
  Graph.edge_bandwidths g dflt ((p ++ [u]) ++ [a]) =
  bws ← Graph.edge_bandwidths g dflt (p ++ [u]);
  e ← Graph.edges g u a;
  Some (bws ++ [default dflt (bandwidth e)]).
Proof.
  unfold Graph.edge_bandwidths. rewrite pairs_snoc, mapM_snoc.
  destruct (mapM _ (pairs (p ++ [u]))); simpl; [|done].
  by destruct (Graph.edges g u a).
Qed.

Lemma bottleneck_snoc dflt p u a m e :
  Graph.bottleneck g dflt (p ++ [u]) = Some m →
  Graph.edges g u a = Some e →
  Graph.bottleneck g dflt ((p ++ [u]) ++ [a]) =
    Some (PyFloat.min2 m (default dflt (bandwidth e))).
Proof.
  unfold Graph.bottleneck. rewrite edge_bandwidths_snoc. intros Hm He.
  destruct (Graph.edge_bandwidths g dflt (p ++ [u])) as [bws|]; simpl in *; [|done].
  injection Hm as <-. rewrite He. simpl. by rewrite fold_left_app.
Qed.

Lemma bottleneck_singleton dflt u : Graph.bottleneck g dflt [u] = Some infinity.
Proof. reflexivity. Qed.

Lemma is_walk_singleton u : Graph.is_walk g [u].
Proof. apply Forall_nil_2. Qed.

Lemma is_walk_snoc p u a :
  Graph.is_walk g (p ++ [u]) → is_Some (Graph.edges g u a) →
  Graph.is_walk g ((p ++ [u]) ++ [a]).
Proof.
  unfold Graph.is_walk. rewrite pairs_snoc. intros Hp He.
  apply Forall_app. split; [done|]. by apply Forall_singleton.
Qed.

(** A walk has every bandwidth it needs: its bottleneck is defined. *)
Lemma is_walk_edge_bandwidths dflt p :
  Graph.is_walk g p → is_Some (Graph.edge_bandwidths g dflt p).
Proof.
  intros Hw. apply mapM_is_Some. eapply Forall_impl; [exact Hw|].
  intros [u v] [e He]; simpl in *. rewrite He. by eexists.
Qed.

Lemma path_reliability_is_Some p :
  Graph.is_walk g p → Graph.on_nodes g p → is_Some (path_reliability g p).
Proof.
  intros Hw Hn. unfold path_reliability.
  destruct (mapM _ (pairs p)) as [er|] eqn:He; simpl.
  - destruct (mapM _ p) as [nr|] eqn:Hnr; simpl; [by eexists|].
    apply mapM_None in Hnr. apply Exists_exists in Hnr as (n & Hin & Hnone).
    eapply Forall_forall in Hn as [x Hx]; [|exact Hin].
    rewrite Hx in Hnone. done.
  - apply mapM_None in He. apply Exists_exists in He as ([u v] & Hin & Hnone).
    eapply Forall_forall in Hw as [x Hx]; [|exact Hin]. simpl in Hx.
    rewrite Hx in Hnone. done.
Qed.

(** The bandwidths read along a path are numbers when the attributes and
    the default are. *)
Lemma edge_bandwidths_numeric dflt p bws :
  PyFloat.is_number dflt → Graph.numeric_bandwidths g p →
  Graph.edge_bandwidths g dflt p = Some bws → Forall PyFloat.is_number bws.
Proof.
  intros Hd Hnum Hbws. apply mapM_Some in Hbws.
  unfold Graph.numeric_bandwidths in Hnum.
  induction Hbws as [|[u v] b l k Hb Hrest IH]; [constructor|].
  apply Forall_cons in Hnum as [Huv Hnum]. constructor; [|by apply IH].
  destruct (Graph.edges g u v) as [e|] eqn:He; simpl in Hb; [|done].
  injection Hb as <-. destruct (bandwidth e) as [b|] eqn:Hbe; simpl; [|done].
  by eapply Huv.
Qed.

Lemma edge_bandwidths_length dflt p bws :
  Graph.edge_bandwidths g dflt p = Some bws → length bws = (length p - 1)%nat.
Proof. intros Hb. apply length_mapM in Hb. by rewrite <- Hb, pairs_length. Qed.

End GraphFacts.

(** ** QLearningRouter: what an episode keeps true *)

Section SelectionFacts.
Local Open Scope float_scope.

Lemma pick_elem_of {A} (l : list A) (i : nat) (a : A) : pick l i = Some a → a ∈ l.
Proof. unfold pick. intros Hl. apply list_elem_of_lookup. eauto. Qed.

Lemma pick_is_Some {A} (l : list A) (i : nat) : l ≠ [] → is_Some (pick l i).
Proof.
  intros Hl. unfold pick. apply lookup_lt_is_Some.
  apply Nat.mod_upper_bound. by destruct l.
Qed.

Lemma argmax_elem_of {A} (l : list (A * float)) (a : A) :
  PyFloat.argmax l = Some a → a ∈ l.*1.
Proof.
  destruct l as [|x xs]; simpl; [done|]. intros [= <-].
  assert (Hin : ∀ ys b,
    fold_left (λ best c : A * float, if snd best <? snd c then c else best) ys b
      ∈ b :: ys).
  { clear. induction ys as [|y ys IH]; intros b; simpl; [apply list_elem_of_here|].
    specialize (IH (if snd b <? snd y then y else b)).
    apply elem_of_cons in IH as [->|IH].
    - destruct (snd b <? snd y); [apply list_elem_of_further|]; apply list_elem_of_here.
    - by do 2 apply list_elem_of_further. }
  specialize (Hin xs x). by apply (list_elem_of_fmap_2 fst) in Hin.
Qed.

Lemma argmax_is_Some {A} (l : list (A * float)) : l ≠ [] → is_Some (PyFloat.argmax l).
Proof. destruct l; [done|]. simpl. eauto. Qed.

Lemma random_choices_elem_of {A} (rng : Rng) (t : nat) (seq : list A) (ws : list float)
    (a : A) :
  random_choices rng t seq ws = Some a → a ∈ seq.
Proof.
  unfold random_choices. destruct (decide _); [|done]. destruct ws as [|w0 ws]; [done|].
  destruct (_ <=? _); [done|]. destruct (PyFloat.isfinite _); [apply pick_elem_of|done].
Qed.

End SelectionFacts.

Section QLearningFacts.
Import QLearningRouter.
Context `{!Metrics} (rng : Rng) (cfg : Config).
Local Open Scope float_scope.

Local Abbreviation g := (graph cfg).

(** The invariant of the [while] loop of [train]. *)
Record walk_inv (w : Walk) : Prop := {
  inv_last : ∃ p0, path w = p0 ++ [state w];
  inv_nodup : NoDup (path w);
  inv_visited : ∀ x, x ∈ visited w ↔ x ∈ path w;
  inv_walk : Graph.is_walk g (path w);
  inv_bw : Graph.bottleneck g 0 (path w) = Some (min_bw_on_path w)
}.

(** What a call of [train] with demand [demand_bw] may do to the retained
    best: leave it, or replace it by a strictly cheaper simple path that
    carries the demand. *)
Definition advances (demand_bw : float) (st st' : State) : Prop :=
  (best_path st' = best_path st ∧ best_cost st' = best_cost st) ∨
  ((best_cost st' <? best_cost st) = true ∧
   ∃ p, best_path st' = Some p ∧ Graph.simple_walk g p ∧ Graph.feasible g 0 demand_bw p ∧
        best_cost st' = PyFloat.max2 (path_cost cfg p) 1e-6).

Lemma advances_refl d st : advances d st st.
Proof. by left. Qed.

Lemma advances_trans d st1 st2 st3 :
  advances d st1 st2 → advances d st2 st3 → advances d st1 st3.
Proof.
  intros [[Hp Hc]|[Hlt Hrec]] [[Hp' Hc']|[Hlt' Hrec']].
  - left. split; congruence.
  - right. rewrite <- Hc. by split.
  - right. rewrite Hc', Hp'. by split.
  - right. split; [|done]. by eapply ltb_trans.
Qed.

Lemma start_inv src : walk_inv (start src).
Proof.
  constructor; simpl.
  - by exists [].
  - apply NoDup_singleton.
  - intros x. rewrite elem_of_singleton, list_elem_of_singleton. done.
  - apply is_walk_singleton.
  - apply bottleneck_singleton.
Qed.

Lemma select_action_elem_of eps t actions a t' :
  select_action rng eps t actions = Some (a, t') → a ∈ actions.*1.
Proof.
  unfold select_action. destruct (random rng t <? eps).
  - destruct (pick _ _) eqn:Hp; simpl; [|done]. intros [= <- <-].
    by eapply pick_elem_of.
  - destruct (PyFloat.argmax _) eqn:Hm; simpl; [|done]. intros [= <- <-].
    by apply argmax_elem_of.
Qed.

Lemma actions_of_unvisited qs visited a :
  a ∈ (actions_of qs visited).*1 → (a ∉ visited) ∧ (a ∈ dict_keys qs).
Proof.
  unfold actions_of. intros ([a' v] & -> & Hin)%list_elem_of_fmap.
  apply list_elem_of_filter in Hin as [Hv Hin]. split; [done|].
  unfold dict_keys. by apply (list_elem_of_fmap_2 fst) in Hin.
Qed.

Lemma record_best_advances d st p :
  Graph.simple_walk g p → Graph.feasible g 0 d p →
  advances d st (record_best st (PyFloat.max2 (path_cost cfg p) 1e-6) p).
Proof.
  intros Hs Hf. unfold record_best. destruct (_ <? best_cost st) eqn:Hlt.
  - right. simpl. eauto 10.
  - by left.
Qed.

Lemma reward_of_advances dst d st next p min_bw r st1 :
  Graph.simple_walk g p → Graph.bottleneck g 0 p = Some min_bw →
  reward_of cfg dst d st next p min_bw = (r, st1) →
  advances d st st1 ∧ Q st1 = Q st ∧ epsilon st1 = epsilon st.
Proof.
  intros Hs Hb. unfold reward_of.
  destruct (decide (next = dst)); [|intros [= <- <-]; by split; [left|]].
  destruct (d <=? min_bw) eqn:Hle; intros [= <- <-].
  - split; [apply record_best_advances; [done|by exists min_bw]|].
    unfold record_best. by destruct (_ <? _).
  - by split; [left|].
Qed.

(** One step of an episode keeps the invariant and only advances the
    retained best. *)
Lemma step_spec dst d st t w st' t' w' :
  walk_inv w →
  step rng cfg dst d st t w = Some (Some (st', t', w')) →
  walk_inv w' ∧ advances d st st'.
Proof.
  intros [[p0 Hlast] Hnd Hvis Hwalk Hbw]. unfold step.
  destruct (dict_get (state w) (Q st)) as [qs|] eqn:Hqs; simpl; [|done].
  destruct (actions_of qs (visited w)) as [|a0 acts] eqn:Hacts; [done|].
  destruct (select_action _ _ _ _) as [[action t1]|] eqn:Hsel; simpl; [|done].
  apply select_action_elem_of in Hsel. rewrite <- Hacts in Hsel.
  apply actions_of_unvisited in Hsel as [Hnv Hkey].
  destruct (Graph.edges g (state w) action) as [e|] eqn:He; simpl; [|done].
  destruct (reward_of _ _ _ _ _ _ _) as [reward st1] eqn:Hrew.
  assert (Hwalk' : Graph.is_walk g (path w ++ [action])).
  { rewrite Hlast. apply is_walk_snoc; [by rewrite <- Hlast|by rewrite He]. }
  assert (Hnd' : NoDup (path w ++ [action])).
  { apply NoDup_app. split; [done|]. split; [|apply NoDup_singleton].
    intros x Hx ->%list_elem_of_singleton. by apply Hnv, Hvis. }
  assert (Hbw' : Graph.bottleneck g 0 (path w ++ [action]) =
                 Some (PyFloat.min2 (min_bw_on_path w) (default 0 (bandwidth e)))).
  { rewrite Hlast. apply bottleneck_snoc; [by rewrite <- Hlast|done]. }
  apply reward_of_advances in Hrew as (Hadv & HQ & Heps); [|by split|done].
  destruct (dict_get action (Q st1)) as [qn|]; simpl; [|done].
  destruct (update_Q _ _ _ _ _ _) as [q'|]; simpl; [|done].
  intros [= <- <- <-]. split.
  - constructor; simpl.
    + by exists (path w).
    + done.
    + intros x. rewrite elem_of_union, elem_of_singleton, elem_of_app,
        list_elem_of_singleton. by rewrite Hvis.
    + done.
    + done.
  - destruct Hadv as [[Hp Hc]|Hrec]; [by left|by right].
Qed.

Lemma episode_advances dst d fuel st t w st' t' :
  walk_inv w →
  episode rng cfg dst d fuel st t w = Some (st', t') →
  advances d st st'.
Proof.
  revert st t w. induction fuel as [|fuel IH]; intros st t w Hinv; simpl.
  - destruct (decide (state w = dst)); intros [= <- <-]; apply advances_refl.
  - destruct (decide (state w = dst)); [intros [= <- <-]; apply advances_refl|].
    destruct (step _ _ _ _ _ _ _) as [[[[st1 t1] w1]|]|] eqn:Hstep; simpl; [| |done].
    + intros Hep. apply step_spec in Hstep as [Hinv1 Hadv]; [|done].
      eapply advances_trans; [exact Hadv|]. by eapply IH.
    + intros [= <- <-]. apply advances_refl.
Qed.

Lemma decay_best st :
  best_path (decay cfg st) = best_path st ∧ best_cost (decay cfg st) = best_cost st.
Proof. unfold decay. by destruct (_ <? _). Qed.

Lemma train_episodes_advances src dst d n st t st' t' :
  train_episodes rng cfg src dst d n st t = Some (st', t') →
  advances d st st'.
Proof.
  revert st t. induction n as [|n IH]; intros st t; simpl.
  - intros [= <- <-]. apply advances_refl.
  - destruct (episode _ _ _ _ _ _ _ _) as [[st1 t1]|] eqn:Hep; simpl; [|done].
    intros Htr. apply episode_advances in Hep; [|apply start_inv].
    apply IH in Htr. eapply advances_trans; [exact Hep|].
    eapply advances_trans; [|exact Htr].
    left. apply decay_best.
Qed.

(** [train] leaves the retained best alone or replaces it by a strictly
    cheaper simple path that carries the demand. *)
Lemma train_advances src dst d st t st' t' :
  train rng cfg src dst d st t = Some (st', t') → advances d st st'.
Proof. apply train_episodes_advances. Qed.

End QLearningFacts.

(** ** ACORouter: the initial pheromones *)

Section PheromoneFacts.

(** [_initialize_pheromones] on an empty table leaves 1.0 everywhere. *)
Lemma initialize_pheromones_uniform (g : Graph) (k : node * node) (x : float) :
  ACORouter.initialize_pheromones g ∅ !! k = Some x → x = 1.0%float.
Proof.
  unfold ACORouter.initialize_pheromones.
  assert (Hgen : ∀ l (ph : gmap (node * node) float),
    (∀ k x, ph !! k = Some x → x = 1.0%float) →
    ∀ k x, fold_left (λ ph '(u, v), <[(v, u) := 1.0%float]> (<[(u, v) := 1.0%float]> ph))
             l ph !! k = Some x → x = 1.0%float).
  { clear. induction l as [|[u v] l IH]; intros ph Hph k x; simpl; [apply Hph|].
    apply IH. intros k' x'. rewrite !lookup_insert.
    repeat case_decide; [congruence..|apply Hph]. }
  apply Hgen. intros k' x'. by rewrite lookup_empty.
Qed.

End PheromoneFacts.

(** ** ACORouter: what an ant keeps true *)

Section ACOFacts.
Import ACORouter.
Context `{!Metrics} `{!FloatPow} (rng : Rng) (cfg : Config).
Local Open Scope float_scope.

Local Abbreviation g := (graph cfg).

(** A path an ant may return for the demand [d]: simple, along edges, and
    every edge passed the bandwidth filter. *)
Definition ant_path (d : float) (p : list node) : Prop :=
  Graph.simple_walk g p ∧
  ∃ bws, Graph.edge_bandwidths g 0 p = Some bws ∧ Forall (λ b, (d <=? b) = true) bws.

Lemma ant_path_feasible d p :
  PyFloat.is_number d → ant_path d p → Graph.feasible g 0 d p.
Proof.
  intros Hd (_ & bws & Hbws & Hall). unfold Graph.feasible, Graph.bottleneck.
  rewrite Hbws. simpl. eexists. split; [done|].
  apply fold_min2_lower_bound; [by apply leb_infinity|done].
Qed.

Lemma valid_neighbors_spec current visited d ns valid :
  valid_neighbors cfg current visited d ns = Some valid →
  ∀ n, n ∈ valid →
    (n ∉ visited) ∧ (n ∈ ns) ∧
    ∃ e, Graph.edges g current n = Some e ∧ (d <=? default 0 (bandwidth e)) = true.
Proof.
  revert valid. induction ns as [|x ns IH]; intros valid; simpl.
  - intros [= <-] n ?%elem_of_nil. done.
  - destruct (decide (x ∈ visited)) as [Hin|Hnin].
    + intros Hv n Hn. destruct (IH _ Hv n Hn) as (? & ? & ?).
      split; [done|]. split; [by apply list_elem_of_further|done].
    + destruct (Graph.edges g current x) as [e|] eqn:He; simpl; [|done].
      destruct (valid_neighbors _ _ _ _ _) as [tl|]; simpl; [|done].
      intros [= <-] n. destruct (d <=? default 0 (bandwidth e)) eqn:Hle.
      * intros [->|Hn]%elem_of_cons.
        -- split; [done|]. split; [apply list_elem_of_here|eauto].
        -- destruct (IH _ eq_refl n Hn) as (? & ? & ?).
           split; [done|]. split; [by apply list_elem_of_further|done].
      * intros Hn. destruct (IH _ eq_refl n Hn) as (? & ? & ?).
        split; [done|]. split; [by apply list_elem_of_further|done].
Qed.

Lemma next_node_elem_of t valid probabilities next :
  next_node rng t valid probabilities = Some next → next ∈ valid.
Proof.
  unfold next_node. destruct (_ =? _); [apply pick_elem_of|apply random_choices_elem_of].
Qed.

(** The invariant of the [for] loop of [_construct_path]. *)
Record ant_inv (d : float) (current : node) (path : list node) (visited : gset node)
  : Prop := {
  ant_last : ∃ p0, path = p0 ++ [current];
  ant_visited : ∀ x, x ∈ visited ↔ x ∈ path;
  ant_ok : ant_path d path
}.

Lemma construct_loop_spec ph dst d fuel t current path visited p t' :
  ant_inv d current path visited →
  construct_loop rng cfg ph dst d fuel t current path visited = Some (Some p, t') →
  ant_path d p.
Proof.
  revert t current path visited. induction fuel as [|fuel IH];
    intros t current path visited Hinv; simpl; [done|].
  destruct (decide (current = dst)); [intros [= <- <-]; apply Hinv|].
  destruct (Graph.neighbors g current) as [ns|]; simpl; [|done].
  destruct (valid_neighbors _ _ _ _ _) as [valid|] eqn:Hvalid; simpl; [|done].
  destruct valid as [|v0 valid']; [done|].
  destruct (attractiveness _ _ _ _) as [probs|]; simpl; [|done].
  destruct (next_node _ _ _ _) as [next|] eqn:Hnext; simpl; [|done].
  apply IH. apply next_node_elem_of in Hnext.
  destruct (valid_neighbors_spec _ _ _ _ _ Hvalid _ Hnext) as (Hnv & _ & e & He & Hle).
  destruct Hinv as [[p0 ->] Hvis ((Hnd & Hwalk) & bws & Hbws & Hall)].
  constructor.
  - by exists (p0 ++ [current]).
  - intros x. rewrite elem_of_union, elem_of_singleton, elem_of_app,
      list_elem_of_singleton. by rewrite Hvis.
  - split; [split|].
    + apply NoDup_app. split; [done|]. split; [|apply NoDup_singleton].
      intros x Hx ->%list_elem_of_singleton. by apply Hnv, Hvis.
    + apply is_walk_snoc; [done|by rewrite He].
    + exists (bws ++ [default 0 (bandwidth e)]). split.
      * rewrite edge_bandwidths_snoc, Hbws. simpl. by rewrite He.
      * apply Forall_app. split; [done|]. by apply Forall_singleton.
Qed.

Lemma construct_path_spec ph src dst d t p t' :
  construct_path rng cfg ph src dst d t = Some (Some p, t') → ant_path d p.
Proof.
  apply construct_loop_spec. constructor.
  - by exists [].
  - intros x. by rewrite elem_of_singleton, list_elem_of_singleton.
  - split; [split; [apply NoDup_singleton|apply is_walk_singleton]|].
    exists []. by split; [|apply Forall_nil_2].
Qed.

(** The retained best of the ant colony is a path some ant returned. *)
Definition best_ok (d : float) (st : State) : Prop :=
  ∀ p, best_path st = Some p → ant_path d p.

Lemma record_best_ok d st cost p :
  best_ok d st → ant_path d p → best_ok d (record_best st cost p).
Proof.
  intros Hst Hp. unfold record_best. destruct (_ <? _); [|done].
  intros p' [= <-]. done.
Qed.

Lemma record_best_pheromones st cost p :
  pheromones (record_best st cost p) = pheromones st.
Proof. unfold record_best. by destruct (_ <? _). Qed.

Lemma send_ants_spec src dst d ants st t all st' t' all' :
  best_ok d st →
  send_ants rng cfg src dst d ants st t all = Some (st', t', all') →
  best_ok d st' ∧ pheromones st' = pheromones st.
Proof.
  revert st t all. induction ants as [|ants IH]; intros st t all Hst; simpl.
  - by intros [= <- <- <-].
  - destruct (construct_path _ _ _ _ _ _ _) as [[[p|] t1]|] eqn:Hc; simpl; [| |done].
    + intros Hs. apply IH in Hs as [Hok Hph].
      * split; [done|]. by rewrite Hph, record_best_pheromones.
      * apply record_best_ok; [done|]. by eapply construct_path_spec.
    + by apply IH.
Qed.

Lemma iterate_best_ok src dst d n st t st' t' :
  best_ok d st → iterate rng cfg src dst d n st t = Some (st', t') → best_ok d st'.
Proof.
  revert st t. induction n as [|n IH]; intros st t Hst; simpl.
  - by intros [= <- <-].
  - destruct (send_ants _ _ _ _ _ _ _ _ _) as [[[st1 t1] all]|] eqn:Hs; simpl; [|done].
    apply send_ants_spec in Hs as [Hok _]; [|done].
    destruct (update_pheromones _ _ _) as [ph'|]; simpl; [|done].
    apply IH. intros p Hp. by apply Hok.
Qed.

(** After [train] the retained best is a path an ant returned for this
    very demand. *)
Lemma train_best_ok src dst d st t st' t' :
  train rng cfg src dst d st t = Some (st', t') → best_ok d st'.
Proof. apply iterate_best_ok. by intros p. Qed.

(** *** The pheromone update *)

(** The hops of [l] pass the directed edge [k] in one direction or the
    other. *)
Definition touches (l : list (node * node)) (k : node * node) : Prop :=
  k ∈ l ∨ (k.2, k.1) ∈ l.

Lemma deposit_lookup (dep : float) (l : list (node * node))
    (ph : gmap (node * node) float) (k : node * node) :
  NoDup l → (∀ u v, (u, v) ∈ l → (v, u) ∉ l) →
  fold_left (λ ph '(u, v), add_deposit dep (v, u) (add_deposit dep (u, v) ph)) l ph !! k =
  if decide (touches l k) then (λ x, x + dep) <$> ph !! k else ph !! k.
Proof.
  revert ph. induction l as [|[u v] l IH]; intros ph Hnd Hor; cbn [fold_left].
  - rewrite decide_False; [done|]. by intros [?%elem_of_nil|?%elem_of_nil].
  - apply NoDup_cons in Hnd as [Hnew Hnd].
    assert (Huv : u ≠ v).
    { intros ->. by apply (Hor v v); apply list_elem_of_here. }
    assert (Hrev : (v, u) ∉ (u, v) :: l) by (apply Hor, list_elem_of_here).
    rewrite IH; [|done|].
    2:{ intros a b Hab Hba. apply (Hor a b); by apply list_elem_of_further. }
    unfold add_deposit, touches. destruct k as [a b]; cbn [fst snd].
    destruct (decide ((a, b) = (u, v))) as [[= -> ->]|Hne1].
    + rewrite (decide_False (P := _ ∨ _)).
      2:{ intros [?|?]; [done|]. by apply Hrev, list_elem_of_further. }
      rewrite (decide_True (P := _ ∨ _)) by (left; apply list_elem_of_here).
      rewrite lookup_alter_ne by (intros [= ? ?]; by subst).
      by rewrite lookup_alter_eq.
    + destruct (decide ((a, b) = (v, u))) as [[= -> ->]|Hne2].
      * rewrite (decide_False (P := _ ∨ _)).
        2:{ intros [?|?]; [|done]. by apply Hrev, list_elem_of_further. }
        rewrite (decide_True (P := _ ∨ _)) by (right; apply list_elem_of_here).
        rewrite lookup_alter_eq. by rewrite lookup_alter_ne by (intros [= ? ?]; by subst).
      * assert (Hiff : ((a, b) ∈ (u, v) :: l ∨ (b, a) ∈ (u, v) :: l) ↔
                       ((a, b) ∈ l ∨ (b, a) ∈ l)).
        { rewrite !elem_of_cons. split; [|tauto].
          intros [[[= -> ->]|?]|[[= -> ->]|?]]; tauto. }
        rewrite !lookup_alter_ne by congruence.
        destruct (decide ((a, b) ∈ l ∨ (b, a) ∈ l)) as [Ht|Ht].
        -- by rewrite decide_True by (by apply Hiff).
        -- by rewrite decide_False by (by rewrite Hiff).
Qed.

(** One ant deposits unless its cost makes [cost + 0.0001] zero. *)
Lemma update_pheromones_returns ph path cost :
  (cost + 0.0001 =? 0) = false → is_Some (update_pheromones cfg ph [(path, cost)]).
Proof.
  intros Hne. unfold update_pheromones, deposit_path, PyFloat.div. simpl.
  rewrite Hne. simpl. eauto.
Qed.

Lemma update_pheromones_lookup ph path cost ph' k :
  NoDup path →
  update_pheromones cfg ph [(path, cost)] = Some ph' →
  ph' !! k =
  if decide (touches (pairs path) k)
  then (λ x, evaporate cfg x + q cfg / (cost + 0.0001)) <$> ph !! k
  else evaporate cfg <$> ph !! k.
Proof.
  intros Hnd. unfold update_pheromones, deposit_path, PyFloat.div. simpl.
  destruct (cost + 0.0001 =? 0); simpl; [done|]. intros [= <-].
  rewrite deposit_lookup.
  - rewrite lookup_fmap. destruct (decide _); [|done]. by destruct (ph !! k).
  - by apply pairs_NoDup.
  - intros u v. by apply pairs_oriented.
Qed.

(** *** The pheromones across iterations and calls *)

(** The ants read the pheromones and never the retained best. *)
Lemma send_ants_pheromones_only src dst d ants st sa t all st' t' all' :
  pheromones st = pheromones sa →
  send_ants rng cfg src dst d ants st t all = Some (st', t', all') →
  ∃ sa', send_ants rng cfg src dst d ants sa t all = Some (sa', t', all') ∧
         pheromones sa' = pheromones st'.
Proof.
  revert st sa t all. induction ants as [|ants IH]; intros st sa t all Hph; simpl.
  - intros [= <- <- <-]. by exists sa.
  - rewrite <- Hph.
    destruct (construct_path _ _ _ _ _ _ _) as [[[p|] t1]|]; simpl; [| |done].
    + apply IH. by rewrite !record_best_pheromones.
    + by apply IH.
Qed.

Lemma iterate_pheromones_only src dst d n st sa t st' t' :
  pheromones st = pheromones sa →
  iterate rng cfg src dst d n st t = Some (st', t') →
  ∃ sa', iterate rng cfg src dst d n sa t = Some (sa', t') ∧
         pheromones sa' = pheromones st'.
Proof.
  revert st sa t. induction n as [|n IH]; intros st sa t Hph; simpl.
  - intros [= <- <-]. by exists sa.
  - destruct (send_ants _ _ _ _ _ _ st _ _) as [[[st1 t1] all]|] eqn:Hs; simpl; [|done].
    destruct (send_ants_pheromones_only _ _ _ _ _ _ _ _ _ _ _ Hph Hs)
      as (sa1 & -> & Hph1). simpl. rewrite Hph1.
    destruct (update_pheromones _ _ _) as [ph'|]; simpl; [|done].
    by apply IH.
Qed.

Lemma iterate_add src dst d n m st t :
  iterate rng cfg src dst d (n + m) st t =
  '(st1, t1) ← iterate rng cfg src dst d n st t; iterate rng cfg src dst d m st1 t1.
Proof.
  revert st t. induction n as [|n IH]; intros st t; simpl; [done|].
  destruct (send_ants _ _ _ _ _ _ _ _ _) as [[[st1 t1] all]|]; simpl; [|done].
  destruct (update_pheromones _ _ _) as [ph'|]; simpl; [|done].
  apply IH.
Qed.

End ACOFacts.

(** ** QLearningRouter: [run_multiple] and the states an instance reaches *)

Section QLearningRuns.
Import QLearningRouter.
Context `{!Metrics} (rng : Rng) (cfg : Config).
Local Open Scope float_scope.

Local Abbreviation g := (graph cfg).

(** A retained path that was recorded for the demand [d]. *)
Definition recorded (d : float) (p : list node) : Prop :=
  Graph.simple_walk g p ∧ Graph.feasible g 0 d p.

Lemma reset_spec st0 :
  reset cfg = Some st0 →
  fresh_Q g = Some (Q st0) ∧ best_path st0 = None ∧ best_cost st0 = infinity ∧
  epsilon st0 = 1.0.
Proof.
  unfold reset. destruct (fresh_Q g); simpl; [|done]. by intros [= <-].
Qed.

(** A run from a state without a retained path retains nothing or a path
    recorded in that run. *)
Lemma train_fresh src dst d st t st' t' p :
  best_path st = None →
  train rng cfg src dst d st t = Some (st', t') →
  best_path st' = Some p →
  recorded d p ∧ best_cost st' = PyFloat.max2 (path_cost cfg p) 1e-6 ∧
  (best_cost st' <? best_cost st) = true.
Proof.
  intros Hnone Htr Hp. apply train_advances in Htr as [[Hsame _]|[Hlt Hrec]].
  - congruence.
  - destruct Hrec as (p' & Hp' & Hs & Hf & Hc). by simplify_eq.
Qed.

Lemma keep_best_recorded d st gb :
  (∀ p, best_path st = Some p → recorded d p) →
  (∀ p, gb.2 = Some p → recorded d p) →
  ∀ p, (keep_best cfg st gb).2 = Some p → recorded d p.
Proof.
  intros Hst Hgb p. unfold keep_best.
  destruct (best_path st) as [p'|]; [|apply Hgb].
  destruct (_ <? _); [|apply Hgb]. simpl. intros [= <-]. by apply Hst.
Qed.

Lemma run_loop_recorded src dst d runs st t gb st' t' gb' :
  (∀ p, gb.2 = Some p → recorded d p) →
  run_loop rng cfg src dst d runs st t gb = Some (st', t', gb') →
  ∀ p, gb'.2 = Some p → recorded d p.
Proof.
  revert st t gb. induction runs as [|runs IH]; intros st t gb Hgb; simpl.
  - by intros [= <- <- <-].
  - destruct (reset cfg) as [st0|] eqn:Hreset; simpl; [|done].
    destruct (train _ _ _ _ _ _ _) as [[st1 t1]|] eqn:Htr; simpl; [|done].
    apply IH. apply keep_best_recorded; [|done].
    intros p Hp. apply reset_spec in Hreset as (_ & Hnone & _).
    by destruct (train_fresh _ _ _ _ _ _ _ _ Hnone Htr Hp).
Qed.

(** [run_multiple] returns what it retains: nothing, or a path recorded
    for the demand in one of its runs. *)
Lemma run_multiple_recorded src dst d runs st t r st' t' :
  run_multiple rng cfg src dst d runs st t = Some (r, st', t') →
  best_path st' = r ∧ ∀ p, r = Some p → recorded d p.
Proof.
  unfold run_multiple.
  destruct (run_loop _ _ _ _ _ _ _ _ _) as [[[st1 t1] [gc gp]]|] eqn:Hloop; simpl; [|done].
  intros [= <- <- <-]. split; [done|].
  intros p Hp. eapply (run_loop_recorded _ _ _ _ _ _ (infinity, None)); [|exact Hloop|exact Hp].
  by intros p'.
Qed.

(** *** [run_multiple] keeps the cheapest of its runs *)

(** The states the runs of [run_multiple] end in, one run after the other. *)
Fixpoint run_states (src dst : node) (d : float) (runs : nat) (t : nat)
  : option (list State * nat) :=
  match runs with
  | O => Some ([], t)
  | S runs' =>
      st0 ← reset cfg;
      '(st1, t1) ← train rng cfg src dst d st0 t;
      '(sts, t') ← run_states src dst d runs' t1;
      Some (st1 :: sts, t')
  end.

(** [global_best_cost] is the cost of [global_best_path], [inf] without one. *)
Definition global_best_inv (gb : float * option (list node)) : Prop :=
  match gb.2 with
  | None => gb.1 = infinity
  | Some p => gb.1 = path_cost cfg p ∧ (path_cost cfg p <? infinity) = true
  end.

Lemma global_best_number gb : global_best_inv gb → PyFloat.is_number gb.1.
Proof.
  unfold global_best_inv. destruct gb.2 as [p|].
  - intros [-> Hlt]. by apply ltb_is_number in Hlt as [? _].
  - intros ->. apply is_number_infinity.
Qed.

Lemma keep_best_spec st gb :
  global_best_inv gb →
  (∀ p, best_path st = Some p → (path_cost cfg p <? infinity) = true) →
  let gb' := keep_best cfg st gb in
  global_best_inv gb' ∧ (gb'.1 <=? gb.1) = true ∧
  (gb.2 ≠ None → gb'.2 ≠ None) ∧
  (gb'.2 = gb.2 ∨ (best_path st = gb'.2 ∧ gb'.2 ≠ None)) ∧
  (∀ p, best_path st = Some p → (gb'.1 <=? path_cost cfg p) = true ∧ gb'.2 ≠ None).
Proof.
  intros Hinv Hfin. pose proof (global_best_number gb Hinv) as Hnum.
  unfold keep_best. destruct (best_path st) as [p|].
  - pose proof (Hfin p eq_refl) as Hp.
    pose proof (ltb_is_number _ _ Hp) as [Hc _].
    destruct (path_cost cfg p <? gb.1) eqn:Hlt; simpl.
    + split; [by split|]. split; [by apply ltb_leb|]. split; [done|].
      split; [by right|]. intros p' [= <-]. split; [by apply leb_refl|done].
    + split; [done|]. split; [by apply leb_refl|]. split; [done|].
      split; [by left|]. intros p' [= <-]. split; [by apply ltb_false_leb|].
      intros Hnone. unfold global_best_inv in Hinv. rewrite Hnone in Hinv.
      rewrite Hinv in Hlt. congruence.
  - simpl. split; [done|]. split; [by apply leb_refl|]. split; [done|].
    split; [by left|]. by intros p.
Qed.

Lemma run_loop_best_of_runs src dst d runs st t gb st' t' gb' :
  global_best_inv gb →
  run_loop rng cfg src dst d runs st t gb = Some (st', t', gb') →
  ∃ sts, run_states src dst d runs t = Some (sts, t') ∧ length sts = runs ∧
    global_best_inv gb' ∧ (gb'.1 <=? gb.1) = true ∧
    (gb.2 ≠ None → gb'.2 ≠ None) ∧
    (gb'.2 = gb.2 ∨ ∃ s, s ∈ sts ∧ best_path s = gb'.2 ∧ gb'.2 ≠ None) ∧
    (∀ s p, s ∈ sts → best_path s = Some p →
            (gb'.1 <=? path_cost cfg p) = true ∧ gb'.2 ≠ None).
Proof.
  revert st t gb. induction runs as [|runs IH]; intros st t gb Hinv; simpl.
  - intros [= <- <- <-]. exists []. split; [done|]. split; [done|]. split; [done|].
    split; [by apply leb_refl, global_best_number|]. split; [done|].
    split; [by left|]. by intros s p ?%elem_of_nil.
  - destruct (reset cfg) as [st0|] eqn:Hreset; simpl; [|done].
    destruct (train _ _ _ _ _ _ _) as [[st1 t1]|] eqn:Htr; simpl; [|done].
    intros Hloop.
    apply reset_spec in Hreset as (_ & Hnone & Hinf & _).
    assert (Hfin : ∀ p, best_path st1 = Some p → (path_cost cfg p <? infinity) = true).
    { intros p Hp. destruct (train_fresh _ _ _ _ _ _ _ _ Hnone Htr Hp) as (_ & Hc & Hlt).
      rewrite Hc, Hinf in Hlt. by apply max2_ltb_l in Hlt. }
    destruct (keep_best_spec st1 gb Hinv Hfin) as (Hinv1 & Hle1 & Hsome1 & Hfrom1 & Hdom1).
    destruct (IH _ _ _ Hinv1 Hloop) as (sts & -> & Hlen & Hinv' & Hle & Hsome & Hfrom & Hdom).
    simpl. exists (st1 :: sts). split; [done|]. split; [by rewrite <- Hlen|].
    split; [done|]. split; [by eapply leb_trans|]. split; [by auto|]. split.
    + destruct Hfrom as [Heq|(s & Hs & Hb & Hn)].
      * destruct Hfrom1 as [Heq1|[Hb1 Hn1]]; [left; congruence|].
        right. exists st1. rewrite Heq. split; [apply list_elem_of_here|done].
      * right. exists s. split; [by apply list_elem_of_further|done].
    + intros s p [->|Hs]%elem_of_cons Hp.
      * destruct (Hdom1 p Hp) as [Hle' Hn]. split; [by eapply leb_trans|by auto].
      * by apply (Hdom s p).
Qed.

(** [run_multiple] returns the retained path of one of its runs, no dearer
    than the retained path of any run, and [None] exactly when no run
    retained a path. *)
Lemma run_multiple_best_of_runs src dst d runs st t r st' t' :
  run_multiple rng cfg src dst d runs st t = Some (r, st', t') →
  ∃ sts, run_states src dst d runs t = Some (sts, t') ∧ length sts = runs ∧
    (r = None ↔ ∀ s, s ∈ sts → best_path s = None) ∧
    (∀ p, r = Some p → ∃ s, s ∈ sts ∧ best_path s = Some p) ∧
    (∀ s q, s ∈ sts → best_path s = Some q →
            ∃ p, r = Some p ∧ (path_cost cfg p <=? path_cost cfg q) = true).
Proof.
  unfold run_multiple.
  destruct (run_loop _ _ _ _ _ _ _ _ _) as [[[st1 t1] [gc gp]]|] eqn:Hloop; simpl; [|done].
  intros [= <- <- <-].
  apply run_loop_best_of_runs in Hloop
    as (sts & Hsts & Hlen & Hinv & _ & _ & Hfrom & Hdom); [|done].
  simpl in *. exists sts. split; [done|]. split; [done|]. split; [split|split].
  - intros -> s Hs. destruct (best_path s) as [p|] eqn:Hp; [|done].
    by destruct (Hdom s p Hs Hp) as [_ Hn].
  - intros Hall. destruct Hfrom as [->|(s & Hs & Hb & Hn)]; [done|].
    rewrite (Hall s Hs) in Hb. congruence.
  - intros p ->. destruct Hfrom as [[=]|(s & Hs & Hb & _)]. by exists s.
  - intros s q Hs Hq. destruct (Hdom s q Hs Hq) as [Hle Hn].
    destruct gp as [p|]; [|done]. exists p. split; [done|].
    unfold global_best_inv in Hinv. simpl in Hinv. destruct Hinv as [<- _]. done.
Qed.

(** The Q-table every run starts from: for each node of the graph, and in
    their order, its neighbours at value 0. *)
Lemma fresh_Q_spec q :
  fresh_Q g = Some q →
  Forall2 (λ n entry, ∃ nbrs, Graph.neighbors g n = Some nbrs ∧
                              entry = (n, map (λ nbr, (nbr, 0)) nbrs))
          (Graph.nodes g) q.
Proof.
  intros Hq. apply mapM_Some in Hq. eapply Forall2_impl; [exact Hq|].
  intros n entry. simpl. destruct (Graph.neighbors g n) as [nbrs|]; simpl; [|done].
  intros [= <-]. by exists nbrs.
Qed.

(** The states of a router instance: the one [__init__] builds and those
    any sequence of [train] and [run_multiple] calls leads to. *)
Inductive reachable : State → Prop :=
| reach_new w a gm e me ed ep ms sp pb st :
    new g w a gm e me ed ep ms sp pb = Some (cfg, st) → reachable st
| reach_train src dst d st t st' t' :
    reachable st → train rng cfg src dst d st t = Some (st', t') → reachable st'
| reach_run_multiple src dst d runs st t r st' t' :
    reachable st → run_multiple rng cfg src dst d runs st t = Some (r, st', t') →
    reachable st'.

Lemma reachable_simple_walk st p :
  reachable st → best_path st = Some p → Graph.simple_walk g p.
Proof.
  intros Hr. revert p. induction Hr as
    [w a gm e me ed ep ms sp pb st Hnew
    |src dst d st t st' t' Hr IH Htr
    |src dst d runs st t r st' t' Hr IH Hrun]; intros p Hp.
  - unfold new in Hnew. destruct (fresh_Q g); simpl in Hnew; [|done].
    injection Hnew as _ <-. done.
  - apply train_advances in Htr as [[Hsame _]|[_ Hrec]].
    + apply IH. congruence.
    + destruct Hrec as (p' & Hp' & Hs & _). by simplify_eq.
  - apply run_multiple_recorded in Hrun as [<- Hrec]. by apply Hrec.
Qed.

End QLearningRuns.

(** ** The degenerate demand: [src == dst] *)

Section Degenerate.
Context `{!Metrics} `{!FloatPow} (rng : Rng).
Local Open Scope float_scope.

Lemma qlearning_train_at_destination (cfg : QLearningRouter.Config) src d n st t :
  ∃ st', QLearningRouter.train_episodes rng cfg src src d n st t = Some (st', t) ∧
         QLearningRouter.Q st' = QLearningRouter.Q st ∧
         QLearningRouter.best_path st' = QLearningRouter.best_path st ∧
         QLearningRouter.best_cost st' = QLearningRouter.best_cost st.
Proof.
  revert st. induction n as [|n IH]; intros st; simpl.
  - by exists st.
  - assert (Hep : QLearningRouter.episode rng cfg src d (QLearningRouter.max_steps cfg)
                    st t (QLearningRouter.start src) = Some (st, t)).
    { destruct (QLearningRouter.max_steps cfg); simpl; by rewrite decide_True. }
    rewrite Hep. simpl.
    destruct (IH (QLearningRouter.decay cfg st)) as (st' & -> & HQ & Hp & Hc).
    exists st'. split; [done|]. rewrite HQ, Hp, Hc.
    unfold QLearningRouter.decay. by destruct (_ <? _).
Qed.

(** *** The ants of a demand from a node to itself *)

Lemma aco_construct_at_destination (cfg : ACORouter.Config) ph src d t :
  ACORouter.construct_path rng cfg ph src src d t =
  Some (if decide (ACORouter.nodes cfg = []) then None else Some [src], t).
Proof.
  unfold ACORouter.construct_path.
  destruct (ACORouter.nodes cfg) as [|x xs]; simpl; [done|].
  by rewrite decide_True.
Qed.

Lemma aco_record_best_twice (st : ACORouter.State) c p :
  ACORouter.record_best (ACORouter.record_best st c p) c p = ACORouter.record_best st c p.
Proof.
  unfold ACORouter.record_best. destruct (c <? ACORouter.best_cost st) eqn:Hlt; simpl.
  - by rewrite ltb_irrefl.
  - by rewrite Hlt.
Qed.

(** Without nodes no ant leaves; otherwise every ant returns [[src]] at
    once. *)
Lemma aco_send_ants_at_destination (cfg : ACORouter.Config) src d ants st t all :
  ACORouter.send_ants rng cfg src src d ants st t all =
  Some (if decide (ACORouter.nodes cfg = []) then (st, t, all)
        else (match ants with
              | O => st
              | S _ => ACORouter.record_best st (ACORouter.calculate_path_cost cfg [src]) [src]
              end,
              t,
              all ++ replicate ants ([src], ACORouter.calculate_path_cost cfg [src]))).
Proof.
  destruct (decide (ACORouter.nodes cfg = [])) as [Hno|Hsome].
  - revert st all. induction ants as [|ants IH]; intros st all; simpl; [done|].
    rewrite aco_construct_at_destination. rewrite decide_True by done. apply IH.
  - revert st all. induction ants as [|ants IH]; intros st all; simpl.
    + by rewrite app_nil_r.
    + rewrite aco_construct_at_destination. rewrite decide_False by done. simpl.
      rewrite IH. f_equal. f_equal; [f_equal|].
      * destruct ants; [done|]. apply aco_record_best_twice.
      * by rewrite <- app_assoc.
Qed.

(** The pheromone update after such ants: [k] deposits of nothing, each
    with the division [q / (cost + 0.0001)]. *)
Lemma aco_update_at_destination (cfg : ACORouter.Config) ph src c k :
  ACORouter.update_pheromones cfg ph (replicate k ([src], c)) =
  if decide (k = O) then Some (ACORouter.evaporate cfg <$> ph)
  else if c + 0.0001 =? 0 then None else Some (ACORouter.evaporate cfg <$> ph).
Proof.
  unfold ACORouter.update_pheromones.
  generalize (ACORouter.evaporate cfg <$> ph) as ph0. intros ph0.
  assert (Hdep : ∀ ph', ACORouter.deposit_path cfg ph' ([src], c) =
                        if c + 0.0001 =? 0 then None else Some ph').
  { intros ph'. unfold ACORouter.deposit_path, PyFloat.div. simpl.
    by destruct (c + 0.0001 =? 0). }
  assert (Hnone : ∀ n, fold_left (λ acc pc, ph' ← acc; ACORouter.deposit_path cfg ph' pc)
                         (replicate n ([src], c)) None = None).
  { induction n as [|n IHn]; [done|]. simpl. apply IHn. }
  destruct k as [|k]; [done|]. rewrite decide_False by done. simpl. rewrite Hdep.
  destruct (c + 0.0001 =? 0) eqn:Hz; [apply Hnone|].
  induction k as [|k IHk]; [done|]. simpl. by rewrite Hdep.
Qed.

(** The iterations of such a demand: nothing happens without nodes or
    ants; otherwise the first pheromone update raises when the cost of
    [[src]] makes [cost + 0.0001] zero, and else [[src]] is recorded,
    provided its cost is below the retained one. *)
Lemma aco_iterate_at_destination (cfg : ACORouter.Config) src d n st t :
  let c := ACORouter.calculate_path_cost cfg [src] in
  if decide (ACORouter.nodes cfg = [] ∨ ACORouter.ant_count cfg = O ∨ n = O) then
    ∃ st', ACORouter.iterate rng cfg src src d n st t = Some (st', t) ∧
           ACORouter.best_path st' = ACORouter.best_path st ∧
           ACORouter.best_cost st' = ACORouter.best_cost st
  else if c + 0.0001 =? 0 then ACORouter.iterate rng cfg src src d n st t = None
  else
    ∃ st', ACORouter.iterate rng cfg src src d n st t = Some (st', t) ∧
           ACORouter.best_path st' = ACORouter.best_path (ACORouter.record_best st c [src]) ∧
           ACORouter.best_cost st' = ACORouter.best_cost (ACORouter.record_best st c [src]).
Proof.
  intros c.
  destruct (decide (ACORouter.nodes cfg = [])) as [Hno|Hnodes].
  { rewrite decide_True by (by left). revert st.
    induction n as [|n IH]; intros st; simpl; [by exists st|].
    rewrite aco_send_ants_at_destination. rewrite decide_True by done. simpl.
    match goal with |- context [ACORouter.iterate _ _ _ _ _ _ ?s _] =>
      destruct (IH s) as (st' & -> & Hp & Hc) end.
    by exists st'. }
  destruct (ACORouter.ant_count cfg) as [|ants] eqn:Hants.
  { rewrite decide_True by (right; by left). revert st.
    induction n as [|n IH]; intros st; simpl; [by exists st|].
    rewrite aco_send_ants_at_destination, Hants. rewrite decide_False by done. simpl.
    match goal with |- context [ACORouter.iterate _ _ _ _ _ _ ?s _] =>
      destruct (IH s) as (st' & -> & Hp & Hc) end.
    by exists st'. }
  destruct n as [|n].
  { rewrite decide_True by (right; by right). by exists st. }
  rewrite decide_False by (intros [?|[?|?]]; done).
  assert (Hstep : ∀ st0,
    ACORouter.send_ants rng cfg src src d (ACORouter.ant_count cfg) st0 t [] ≫=
      (λ '(st1, t1, all_paths),
         ph' ← ACORouter.update_pheromones cfg (ACORouter.pheromones st1) all_paths;
         Some ({| ACORouter.best_path := ACORouter.best_path st1;
                  ACORouter.best_cost := ACORouter.best_cost st1;
                  ACORouter.pheromones := ph' |}, t1)) =
    if c + 0.0001 =? 0 then None
    else Some ({| ACORouter.best_path := ACORouter.best_path (ACORouter.record_best st0 c [src]);
                  ACORouter.best_cost := ACORouter.best_cost (ACORouter.record_best st0 c [src]);
                  ACORouter.pheromones :=
                    ACORouter.evaporate cfg <$> ACORouter.pheromones
                                                  (ACORouter.record_best st0 c [src]) |}, t)).
  { intros st0. rewrite aco_send_ants_at_destination, Hants.
    rewrite decide_False by done. rewrite app_nil_l. cbn [mbind option_bind].
    rewrite aco_update_at_destination. rewrite decide_False by done.
    fold c. by destruct (c + 0.0001 =? 0). }
  destruct (c + 0.0001 =? 0) eqn:Hz.
  - simpl. specialize (Hstep st).
    destruct (ACORouter.send_ants _ _ _ _ _ _ _ _ _) as [[[st1 t1] all]|]; simpl in *; [|done].
    by destruct (ACORouter.update_pheromones _ _ _).
  - assert (Hall : ∀ m st0,
      ACORouter.best_path st0 = ACORouter.best_path (ACORouter.record_best st c [src]) →
      ACORouter.best_cost st0 = ACORouter.best_cost (ACORouter.record_best st c [src]) →
      ∃ st', ACORouter.iterate rng cfg src src d m st0 t = Some (st', t) ∧
             ACORouter.best_path st' = ACORouter.best_path (ACORouter.record_best st c [src]) ∧
             ACORouter.best_cost st' = ACORouter.best_cost (ACORouter.record_best st c [src])).
    { induction m as [|m IHm]; intros st0 Hp0 Hc0; simpl; [by exists st0|].
      specialize (Hstep st0).
      destruct (ACORouter.send_ants _ _ _ _ _ _ _ _ _) as [[[st1 t1] all]|];
        simpl in *; [|done].
      destruct (ACORouter.update_pheromones _ _ _) as [ph'|]; simpl in *; [|done].
      injection Hstep as Hp1 Hc1 Hph1 ->.
      apply IHm; simpl.
      - rewrite Hp1. unfold ACORouter.record_best. rewrite Hc0.
        destruct (c <? ACORouter.best_cost (ACORouter.record_best st c [src])) eqn:Hlt;
          simpl; [|done].
        unfold ACORouter.record_best in Hlt.
        destruct (c <? ACORouter.best_cost st) eqn:Hlt0; simpl in Hlt.
        + by rewrite ltb_irrefl in Hlt.
        + congruence.
      - rewrite Hc1. unfold ACORouter.record_best. rewrite Hc0.
        destruct (c <? ACORouter.best_cost (ACORouter.record_best st c [src])) eqn:Hlt;
          simpl; [|done].
        unfold ACORouter.record_best in Hlt.
        destruct (c <? ACORouter.best_cost st) eqn:Hlt0; simpl in Hlt.
        + by rewrite ltb_irrefl in Hlt.
        + congruence. }
    simpl. specialize (Hstep st).
    destruct (ACORouter.send_ants _ _ _ _ _ _ _ _ _) as [[[st1 t1] all]|];
      simpl in *; [|done].
    destruct (ACORouter.update_pheromones _ _ _) as [ph'|]; simpl in *; [|done].
    injection Hstep as Hp1 Hc1 Hph1 ->.
    apply Hall; simpl; done.
Qed.

End Degenerate.

(** ** The bottleneck in the claims' words *)

Section BottleneckSpec.
Context (g : Graph).
Local Open Scope float_scope.

(** [b] is the minimum edge bandwidth over the consecutive pairs of the
    path, each read from the graph: it is the bandwidth of one hop
    [path[i], path[i+1]], and no hop has less. A hop without the attribute
    counts as [missing]. Nothing of the routers' code enters here. *)
Definition minimum_edge_bandwidth (missing : float) (p : list node) (b : float) : Prop :=
  (∃ i u v e, p !! i = Some u ∧ p !! S i = Some v ∧ Graph.edges g u v = Some e ∧
              b = default missing (bandwidth e)) ∧
  (∀ i u v e, p !! i = Some u → p !! S i = Some v → Graph.edges g u v = Some e →
              (b <=? default missing (bandwidth e)) = true).

Lemma pairs_lookup (p : list node) (i : nat) (u v : node) :
  pairs p !! i = Some (u, v) ↔ p !! i = Some u ∧ p !! S i = Some v.
Proof.
  revert i. induction p as [|x p IH]; intros i.
  { simpl. split; [done|]. by intros [? _]. }
  destruct p as [|y p].
  { simpl. split; [done|]. intros [_ Hy]. by destruct i. }
  change (pairs (x :: y :: p)) with ((x, y) :: pairs (y :: p)).
  destruct i as [|i]; simpl.
  - split; [by intros [= -> ->]|]. by intros [[= ->] [= ->]].
  - apply IH.
Qed.

Lemma edge_bandwidths_lookup (dflt : float) (p : list node) (bws : list float)
    (i : nat) (x : float) :
  Graph.edge_bandwidths g dflt p = Some bws →
  bws !! i = Some x ↔
  ∃ u v e, p !! i = Some u ∧ p !! S i = Some v ∧ Graph.edges g u v = Some e ∧
           x = default dflt (bandwidth e).
Proof.
  intros Hbws. unfold Graph.edge_bandwidths in Hbws. apply mapM_Some in Hbws. split.
  - intros Hx. destruct (Forall2_lookup_r _ _ _ _ _ Hbws Hx) as ([u v] & Huv & Hf).
    apply pairs_lookup in Huv as [Hu Hv]. simpl in Hf.
    destruct (Graph.edges g u v) as [e|] eqn:He; simpl in Hf; [|done].
    injection Hf as <-. by exists u, v, e.
  - intros (u & v & e & Hu & Hv & He & ->).
    assert (Huv : pairs p !! i = Some (u, v)) by (by apply pairs_lookup).
    destruct (Forall2_lookup_l _ _ _ _ _ Hbws Huv) as (y & Hy & Hf).
    simpl in Hf. rewrite He in Hf. simpl in Hf. by injection Hf as <-.
Qed.

(** The bottleneck the routers compute is that minimum. *)
Lemma bottleneck_minimum (dflt : float) (p : list node) (b : float) :
  (2 ≤ length p)%nat → PyFloat.is_number dflt → Graph.numeric_bandwidths g p →
  Graph.bottleneck g dflt p = Some b → minimum_edge_bandwidth dflt p b.
Proof.
  intros Hlen Hd Hnum Hb. unfold Graph.bottleneck in Hb.
  destruct (Graph.edge_bandwidths g dflt p) as [bws|] eqn:Hbws; simpl in Hb; [|done].
  injection Hb as <-.
  pose proof (edge_bandwidths_numeric g dflt p bws Hd Hnum Hbws) as Hnums.
  pose proof (edge_bandwidths_length g dflt p bws Hbws) as Hl.
  assert (Hin : fold_left PyFloat.min2 bws infinity ∈ bws).
  { destruct (fold_min2_cases bws infinity) as [Heq|Hin]; [|done].
    destruct bws as [|x0 bws]; [simpl in Hl; lia|].
    assert (Hx0 : x0 ∈ x0 :: bws) by apply list_elem_of_here.
    pose proof (fold_min2_leb_elem (x0 :: bws) infinity x0 is_number_infinity
                  (proj1 (Forall_forall _ _) Hnums x0 Hx0) Hx0) as Hle.
    rewrite Heq in Hle. apply infinity_leb in Hle. rewrite Heq, <- Hle. done. }
  split.
  - apply list_elem_of_lookup in Hin as [i Hi].
    apply (edge_bandwidths_lookup dflt p bws i _ Hbws) in Hi
      as (u & v & e & Hu & Hv & He & Hx).
    by exists i, u, v, e.
  - intros i u v e Hu Hv He.
    assert (Hx : bws !! i = Some (default dflt (bandwidth e))).
    { apply (edge_bandwidths_lookup dflt p bws i _ Hbws). by exists u, v, e. }
    assert (Hxin : default dflt (bandwidth e) ∈ bws) by (apply list_elem_of_lookup; eauto).
    apply fold_min2_leb_elem; [apply is_number_infinity| |done].
    by apply (proj1 (Forall_forall _ _) Hnums).
Qed.

(** Two minima are below each other. *)
Lemma minimum_edge_bandwidth_leb (missing : float) (p : list node) (b b' : float) :
  minimum_edge_bandwidth missing p b → minimum_edge_bandwidth missing p b' →
  (b <=? b') = true.
Proof.
  intros [_ Hlow] [(i & u & v & e & Hu & Hv & He & Hb') _]. rewrite Hb'.
  exact (Hlow i u v e Hu Hv He).
Qed.

End BottleneckSpec.

(** * The claims *)

Section Claims.

(** C1. [QLearningRouter.train] does not clear [best_path] and
    [best_cost] when it starts, as [ACORouter.train] and [run_multiple] do,
    so an instance that is trained again returns the path it retained for
    the earlier demand: trained on the link 0-1 (bandwidth 10) for a demand
    of 5 and then for a demand of 20, [get_best_path] still returns
    [[0; 1]], whose bottleneck is 10 and below the demand. *)
Lemma retrained_best_path_infeasible :
  let cfg := Scenario.qlearning_cfg Scenario.link Scenario.delay_only 1 in
  let st0 := Scenario.qlearning_init Scenario.link 1 in
  ∃ st1 t1 st2 t2,
    Scenario.qlearning Scenario.link Scenario.delay_only 1 1 = Some (cfg, st0) ∧
    QLearningRouter.train (H := Scenario.delay_metrics) Scenario.draws cfg 0 1 5 st0 0
      = Some (st1, t1) ∧
    QLearningRouter.train (H := Scenario.delay_metrics) Scenario.draws cfg 0 1 20 st1 t1
      = Some (st2, t2) ∧
    QLearningRouter.get_best_path st2 = Some [0; 1] ∧
    Graph.bottleneck Scenario.link 0 [0; 1] = Some 10%float ∧
    ¬ Graph.feasible Scenario.link 0 20 [0; 1].
Proof.
  intros cfg st0.
  pose (r1 := Scenario.after st0
    (QLearningRouter.train (H := Scenario.delay_metrics) Scenario.draws cfg 0 1 5 st0 0)).
  pose (r2 := Scenario.after r1.1
    (QLearningRouter.train (H := Scenario.delay_metrics) Scenario.draws cfg 0 1 20 r1.1 r1.2)).
  exists r1.1, r1.2, r2.1, r2.2.
  split; [reflexivity|]. split; [vm_compute; reflexivity|].
  split; [vm_compute; reflexivity|]. split; [vm_compute; reflexivity|].
  split; [reflexivity|].
  intros (b & Hb & Hle). injection Hb as <-. vm_compute in Hle. discriminate Hle.
Qed.

(** C10. [QLearningRouter.train] keeps the retained best path and cost
    unless it records a strictly cheaper feasible path: when the retained
    cost has not gone down, [get_best_path] still returns the path retained
    before the call. [ACORouter.train] starts from a cleared best, so its
    outcome does not depend on the best the instance retained. *)
Theorem train_keeps_retained_best `{!Metrics} `{!FloatPow} (rng : Rng)
    (qcfg : QLearningRouter.Config) (acfg : ACORouter.Config)
    (src dst : node) (d : float)
    (qst qst' : QLearningRouter.State) (t t' : nat)
    (ast1 ast2 : ACORouter.State) (u : nat) :
  QLearningRouter.train rng qcfg src dst d qst t = Some (qst', t') →
  (QLearningRouter.best_cost qst' <? QLearningRouter.best_cost qst)%float = false →
  ACORouter.pheromones ast1 = ACORouter.pheromones ast2 →
  (QLearningRouter.get_best_path qst' = QLearningRouter.get_best_path qst ∧
   QLearningRouter.best_cost qst' = QLearningRouter.best_cost qst) ∧
  ACORouter.train rng acfg src dst d ast1 u = ACORouter.train rng acfg src dst d ast2 u.
Proof.
  intros Hq Hnlt Hph. split.
  - apply train_advances in Hq as [Hsame|[Hlt _]]; [done|congruence].
  - unfold ACORouter.train. by rewrite Hph.
Qed.

Lemma train_keeps_retained_best_witness :
  let cfg := Scenario.qlearning_cfg Scenario.link Scenario.delay_only 1 in
  let st0 := Scenario.qlearning_init Scenario.link 1 in
  let st1 := (Scenario.after st0
    (QLearningRouter.train (H := Scenario.delay_metrics) Scenario.draws cfg 0 1 5 st0 0)).1 in
  let st2 := (Scenario.after st1
    (QLearningRouter.train (H := Scenario.delay_metrics) Scenario.draws cfg 0 1 20 st1 2)).1 in
  QLearningRouter.get_best_path st1 = Some [0; 1] ∧
  QLearningRouter.get_best_path st2 = QLearningRouter.get_best_path st1.
Proof.
  intros cfg st0 st1 st2. split; [vm_compute; reflexivity|].
  pose (ac := Scenario.aco Scenario.link Scenario.delay_only 1 1).
  refine (proj1 (proj1 (train_keeps_retained_best (H := Scenario.delay_metrics)
    (H0 := Scenario.pow12) Scenario.draws cfg ac.1 0 1 20%float st1 st2 2
    (Scenario.after st1
      (QLearningRouter.train (H := Scenario.delay_metrics) Scenario.draws cfg 0 1 20 st1 2)).2
    ac.2
    {| ACORouter.best_path := Some [0; 1]; ACORouter.best_cost := 1%float;
       ACORouter.pheromones := ACORouter.pheromones ac.2 |} 0 _ _ _))).
  - vm_compute. reflexivity.
  - vm_compute. reflexivity.
  - reflexivity.
Defined.

(** C4. Every path [get_best_path] returns on a router instance, whatever
    [train] and [run_multiple] calls it has been through, and every path an
    ACORouter returns after [train], is simple (no node twice) and each of
    its consecutive pairs is an edge of the network. *)
Theorem best_path_simple_walk `{!Metrics} `{!FloatPow} (rng : Rng)
    (qcfg : QLearningRouter.Config) (acfg : ACORouter.Config)
    (qst : QLearningRouter.State)
    (src dst : node) (d : float) (ast ast' : ACORouter.State) (u u' : nat) :
  reachable rng qcfg qst →
  ACORouter.train rng acfg src dst d ast u = Some (ast', u') →
  (∀ p, QLearningRouter.get_best_path qst = Some p →
        Graph.simple_walk (QLearningRouter.graph qcfg) p) ∧
  (∀ p, ACORouter.get_best_path ast' = Some p →
        Graph.simple_walk (ACORouter.graph acfg) p).
Proof.
  intros Hr Ha. split; intros p Hp.
  - by eapply reachable_simple_walk.
  - apply train_best_ok in Ha. by apply Ha.
Qed.

Lemma best_path_simple_walk_witness :
  Graph.simple_walk Scenario.ring [0; 3; 2] ∧ Graph.simple_walk Scenario.ring [0; 1; 2].
Proof.
  pose (qcfg := Scenario.qlearning_cfg Scenario.ring Scenario.delay_only 3).
  pose (qst := Scenario.qlearning_init Scenario.ring 1).
  pose (qr := Scenario.after qst
    (QLearningRouter.train (H := Scenario.delay_metrics) Scenario.draws qcfg 0 2 5 qst 0)).
  pose (ac := Scenario.aco Scenario.ring Scenario.delay_only 2 2).
  pose (ar := Scenario.after ac.2
    (ACORouter.train (H := Scenario.delay_metrics) (H0 := Scenario.pow12)
       Scenario.draws ac.1 0 2 5 ac.2 0)).
  destruct (best_path_simple_walk (H := Scenario.delay_metrics) (H0 := Scenario.pow12)
              Scenario.draws qcfg ac.1 qr.1 0 2 5%float ac.2 ar.1 0 ar.2) as [HQ HA].
  - apply (reach_train (H := Scenario.delay_metrics) Scenario.draws qcfg 0 2 5%float qst 0 qr.1 qr.2).
    + apply (reach_new (H := Scenario.delay_metrics) Scenario.draws qcfg Scenario.delay_only
               0.15%float 0.92%float 1%float 0.01%float 0.99%float 3 100 (-2.0)%float 0.5%float qst).
      reflexivity.
    + vm_compute. reflexivity.
  - vm_compute. reflexivity.
  - split; [apply HQ|apply HA]; vm_compute; reflexivity.
Defined.

(** The verdict of [get_path_metrics] against the bottleneck as the routers
    compute it. *)
Lemma get_path_metrics_verdict `{!Metrics}
    (qcfg : QLearningRouter.Config) (acfg : ACORouter.Config)
    (g : Graph) (p : list node) (d : float) :
  QLearningRouter.graph qcfg = g → ACORouter.graph acfg = g →
  2 ≤ length p →
  Graph.is_walk g p → Graph.on_nodes g p → Graph.numeric_bandwidths g p →
  PyFloat.is_number d →
  (∃ m b,
      QLearningRouter.get_path_metrics qcfg (Some p) d = Some m ∧
      Graph.bottleneck g infinity p = Some b ∧
      (valid m = true ↔ (d <=? b)%float = true) ∧
      ((b <? d)%float = true → m = Invalid "Bant genişliği kısıtı sağlanmadı") ∧
      (∀ r, m = Valid r → m_bottleneck_bw r = b ∧ m_path r = p)) ∧
  (∃ m b,
      ACORouter.get_path_metrics acfg (Some p) d = Some m ∧
      Graph.bottleneck g 0 p = Some b ∧
      (valid m = true ↔ (d <=? b)%float = true) ∧
      ((b <? d)%float = true → m = Invalid "Bant genişliği yetersiz") ∧
      (∀ r, m = Valid r → m_bottleneck_bw r = b ∧ m_path r = p)).
Proof.
  intros Hgq Hga Hlen Hwalk Hnodes Hnum Hd.
  destruct (path_reliability_is_Some g p Hwalk Hnodes) as [rel Hrel].
  assert (Hverdict : ∀ b, PyFloat.is_number b →
            ((b <? d)%float = false ↔ (d <=? b)%float = true)).
  { intros b Hb. split; [by apply ltb_false_leb|apply leb_ltb_false]. }
  split.
  - destruct (is_walk_edge_bandwidths g infinity p Hwalk) as [bws Hbws].
    pose proof (edge_bandwidths_numeric g _ _ _ is_number_infinity Hnum Hbws) as Hnums.
    pose proof (edge_bandwidths_length g _ _ _ Hbws) as Hlb.
    destruct bws as [|b0 bws]; [simpl in Hlb; lia|].
    remember (fold_left PyFloat.min2 (b0 :: bws) infinity) as b eqn:Eb.
    assert (Hmin : PyFloat.min_of (b0 :: bws) = Some b).
    { destruct (PyFloat.min_of (b0 :: bws)) as [m|] eqn:Hm; [|done].
      by rewrite (min_of_fold _ _ Hnums Hm), Eb. }
    assert (Hb : PyFloat.is_number b).
    { rewrite Eb. apply fold_min2_is_number; [apply is_number_infinity|done]. }
    unfold QLearningRouter.get_path_metrics, Graph.bottleneck.
    rewrite decide_False by lia. rewrite Hgq, Hrel, Hbws.
    simpl in Hmin, Eb. injection Hmin as Hmin. simpl. rewrite Hmin, <- Eb.
    destruct (b <? d)%float eqn:Hlt; eexists _, b; (split; [done|]); (split; [done|]).
    + split; [|split; [done|by intros r ?]].
      simpl. split; [discriminate|]. intros Hle. apply (Hverdict b Hb) in Hle. congruence.
    + split; [|split; [congruence|by intros r [= <-]]].
      simpl. split; [intros _; by apply Hverdict|done].
  - destruct (is_walk_edge_bandwidths g 0%float p Hwalk) as [bws Hbws].
    assert (H0 : PyFloat.is_number 0%float) by reflexivity.
    pose proof (edge_bandwidths_numeric g _ _ _ H0 Hnum Hbws) as Hnums.
    remember (fold_left PyFloat.min2 bws infinity) as b eqn:Eb.
    assert (Hb : PyFloat.is_number b).
    { rewrite Eb. apply fold_min2_is_number; [apply is_number_infinity|done]. }
    unfold ACORouter.get_path_metrics, Graph.bottleneck.
    rewrite decide_False by lia. rewrite Hga, Hbws. simpl. rewrite <- Eb, Hrel. simpl.
    destruct (b <? d)%float eqn:Hlt; eexists _, b; (split; [done|]); (split; [done|]).
    + split; [|split; [done|by intros r ?]].
      simpl. split; [discriminate|]. intros Hle. apply (Hverdict b Hb) in Hle. congruence.
    + split; [|split; [congruence|by intros r [= <-]]].
      simpl. split; [intros _; by apply Hverdict|done].
Qed.

(** C2. On a path of at least two nodes whose consecutive pairs are edges,
    with numeric bandwidths and a numeric demand, [get_path_metrics] of
    either router returns a record, and the record is valid exactly when
    the bottleneck is at least [demand_bw], where the bottleneck is the
    minimum edge bandwidth over the consecutive pairs of the path, read
    from the graph ([minimum_edge_bandwidth], a hop without the attribute
    counting as [inf] for the Q-learning router and as 0 for the ant
    colony); a bottleneck below the demand gives [valid = False] with the
    router's bandwidth error, and a valid record reports that minimum as
    [bottleneck_bw]. Nothing is assumed about where the path comes from. *)
Theorem get_path_metrics_valid_iff `{!Metrics}
    (qcfg : QLearningRouter.Config) (acfg : ACORouter.Config)
    (g : Graph) (p : list node) (d : float) :
  QLearningRouter.graph qcfg = g → ACORouter.graph acfg = g →
  2 ≤ length p →
  Graph.is_walk g p → Graph.on_nodes g p → Graph.numeric_bandwidths g p →
  PyFloat.is_number d →
  (∃ m,
      QLearningRouter.get_path_metrics qcfg (Some p) d = Some m ∧
      (∃ b, minimum_edge_bandwidth g infinity p b ∧
            ∀ r, m = Valid r → m_bottleneck_bw r = b ∧ m_path r = p) ∧
      (∀ b, minimum_edge_bandwidth g infinity p b →
            (valid m = true ↔ (d <=? b)%float = true) ∧
            ((b <? d)%float = true → m = Invalid "Bant genişliği kısıtı sağlanmadı"))) ∧
  (∃ m,
      ACORouter.get_path_metrics acfg (Some p) d = Some m ∧
      (∃ b, minimum_edge_bandwidth g 0 p b ∧
            ∀ r, m = Valid r → m_bottleneck_bw r = b ∧ m_path r = p) ∧
      (∀ b, minimum_edge_bandwidth g 0 p b →
            (valid m = true ↔ (d <=? b)%float = true) ∧
            ((b <? d)%float = true → m = Invalid "Bant genişliği yetersiz"))).
Proof.
  intros Hgq Hga Hlen Hwalk Hnodes Hnum Hd.
  destruct (get_path_metrics_verdict qcfg acfg g p d Hgq Hga Hlen Hwalk Hnodes Hnum Hd)
    as [(mq & bq & Hmq & Hbq & Hvq & Heq & Hrq) (ma & ba & Hma & Hba & Hva & Hea & Hra)].
  assert (Hrefine : ∀ missing b0 m err,
    PyFloat.is_number missing →
    Graph.bottleneck g missing p = Some b0 →
    (valid m = true ↔ (d <=? b0)%float = true) →
    ((b0 <? d)%float = true → m = Invalid err) →
    (∀ r, m = Valid r → m_bottleneck_bw r = b0 ∧ m_path r = p) →
    (∃ b, minimum_edge_bandwidth g missing p b ∧
          ∀ r, m = Valid r → m_bottleneck_bw r = b ∧ m_path r = p) ∧
    (∀ b, minimum_edge_bandwidth g missing p b →
          (valid m = true ↔ (d <=? b)%float = true) ∧
          ((b <? d)%float = true → m = Invalid err))).
  { intros missing b0 m err Hmiss Hb0 Hv He Hr.
    pose proof (bottleneck_minimum g missing p b0 Hlen Hmiss Hnum Hb0) as Hmin0.
    split; [by exists b0|].
    intros b Hmin.
    pose proof (minimum_edge_bandwidth_leb g missing p b b0 Hmin Hmin0) as Hle.
    pose proof (minimum_edge_bandwidth_leb g missing p b0 b Hmin0 Hmin) as Hge.
    split.
    - rewrite Hv. split; intros Hdb; by eapply leb_trans.
    - intros Hlt. apply He. by eapply leb_ltb_trans. }
  split.
  - exists mq. split; [done|].
    by apply (Hrefine infinity bq mq _ is_number_infinity).
  - exists ma. split; [done|].
    by apply (Hrefine 0%float ba ma _ eq_refl).
Qed.

Lemma get_path_metrics_valid_iff_witness :
  minimum_edge_bandwidth Scenario.ring infinity [0; 1; 2] 10 ∧
  minimum_edge_bandwidth Scenario.ring 0 [0; 1; 2] 10 ∧
  valid <$> QLearningRouter.get_path_metrics (H := Scenario.delay_metrics)
              (Scenario.qlearning_cfg Scenario.ring Scenario.delay_only 3)
              (Some [0; 1; 2]) 20 = Some false ∧
  valid <$> ACORouter.get_path_metrics (H := Scenario.delay_metrics)
              (Scenario.aco Scenario.ring Scenario.delay_only 2 2).1
              (Some [0; 1; 2]) 20 = Some false.
Proof.
  assert (Hmin : ∀ missing, minimum_edge_bandwidth Scenario.ring missing [0; 1; 2] 10).
  { intros missing. split.
    - exists 0, 0, 1, (Scenario.edge 10). by repeat split.
    - intros i u v e Hu Hv He.
      destruct i as [|[|[|i]]]; simpl in Hu, Hv; simplify_eq;
        vm_compute in He; injection He as <-; reflexivity. }
  destruct (get_path_metrics_valid_iff (H := Scenario.delay_metrics)
              (Scenario.qlearning_cfg Scenario.ring Scenario.delay_only 3)
              (Scenario.aco Scenario.ring Scenario.delay_only 2 2).1
              Scenario.ring [0; 1; 2] 20%float)
    as [(mq & Hmq & _ & Hq) (ma & Hma & _ & Ha)].
  - reflexivity.
  - reflexivity.
  - simpl. lia.
  - repeat constructor; simpl; eauto.
  - repeat constructor; simpl; eauto.
  - repeat constructor; simpl; intros e b He Hb; vm_compute in He;
      injection He as <-; injection Hb as <-; reflexivity.
  - reflexivity.
  - split; [apply Hmin|]. split; [apply Hmin|].
    destruct (Hq 10%float (Hmin _)) as [_ Hqe].
    destruct (Ha 10%float (Hmin _)) as [_ Hae].
    rewrite Hqe in Hmq by (vm_compute; reflexivity).
    rewrite Hae in Hma by (vm_compute; reflexivity).
    split; [exact (f_equal (fmap valid) Hmq)|exact (f_equal (fmap valid) Hma)].
Defined.

(** C3 (as amended). For [src == dst] the [train] of both routers
    returns without looping. [ACORouter.train], with at least one
    iteration and one ant on a network that has nodes, retains the trivial
    single-node path [[src]] at its weighted cost, provided that cost is
    below [inf] and does not make [cost + 0.0001] zero (the claim's cost 0
    is such a cost), and draws no random number. [QLearningRouter.train]
    takes no step: it leaves the Q-table, the retained path and its cost
    as they were, so a newly built instance still returns [None].
    Neither router reports [[src]] as a valid answer: [get_path_metrics]
    rejects it with [valid = False] and its "no path" error, and so
    reports no cost, bottleneck or hop count for it. *)
Theorem degenerate_demand `{!Metrics} `{!FloatPow} (rng : Rng)
    (qcfg : QLearningRouter.Config) (acfg : ACORouter.Config)
    (src : node) (d : float)
    (qst : QLearningRouter.State) (ast : ACORouter.State) (t u : nat) :
  (0 < ACORouter.iterations acfg)%nat →
  (0 < ACORouter.ant_count acfg)%nat →
  ACORouter.nodes acfg ≠ [] →
  (ACORouter.calculate_path_cost acfg [src] <? infinity)%float = true →
  (ACORouter.calculate_path_cost acfg [src] + 0.0001 =? 0)%float = false →
  (∃ qst', QLearningRouter.train rng qcfg src src d qst t = Some (qst', t) ∧
           QLearningRouter.Q qst' = QLearningRouter.Q qst ∧
           QLearningRouter.get_best_path qst' = QLearningRouter.get_best_path qst ∧
           QLearningRouter.best_cost qst' = QLearningRouter.best_cost qst) ∧
  (∃ ast', ACORouter.train rng acfg src src d ast u = Some (ast', u) ∧
           ACORouter.get_best_path ast' = Some [src] ∧
           ACORouter.best_cost ast' = ACORouter.calculate_path_cost acfg [src]) ∧
  QLearningRouter.get_path_metrics qcfg (Some [src]) d
    = Some (Invalid "Geçerli bir yol bulunamadı") ∧
  ACORouter.get_path_metrics acfg (Some [src]) d = Some (Invalid "Yol bulunamadı").
Proof.
  intros Hit Hants Hnodes Hfin Hdiv.
  split; [|split; [|split; reflexivity]].
  - apply qlearning_train_at_destination.
  - unfold ACORouter.train.
    match goal with |- context [ACORouter.iterate _ _ _ _ _ _ ?s _] =>
      pose proof (aco_iterate_at_destination rng acfg src d (ACORouter.iterations acfg) s u)
        as Hiter end.
    simpl in Hiter.
    rewrite decide_False in Hiter by (intros [?|[?|?]]; [done|lia|lia]).
    rewrite Hdiv in Hiter. destruct Hiter as (ast' & Hrun & Hbp & Hbc).
    exists ast'. split; [exact Hrun|].
    unfold ACORouter.record_best in Hbp, Hbc. simpl in Hbp, Hbc.
    rewrite Hfin in Hbp, Hbc. by split.
Qed.

Lemma degenerate_demand_witness :
  let ac := Scenario.aco Scenario.ring Scenario.delay_only 2 2 in
  let st1 := (Scenario.after ac.2
    (ACORouter.train (H := Scenario.delay_metrics) (H0 := Scenario.pow12)
       Scenario.draws ac.1 0 0 5 ac.2 0)).1 in
  ACORouter.get_best_path st1 = Some [0] ∧
  ACORouter.get_path_metrics (H := Scenario.delay_metrics) ac.1 (Some [0]) 5
    = Some (Invalid "Yol bulunamadı").
Proof.
  intros ac st1.
  destruct (degenerate_demand (H := Scenario.delay_metrics) (H0 := Scenario.pow12)
              Scenario.draws (Scenario.qlearning_cfg Scenario.ring Scenario.delay_only 3)
              ac.1 0 5%float (Scenario.qlearning_init Scenario.ring 1) ac.2 0 0)
    as (_ & (ast' & Hrun & Hbp & _) & _ & Hinvalid).
  - simpl. lia.
  - simpl. lia.
  - discriminate.
  - vm_compute. reflexivity.
  - vm_compute. reflexivity.
  - split; [|exact Hinvalid].
    unfold st1. etrans; [|exact Hbp]. f_equal.
    change (Scenario.after ac.2 (ACORouter.train (H := Scenario.delay_metrics)
              (H0 := Scenario.pow12) Scenario.draws ac.1 0 0 5%float ac.2 0)).1
      with (default (ac.2, 0) (ACORouter.train (H := Scenario.delay_metrics)
              (H0 := Scenario.pow12) Scenario.draws ac.1 0 0 5%float ac.2 0)).1.
    by rewrite Hrun.
Defined.

(** C3, as stated, fails: a newly built QLearningRouter on the ring,
    trained for the demand 0 -> 0, returns [None] and not [[0]]; the
    ACORouter returns [[0]], but both routers report the path [[0]] as not
    valid, so there is no record with a cost, a bottleneck or a hop
    count. *)
Lemma degenerate_demand_returns_no_path :
  let cfg := Scenario.qlearning_cfg Scenario.ring Scenario.delay_only 3 in
  let st0 := Scenario.qlearning_init Scenario.ring 1 in
  let ac := Scenario.aco Scenario.ring Scenario.delay_only 2 2 in
  ∃ st' t' ast' u',
    Scenario.qlearning Scenario.ring Scenario.delay_only 1 3 = Some (cfg, st0) ∧
    QLearningRouter.train (H := Scenario.delay_metrics) Scenario.draws cfg 0 0 0 st0 0
      = Some (st', t') ∧
    QLearningRouter.get_best_path st' = None ∧
    QLearningRouter.get_best_path st' ≠ Some [0] ∧
    ACORouter.train (H := Scenario.delay_metrics) (H0 := Scenario.pow12)
      Scenario.draws ac.1 0 0 0 ac.2 0 = Some (ast', u') ∧
    ACORouter.get_best_path ast' = Some [0] ∧
    valid <$> QLearningRouter.get_path_metrics (H := Scenario.delay_metrics) cfg (Some [0]) 0
      = Some false ∧
    valid <$> ACORouter.get_path_metrics (H := Scenario.delay_metrics) ac.1 (Some [0]) 0
      = Some false.
Proof.
  intros cfg st0 ac.
  pose (r := Scenario.after st0
    (QLearningRouter.train (H := Scenario.delay_metrics) Scenario.draws cfg 0 0 0 st0 0)).
  pose (ar := Scenario.after ac.2
    (ACORouter.train (H := Scenario.delay_metrics) (H0 := Scenario.pow12)
       Scenario.draws ac.1 0 0 0 ac.2 0)).
  exists r.1, r.2, ar.1, ar.2.
  split; [reflexivity|]. split; [vm_compute; reflexivity|].
  split; [vm_compute; reflexivity|]. split; [vm_compute; discriminate|].
  split; [vm_compute; reflexivity|]. split; [vm_compute; reflexivity|].
  split; reflexivity.
Qed.

(** C6 (as amended). With evaporation 0.5 and every pheromone at 1.0, one
    iteration in which exactly one ant deposits, along a simple path of cost
    [cost], leaves [1.0 * 0.5 + q / (cost + 0.0001)] on every directed edge
    of the table the ant passed in one direction or the other, and
    [max(1.0 * 0.5, 0.01)] on every other one. The ant deposits unless
    [cost + 0.0001] is zero, where the division raises. *)
Theorem update_pheromones_single_ant (cfg : ACORouter.Config)
    (ph : gmap (node * node) float) (path : list node) (cost : float) (u v : node) :
  ACORouter.evaporation cfg = 0.5%float →
  (∀ k x, ph !! k = Some x → x = 1.0%float) →
  NoDup path →
  is_Some (ph !! (u, v)) →
  (cost + 0.0001 =? 0)%float = false →
  ∃ ph', ACORouter.update_pheromones cfg ph [(path, cost)] = Some ph' ∧
    ph' !! (u, v) =
      Some (if decide ((u, v) ∈ pairs path ∨ (v, u) ∈ pairs path)
            then 1.0 * 0.5 + ACORouter.q cfg / (cost + 0.0001)
            else PyFloat.max2 (1.0 * 0.5) 0.01)%float.
Proof.
  intros Hev Hone Hnd [x Hx] Hdiv.
  destruct (update_pheromones_returns cfg ph path cost Hdiv) as [ph' Hph'].
  exists ph'. split; [done|].
  rewrite (update_pheromones_lookup cfg ph path cost ph' (u, v) Hnd Hph').
  rewrite Hx. apply Hone in Hx as ->. unfold touches, ACORouter.evaporate. simpl.
  rewrite Hev. by destruct (decide _).
Qed.

Lemma update_pheromones_single_ant_witness :
  let cfg := (Scenario.aco Scenario.line Scenario.delay_only 1 1).1 in
  let ph := ACORouter.initialize_pheromones Scenario.line ∅ in
  (ACORouter.update_pheromones cfg ph [([0; 1], 1%float)] ≫= (.!! (1, 0))) =
    Some (1.0 * 0.5 + 100 / (1 + 0.0001))%float ∧
  (ACORouter.update_pheromones cfg ph [([0; 1], 1%float)] ≫= (.!! (1, 2))) = Some 0.5%float.
Proof.
  intros cfg ph.
  assert (Hone : ∀ k x, ph !! k = Some x → x = 1.0%float)
    by apply initialize_pheromones_uniform.
  assert (Hnd : NoDup [0; 1]).
  { apply NoDup_cons. split; [|apply NoDup_singleton]. by intros [=]%list_elem_of_singleton. }
  split.
  - destruct (update_pheromones_single_ant cfg ph [0; 1] 1%float 1 0 eq_refl Hone Hnd)
      as (ph' & Hph' & Hlook).
    + vm_compute. eauto.
    + vm_compute. reflexivity.
    + etrans; [exact (f_equal (λ o, o ≫= (.!! (1, 0))) Hph')|]. simpl.
      etrans; [exact Hlook|]. vm_compute. reflexivity.
  - destruct (update_pheromones_single_ant cfg ph [0; 1] 1%float 1 2 eq_refl Hone Hnd)
      as (ph' & Hph' & Hlook).
    + vm_compute. eauto.
    + vm_compute. reflexivity.
    + etrans; [exact (f_equal (λ o, o ≫= (.!! (1, 2))) Hph')|]. simpl.
      etrans; [exact Hlook|]. vm_compute. reflexivity.
Defined.

(** C6, as stated, fails on the line 0-1-2 with [q = 100] and an ant that
    went [0 -> 1] at cost 1: the edge [(0, 1)] it used ends below
    [1.0 * 0.5 + q / cost], and the edge [(1, 0)], which it did not use,
    ends above [max(1.0 * 0.5, 0.01)]. *)
Lemma update_pheromones_not_q_over_cost :
  let cfg := (Scenario.aco Scenario.line Scenario.delay_only 1 1).1 in
  let ph := ACORouter.initialize_pheromones Scenario.line ∅ in
  let cost := ACORouter.calculate_path_cost (H := Scenario.delay_metrics) cfg [0; 1] in
  ∃ ph' x y,
    ph !! (0, 1) = Some 1.0%float ∧ ph !! (1, 0) = Some 1.0%float ∧ cost = 1%float ∧
    ACORouter.update_pheromones cfg ph [([0; 1], cost)] = Some ph' ∧
    ph' !! (0, 1) = Some x ∧
    (x <? 1.0 * 0.5 + ACORouter.q cfg / cost)%float = true ∧
    ((1, 0) ∉ pairs [0; 1]) ∧
    ph' !! (1, 0) = Some y ∧
    (PyFloat.max2 (1.0 * 0.5) 0.01 <? y)%float = true.
Proof.
  intros cfg ph cost.
  exists (default ∅ (ACORouter.update_pheromones cfg ph [([0; 1], cost)])),
         (0.5 + 100 / (1 + 0.0001))%float, (0.5 + 100 / (1 + 0.0001))%float.
  split; [vm_compute; reflexivity|]. split; [vm_compute; reflexivity|].
  split; [vm_compute; reflexivity|]. split; [vm_compute; reflexivity|].
  split; [vm_compute; reflexivity|]. split; [vm_compute; reflexivity|].
  split; [|split; vm_compute; reflexivity].
  simpl. by intros [[= ? ?]|?%elem_of_nil]%elem_of_cons.
Qed.

(** C7 (as amended). Every step of [train] moves the value of the taken
    (state, action) pair by the temporal-difference rule
    [Q[s][a] + alpha * (reward + gamma * max(Q[next_state].values()) - Q[s][a])]
    and changes no other entry. The reward is the step penalty plus the
    progress bonus, unless the step reaches [dst]: then it is 2000 divided
    by the path's weighted cost floored at 1e-6, [max(cost, 1e-6)], when the
    running bottleneck is at least [demand_bw], and -1 otherwise. *)
Theorem step_temporal_difference `{!Metrics} (rng : Rng) (cfg : QLearningRouter.Config)
    (dst : node) (d : float) (st st' : QLearningRouter.State) (t t' : nat)
    (w w' : QLearningRouter.Walk) :
  QLearningRouter.step rng cfg dst d st t w = Some (Some (st', t', w')) →
  let s := QLearningRouter.state w in
  let a := QLearningRouter.state w' in
  ∃ old next_values,
    dict_get s (QLearningRouter.Q st) ≫= dict_get a = Some old ∧
    dict_get a (QLearningRouter.Q st) = Some next_values ∧
    let future_q := PyFloat.max_default 0 (map snd next_values) in
    let reward :=
      (if decide (a = dst) then
         if d <=? QLearningRouter.min_bw_on_path w'
         then 2000 / PyFloat.max2 (QLearningRouter.path_cost cfg (QLearningRouter.path w')) 1e-6
         else -1
       else QLearningRouter.step_penalty cfg + QLearningRouter.progress_bonus cfg)%float in
    dict_get s (QLearningRouter.Q st') ≫= dict_get a =
      Some (old + QLearningRouter.alpha cfg *
                  (reward + QLearningRouter.gamma cfg * future_q - old))%float ∧
    ∀ s' a', (s', a') ≠ (s, a) →
      dict_get s' (QLearningRouter.Q st') ≫= dict_get a' =
      dict_get s' (QLearningRouter.Q st) ≫= dict_get a'.
Proof.
  unfold QLearningRouter.step.
  destruct (dict_get (QLearningRouter.state w) (QLearningRouter.Q st)) as [qs|] eqn:Hqs;
    simpl; [|done].
  destruct (QLearningRouter.actions_of qs _) as [|a0 acts]; [done|].
  destruct (QLearningRouter.select_action _ _ _ _) as [[action t1]|]; simpl; [|done].
  destruct (Graph.edges _ _ _) as [e|]; simpl; [|done].
  destruct (QLearningRouter.reward_of _ _ _ _ _ _ _) as [reward st1] eqn:Hrew.
  assert (HQ : QLearningRouter.Q st1 = QLearningRouter.Q st).
  { revert Hrew. unfold QLearningRouter.reward_of, QLearningRouter.record_best.
    repeat case_match; by intros [= <- <-]. }
  rewrite HQ.
  destruct (dict_get action (QLearningRouter.Q st)) as [qn|] eqn:Hqn; simpl; [|done].
  unfold QLearningRouter.update_Q. rewrite Hqs. simpl.
  destruct (dict_get action qs) as [old|] eqn:Hold; simpl; [|done].
  intros [= <- <- <-]. simpl. exists old, qn.
  split; [done|]. split; [done|]. split.
  - rewrite dict_get_set_eq. simpl. rewrite dict_get_set_eq. do 3 f_equal.
    revert Hrew. unfold QLearningRouter.reward_of.
    repeat case_match; by intros [= <- _].
  - intros s' a' Hne. destruct (decide (s' = QLearningRouter.state w)) as [->|Hs].
    + rewrite dict_get_set_eq, Hqs. simpl. apply dict_get_set_ne. congruence.
    + by rewrite dict_get_set_ne.
Qed.

Lemma step_temporal_difference_witness :
  let cfg := Scenario.qlearning_cfg Scenario.ring Scenario.delay_only 3 in
  let st0 := Scenario.qlearning_init Scenario.ring 1 in
  ∃ st' t' w',
    QLearningRouter.step (H := Scenario.delay_metrics) Scenario.draws cfg 2 5 st0 0
      (QLearningRouter.start 0) = Some (Some (st', t', w')) ∧
    QLearningRouter.state w' = 3 ∧
    dict_get 0 (QLearningRouter.Q st') ≫= dict_get 3 =
      Some (0 + 0.15 * ((-2.0 + 0.5) + 0.92 * 0 - 0))%float.
Proof.
  intros cfg st0.
  pose (r := default (st0, 0, QLearningRouter.start 0)
    (mjoin (QLearningRouter.step (H := Scenario.delay_metrics) Scenario.draws cfg 2 5 st0 0
              (QLearningRouter.start 0)))).
  assert (Hstep : QLearningRouter.step (H := Scenario.delay_metrics) Scenario.draws cfg 2 5
                    st0 0 (QLearningRouter.start 0) = Some (Some (r.1.1, r.1.2, r.2)))
    by (vm_compute; reflexivity).
  exists r.1.1, r.1.2, r.2. split; [exact Hstep|]. split; [vm_compute; reflexivity|].
  destruct (step_temporal_difference (H := Scenario.delay_metrics) Scenario.draws cfg 2
              5%float st0 r.1.1 0 r.1.2 (QLearningRouter.start 0) r.2 Hstep)
    as (old & nv & Hold & Hnv & Hnew & _).
  vm_compute in Hold. injection Hold as <-.
  vm_compute in Hnv. injection Hnv as <-.
  etrans; [exact Hnew|]. vm_compute. reflexivity.
Defined.

(** C7, as stated, fails when the weighted cost is below 1e-6: with every
    weight 0 the step 0 -> 1 on the link reaches [dst] at cost 0, and the
    value it learns comes from the reward [2000 / 1e-6], not
    [2000 / cost]. *)
Lemma terminal_reward_uses_floored_cost :
  let cfg := Scenario.qlearning_cfg Scenario.link Scenario.no_weights 1 in
  let st0 := Scenario.qlearning_init Scenario.link 1 in
  let cost := QLearningRouter.path_cost (H := Scenario.delay_metrics) cfg [0; 1] in
  ∃ st' t' w' x,
    QLearningRouter.step (H := Scenario.delay_metrics) Scenario.draws cfg 1 5 st0 0
      (QLearningRouter.start 0) = Some (Some (st', t', w')) ∧
    QLearningRouter.state w' = 1 ∧ QLearningRouter.path w' = [0; 1] ∧
    (5 <=? QLearningRouter.min_bw_on_path w')%float = true ∧
    cost = 0%float ∧
    dict_get 0 (QLearningRouter.Q st') ≫= dict_get 1 = Some x ∧
    x = (0 + 0.15 * (2000 / 1e-6 + 0.92 * 0 - 0))%float ∧
    (x <? 0 + 0.15 * (2000 / cost + 0.92 * 0 - 0))%float = true.
Proof.
  intros cfg st0 cost.
  pose (r := default (st0, 0, QLearningRouter.start 0)
    (mjoin (QLearningRouter.step (H := Scenario.delay_metrics) Scenario.draws cfg 1 5 st0 0
              (QLearningRouter.start 0)))).
  exists r.1.1, r.1.2, r.2, (0 + 0.15 * (2000 / 1e-6 + 0.92 * 0 - 0))%float.
  repeat (split; [vm_compute; reflexivity|]). vm_compute. reflexivity.
Qed.

(** C8 (as amended). [ACORouter.train] never re-initialises the pheromone
    table: a call starts from the pheromones the previous call left. Two
    successive calls for one demand leave the pheromones (and draw the
    random numbers) of a single run of twice the iterations; the table is
    uniform only as [__init__] builds it. *)
Theorem train_continues_pheromones `{!Metrics} `{!FloatPow} (rng : Rng)
    (cfg : ACORouter.Config) (src dst : node) (d : float)
    (st st1 st2 : ACORouter.State) (t t1 t2 : nat) :
  ACORouter.train rng cfg src dst d st t = Some (st1, t1) →
  ACORouter.train rng cfg src dst d st1 t1 = Some (st2, t2) →
  ∃ st',
    ACORouter.iterate rng cfg src dst d (ACORouter.iterations cfg + ACORouter.iterations cfg)
      {| ACORouter.best_path := None; ACORouter.best_cost := infinity;
         ACORouter.pheromones := ACORouter.pheromones st |} t = Some (st', t2) ∧
    ACORouter.pheromones st' = ACORouter.pheromones st2.
Proof.
  unfold ACORouter.train. intros H1 H2. rewrite iterate_add, H1. simpl.
  apply iterate_pheromones_only with (sa := st1) in H2 as (st' & Hit & Hph); [|reflexivity].
  exists st'. split; [exact Hit|exact Hph].
Qed.

Lemma train_continues_pheromones_witness :
  let ac := Scenario.aco Scenario.link Scenario.delay_only 1 1 in
  let st1 := (Scenario.after ac.2
    (ACORouter.train (H := Scenario.delay_metrics) (H0 := Scenario.pow12)
       Scenario.draws ac.1 0 1 5 ac.2 0)).1 in
  let st2 := (Scenario.after st1
    (ACORouter.train (H := Scenario.delay_metrics) (H0 := Scenario.pow12)
       Scenario.draws ac.1 0 1 5 st1 1)).1 in
  ∃ st',
    ACORouter.iterate (H := Scenario.delay_metrics) (H0 := Scenario.pow12)
      Scenario.draws ac.1 0 1 5 2 ac.2 0 = Some (st', 2) ∧
    ACORouter.pheromones st' = ACORouter.pheromones st2.
Proof.
  intros ac st1 st2.
  apply (train_continues_pheromones (H := Scenario.delay_metrics) (H0 := Scenario.pow12)
           Scenario.draws ac.1 0 1 5%float ac.2 st1 st2 0 1 2).
  - vm_compute. reflexivity.
  - vm_compute. reflexivity.
Defined.

(** C8, as stated, fails: on the link 0-1 the first [train] leaves more than
    1.0 on the edge [(0, 1)], and a second [train] on the instance ends
    with more pheromone there than it would on a re-initialised table. *)
Lemma second_train_starts_from_learned_pheromones :
  let ac := Scenario.aco Scenario.link Scenario.delay_only 1 1 in
  let run st t := Scenario.after st
    (ACORouter.train (H := Scenario.delay_metrics) (H0 := Scenario.pow12)
       Scenario.draws ac.1 0 1 5 st t) in
  let st1 := (run ac.2 0).1 in
  let st2 := (run st1 1).1 in
  let reinitialised :=
    {| ACORouter.best_path := ACORouter.best_path st1;
       ACORouter.best_cost := ACORouter.best_cost st1;
       ACORouter.pheromones := ACORouter.initialize_pheromones Scenario.link ∅ |} in
  let st2' := (run reinitialised 1).1 in
  ∃ a x y,
    ACORouter.train (H := Scenario.delay_metrics) (H0 := Scenario.pow12)
      Scenario.draws ac.1 0 1 5 ac.2 0 = Some (st1, 1) ∧
    ACORouter.train (H := Scenario.delay_metrics) (H0 := Scenario.pow12)
      Scenario.draws ac.1 0 1 5 st1 1 = Some (st2, 2) ∧
    ACORouter.pheromones ac.2 !! (0, 1) = Some 1.0%float ∧
    ACORouter.pheromones st1 !! (0, 1) = Some a ∧ (1.0 <? a)%float = true ∧
    ACORouter.pheromones st2 !! (0, 1) = Some x ∧
    ACORouter.pheromones st2' !! (0, 1) = Some y ∧
    (y <? x)%float = true.
Proof.
  intros ac run st1 st2 reinitialised st2'.
  exists (default 0%float (ACORouter.pheromones st1 !! (0, 1))),
         (default 0%float (ACORouter.pheromones st2 !! (0, 1))),
         (default 0%float (ACORouter.pheromones st2' !! (0, 1))).
  repeat (split; [vm_compute; reflexivity|]). vm_compute. reflexivity.
Qed.



(** C5. [run_multiple] starts every run with [epsilon = 1.0], whatever
    level the router was built with: built with [initial_epsilon = 0.5], a
    single run of one episode ends at [1.0 * 0.99] and not at
    [0.5 * 0.99]. *)
Example run_multiple_epsilon_not_initial :
  let cfg := Scenario.qlearning_cfg Scenario.link Scenario.delay_only 1 in
  let st0 := Scenario.qlearning_init Scenario.link 0.5 in
  Scenario.qlearning Scenario.link Scenario.delay_only 0.5 1 = Some (cfg, st0) ∧
  QLearningRouter.epsilon st0 = 0.5%float ∧
  QLearningRouter.epsilon <$> QLearningRouter.reset cfg = Some 1.0%float ∧
  ∃ r st' t',
    QLearningRouter.run_multiple (H := Scenario.delay_metrics) Scenario.draws cfg 0 1 5 1 st0 0
      = Some (r, st', t') ∧
    QLearningRouter.epsilon st' = (1.0 * 0.99)%float ∧
    (0.5 * 0.99 <? QLearningRouter.epsilon st')%float = true.
Proof.
  intros cfg st0. split; [reflexivity|]. split; [reflexivity|]. split; [reflexivity|].
  pose (r := default (None, st0, 0)
    (QLearningRouter.run_multiple (H := Scenario.delay_metrics) Scenario.draws cfg 0 1 5 1 st0 0)).
  exists r.1.1, r.1.2, r.2.
  split; [vm_compute; reflexivity|]. split; vm_compute; reflexivity.
Qed.

End Claims.

(** * Further properties of the routers *)

(** ** QLearningRouter: what one call of [train] touches *)

Section QLearningTrace.
Import QLearningRouter.
Context `{!Metrics} (rng : Rng) (cfg : Config).
Local Open Scope float_scope.

(** Two Q-tables with the same states, in the same order, and the same
    actions for each of them. *)
Definition same_shape (q q' : QTable) : Prop :=
  dict_keys q' = dict_keys q ∧
  ∀ n, dict_keys <$> dict_get n q' = dict_keys <$> dict_get n q.

Lemma same_shape_refl q : same_shape q q.
Proof. by split. Qed.

Lemma same_shape_trans q1 q2 q3 :
  same_shape q1 q2 → same_shape q2 q3 → same_shape q1 q3.
Proof. intros [Hk Hl] [Hk' Hl']. split; [congruence|]. intros n. by rewrite Hl', Hl. Qed.

Lemma update_Q_shape q s a reward future_q q' :
  update_Q cfg q s a reward future_q = Some q' → same_shape q q'.
Proof.
  unfold update_Q. destruct (dict_get s q) as [qs|] eqn:Hqs; simpl; [|done].
  destruct (dict_get a qs) as [old|] eqn:Hold; simpl; [|done].
  intros [= <-]. split.
  - apply dict_keys_set. by rewrite Hqs.
  - intros n. destruct (decide (s = n)) as [<-|Hne].
    + rewrite dict_get_set_eq, Hqs. simpl. f_equal. apply dict_keys_set. by rewrite Hold.
    + by rewrite dict_get_set_ne.
Qed.

(** What the retained best may become in a step that ends at [w']. *)
Definition step_outcome (dst : node) (d : float) (st st' : State) (w' : Walk) : Prop :=
  (best_path st' = best_path st ∧ best_cost st' = best_cost st) ∨
  (state w' = dst ∧ best_path st' = Some (path w') ∧
   best_cost st' = PyFloat.max2 (path_cost cfg (path w')) 1e-6 ∧
   (best_cost st' <? best_cost st) = true ∧
   (d <=? min_bw_on_path w') = true).

(** Everything one pass through the loop body does. *)
Lemma step_trace dst d st t w st' t' w' :
  step rng cfg dst d st t w = Some (Some (st', t', w')) →
  path w' = path w ++ [state w'] ∧
  (state w' ∉ visited w) ∧
  visited w' = visited w ∪ {[state w']} ∧
  is_Some (dict_get (state w) (Q st)) ∧
  is_Some (dict_get (state w') (Q st)) ∧
  is_Some (Graph.edges (graph cfg) (state w) (state w')) ∧
  same_shape (Q st) (Q st') ∧
  epsilon st' = epsilon st ∧
  (t < t')%nat ∧
  step_outcome dst d st st' w'.
Proof.
  unfold step.
  destruct (dict_get (state w) (Q st)) as [qs|] eqn:Hqs; simpl; [|done].
  destruct (actions_of qs (visited w)) as [|a0 acts] eqn:Hacts; [done|].
  destruct (select_action _ _ _ _) as [[action t1]|] eqn:Hsel; simpl; [|done].
  assert (Ht : (t < t1)%nat).
  { revert Hsel. unfold select_action. destruct (_ <? _).
    - destruct (pick _ _); simpl; [|done]. intros [= _ <-]. lia.
    - destruct (PyFloat.argmax _); simpl; [|done]. intros [= _ <-]. lia. }
  apply select_action_elem_of in Hsel. rewrite <- Hacts in Hsel.
  apply actions_of_unvisited in Hsel as [Hnv _].
  destruct (Graph.edges _ _ _) as [e|] eqn:He; simpl; [|done].
  destruct (reward_of _ _ _ _ _ _ _) as [reward st1] eqn:Hrew.
  assert (Hst1 : Q st1 = Q st ∧ epsilon st1 = epsilon st ∧
    ((best_path st1 = best_path st ∧ best_cost st1 = best_cost st) ∨
     (action = dst ∧ best_path st1 = Some (path w ++ [action]) ∧
      best_cost st1 = PyFloat.max2 (path_cost cfg (path w ++ [action])) 1e-6 ∧
      (best_cost st1 <? best_cost st) = true ∧
      (d <=? PyFloat.min2 (min_bw_on_path w) (default 0 (bandwidth e))) = true))).
  { revert Hrew. unfold reward_of, record_best.
    destruct (decide (action = dst)) as [Hdst|]; [|intros [= _ <-]; auto].
    destruct (d <=? _) eqn:Hle; [|intros [= _ <-]; auto].
    destruct (_ <? best_cost st) eqn:Hlt; intros [= _ <-]; simpl; [|auto].
    split; [done|]. split; [done|]. right. auto. }
  destruct Hst1 as (HQ & Heps & Hbest). rewrite HQ.
  destruct (dict_get action (Q st)) as [qn|] eqn:Hqn; simpl; [|done].
  destruct (update_Q _ _ _ _ _ _) as [q'|] eqn:Hup; simpl; [|done].
  intros [= <- <- <-]. simpl.
  split; [done|]. split; [done|]. split; [done|]. split; [done|].
  split; [done|]. split; [done|].
  split; [by eapply update_Q_shape|]. split; [done|]. split; [done|].
  exact Hbest.
Qed.

Lemma dict_get_keys {A} (k : node) (d : list (node * A)) :
  is_Some (dict_get k d) → k ∈ dict_keys d.
Proof.
  intros [v Hv]. apply dict_get_elem_of in Hv.
  unfold dict_keys. by apply (list_elem_of_fmap_2 fst) in Hv.
Qed.

(** A route from [src] to [dst] of at most [bound] nodes, all of them
    among [known]. *)
Definition route (src dst : node) (bound : nat) (known : list node) (p : list node) : Prop :=
  head p = Some src ∧ last p = Some dst ∧ (2 ≤ length p ≤ bound)%nat ∧
  Forall (λ n, n ∈ known) p.

(** The retained best is left alone or replaced by a path with [P]. *)
Definition retains (P : list node → Prop) (st st' : State) : Prop :=
  (best_path st' = best_path st ∧ best_cost st' = best_cost st) ∨
  ∃ p, best_path st' = Some p ∧ P p.

Lemma retains_trans P st1 st2 st3 :
  retains P st1 st2 → retains P st2 st3 → retains P st1 st3.
Proof.
  intros [[Hp Hc]|Hrec] [[Hp' Hc']|Hrec'].
  - left. split; congruence.
  - by right.
  - right. destruct Hrec as (p & Hbp & HP). exists p. split; [congruence|done].
  - by right.
Qed.

(** The draws, the Q-table's shape, epsilon and the retained best over the
    [while] loop of one episode. *)
Lemma episode_trace src dst d known bound fuel st t w st' t' :
  (∃ tl, path w = src :: tl) →
  (∃ p0, path w = p0 ++ [state w] ∧ Forall (λ n, n ∈ known) p0) →
  dict_keys (Q st) = known →
  (length (path w) + fuel ≤ bound)%nat →
  episode rng cfg dst d fuel st t w = Some (st', t') →
  same_shape (Q st) (Q st') ∧ epsilon st' = epsilon st ∧ (t ≤ t')%nat ∧
  retains (route src dst bound known) st st'.
Proof.
  revert st t w. induction fuel as [|fuel IH];
    intros st t w Hhd Hlast Hknown Hlen; simpl.
  - destruct (decide (state w = dst)); intros [= <- <-];
      (split; [apply same_shape_refl|]); (split; [done|]); (split; [done|]); by left.
  - destruct (decide (state w = dst)).
    { intros [= <- <-]. split; [apply same_shape_refl|]. split; [done|].
      split; [done|]. by left. }
    destruct (step _ _ _ _ _ _ _) as [[[[st1 t1] w1]|]|] eqn:Hstep; simpl; [| |done].
    2:{ intros [= <- <-]. split; [apply same_shape_refl|]. split; [done|].
        split; [done|]. by left. }
    intros Hep.
    apply step_trace in Hstep
      as (Hpath & _ & _ & Hs & Hs' & _ & Hshape & Heps & Ht & Hout).
    destruct Hhd as [tl Htl]. destruct Hlast as (p0 & Hp0 & Hall).
    apply dict_get_keys in Hs, Hs'. rewrite Hknown in Hs, Hs'.
    assert (Hall1 : Forall (λ n, n ∈ known) (path w)).
    { rewrite Hp0. apply Forall_app. split; [done|]. by apply Forall_singleton. }
    destruct (IH st1 t1 w1) as (Hshape' & Heps' & Ht' & Hret); try done.
    + exists (tl ++ [state w1]). by rewrite Hpath, Htl.
    + exists (path w). by split.
    + destruct Hshape as [-> _]. done.
    + rewrite Hpath, length_app. simpl. lia.
    + split; [by eapply same_shape_trans|]. split; [congruence|]. split; [lia|].
      eapply retains_trans; [|exact Hret].
      destruct Hout as [Hsame|(Hdst & Hbp & _)]; [by left|right].
      exists (path w1). split; [done|]. rewrite Hpath. split; [by rewrite Htl|].
      split; [by rewrite last_snoc, Hdst|]. split.
      * rewrite length_app. simpl. rewrite Htl in *. simpl in *. lia.
      * apply Forall_app. split; [done|]. by apply Forall_singleton.
Qed.

(** [epsilon] after one episode. *)
Definition decayed (e : float) : float :=
  if min_epsilon cfg <? e then e * epsilon_decay cfg else e.

Lemma decay_trace st :
  Q (decay cfg st) = Q st ∧ best_path (decay cfg st) = best_path st ∧
  best_cost (decay cfg st) = best_cost st ∧ epsilon (decay cfg st) = decayed (epsilon st).
Proof. unfold decay, decayed. by destruct (_ <? _). Qed.

Lemma train_episodes_trace src dst d n st t st' t' :
  train_episodes rng cfg src dst d n st t = Some (st', t') →
  same_shape (Q st) (Q st') ∧
  epsilon st' = Nat.iter n decayed (epsilon st) ∧ (t ≤ t')%nat ∧
  retains (route src dst (max_steps cfg + 1) (dict_keys (Q st))) st st'.
Proof.
  revert st t. induction n as [|n IH]; intros st t; simpl.
  - intros [= <- <-]. split; [apply same_shape_refl|]. split; [done|].
    split; [done|]. by left.
  - destruct (episode _ _ _ _ _ _ _ _) as [[st1 t1]|] eqn:Hep; simpl; [|done].
    intros Htr.
    apply (episode_trace src dst d (dict_keys (Q st)) (max_steps cfg + 1)) in Hep
      as (Hshape & Heps & Ht & Hret); simpl; try done; try lia.
    2:{ by exists []. }
    2:{ exists []. by split. }
    apply IH in Htr as (Hshape' & Heps' & Ht' & Hret').
    destruct (decay_trace st1) as (HQ & Hbp & Hbc & He).
    rewrite HQ in Hshape', Hret'. destruct Hshape as [Hk Hl]. rewrite Hk in Hret'.
    split; [eapply same_shape_trans; [by split|exact Hshape']|].
    split.
    + rewrite Heps', He, Heps. clear. induction n as [|n IHn]; [done|].
      simpl. by rewrite IHn.
    + split; [lia|]. eapply retains_trans; [exact Hret|].
      eapply retains_trans; [|exact Hret']. left. by split.
Qed.

(** *** When [train] raises nothing *)

(** Every action of the Q-table is one of its states and an edge of the
    network. *)
Definition Q_closed (q : QTable) : Prop :=
  ∀ n qs a, dict_get n q = Some qs → a ∈ dict_keys qs →
    is_Some (dict_get a q) ∧ is_Some (Graph.edges (graph cfg) n a).

Lemma same_shape_is_Some q q' n :
  same_shape q q' → is_Some (dict_get n q) → is_Some (dict_get n q').
Proof.
  intros [_ Hl] [qs Hqs]. specialize (Hl n). rewrite Hqs in Hl.
  destruct (dict_get n q'); [eauto|done].
Qed.

Lemma same_shape_closed q q' : same_shape q q' → Q_closed q → Q_closed q'.
Proof.
  intros Hshape Hcl n qs' a Hn Ha.
  pose proof Hshape as [_ Hl]. specialize (Hl n). rewrite Hn in Hl.
  destruct (dict_get n q) as [qs|] eqn:Hqs; [|done]. injection Hl as Hl.
  rewrite Hl in Ha. destruct (Hcl n qs a Hqs Ha) as [Ha' He].
  split; [by eapply same_shape_is_Some|done].
Qed.

Lemma reward_of_Q dst d st next p min_bw :
  Q (reward_of cfg dst d st next p min_bw).2 = Q st.
Proof.
  unfold reward_of, record_best.
  destruct (decide _); [|done]. destruct (_ <=? _); [|done]. simpl.
  by destruct (_ <? _).
Qed.

Lemma step_returns dst d st t w :
  Q_closed (Q st) → is_Some (dict_get (state w) (Q st)) →
  is_Some (step rng cfg dst d st t w).
Proof.
  intros Hcl [qs Hqs]. unfold step. rewrite Hqs. simpl.
  destruct (actions_of qs (visited w)) as [|av avs] eqn:Hact; [eauto|].
  assert (Hsel : ∃ a t', select_action rng (epsilon st) t (av :: avs) = Some (a, t')).
  { unfold select_action. destruct (_ <? _).
    - destruct (pick_is_Some (map fst (av :: avs)) (choice rng (S t))) as [a ->];
        [done|]. simpl. eauto.
    - destruct (argmax_is_Some (av :: avs)) as [a Ha]; [done|].
      rewrite Ha. simpl. eauto. }
  destruct Hsel as (a & t' & Hsel). rewrite Hsel. simpl.
  apply select_action_elem_of in Hsel. rewrite <- Hact in Hsel.
  apply actions_of_unvisited in Hsel as [_ Ha].
  destruct (Hcl _ _ _ Hqs Ha) as [[qn Hqn] [e He]].
  rewrite He. simpl.
  pose proof (reward_of_Q dst d st a (path w ++ [a])
                (PyFloat.min2 (min_bw_on_path w) (default 0 (bandwidth e)))) as HQ.
  destruct (reward_of _ _ _ _ _ _ _) as [reward st1]. simpl in HQ.
  rewrite HQ, Hqn. simpl. unfold update_Q. rewrite Hqs. simpl.
  destruct (dict_keys_get a qs Ha) as [old ->]. simpl. eauto.
Qed.

Lemma episode_returns dst d fuel st t w :
  Q_closed (Q st) → is_Some (dict_get (state w) (Q st)) →
  is_Some (episode rng cfg dst d fuel st t w).
Proof.
  revert st t w. induction fuel as [|fuel IH]; intros st t w Hcl Hs; simpl.
  - destruct (decide _); eauto.
  - destruct (decide _); [eauto|].
    destruct (step_returns dst d st t w Hcl Hs) as [[[[st1 t1] w1]|] Hstep];
      rewrite Hstep; simpl; [|eauto].
    apply step_trace in Hstep as (_ & _ & _ & _ & Hs' & _ & Hshape & _).
    apply IH; [by eapply same_shape_closed|by eapply same_shape_is_Some].
Qed.

Lemma train_episodes_returns src dst d n st t :
  Q_closed (Q st) → is_Some (dict_get src (Q st)) →
  is_Some (train_episodes rng cfg src dst d n st t).
Proof.
  revert st t. induction n as [|n IH]; intros st t Hcl Hs; simpl; [eauto|].
  destruct (episode_returns dst d (max_steps cfg) st t (start src) Hcl Hs)
    as [[st1 t1] Hep]. rewrite Hep. simpl.
  apply (episode_trace src dst d (dict_keys (Q st)) (max_steps cfg + 1)) in Hep
    as (Hshape & _); simpl; try done; try lia.
  2:{ by exists []. }
  2:{ exists []. by split. }
  destruct (decay_trace st1) as (HQ & _).
  apply IH; rewrite HQ; [by eapply same_shape_closed|by eapply same_shape_is_Some].
Qed.

(** The Q-table [__init__] builds is closed when the neighbours of the
    network's nodes are nodes of it. *)
Definition neighbours_are_nodes (g : Graph) : Prop :=
  Forall (λ entry, Forall (λ a, a ∈ Graph.nodes g) (dict_keys entry.2)) (g_adj g).

Lemma fresh_Q_lookup q n qs :
  fresh_Q (graph cfg) = Some q → dict_get n q = Some qs →
  n ∈ Graph.nodes (graph cfg) ∧ Graph.neighbors (graph cfg) n = Some (dict_keys qs).
Proof.
  intros Hq%fresh_Q_spec. revert Hq. generalize (Graph.nodes (graph cfg)) as ns.
  intros ns Hq. induction Hq as [|m entry ns q (nbrs & Hn & ->) _ IH]; simpl; [done|].
  destruct (decide (n = m)) as [->|Hne].
  - intros [= <-]. split; [apply list_elem_of_here|].
    rewrite Hn. f_equal. unfold dict_keys. rewrite map_map. simpl. by rewrite map_id.
  - intros Hd. destruct (IH Hd) as [Hin Hnb]. split; [by apply list_elem_of_further|done].
Qed.

Lemma fresh_Q_keys q : fresh_Q (graph cfg) = Some q → dict_keys q = Graph.nodes (graph cfg).
Proof.
  intros Hq%fresh_Q_spec. revert Hq. generalize (Graph.nodes (graph cfg)) as ns.
  intros ns Hq. induction Hq as [|m entry ns q (nbrs & Hn & ->) _ IH]; simpl; [done|].
  by f_equal.
Qed.

Lemma fresh_Q_closed q :
  neighbours_are_nodes (graph cfg) → fresh_Q (graph cfg) = Some q → Q_closed q.
Proof.
  intros Hwf Hq n qs a Hn Ha.
  destruct (fresh_Q_lookup _ _ _ Hq Hn) as [_ Hnb].
  unfold Graph.neighbors in Hnb. unfold Graph.edges.
  destruct (dict_get n (g_adj (graph cfg))) as [nbrs|] eqn:Hadj; simpl in *; [|done].
  injection Hnb as Hnb. split.
  - apply dict_keys_get. rewrite (fresh_Q_keys _ Hq).
    apply dict_get_elem_of in Hadj. unfold neighbours_are_nodes in Hwf.
    rewrite Forall_forall in Hwf. specialize (Hwf _ Hadj). simpl in Hwf.
    rewrite Forall_forall in Hwf. apply Hwf. by rewrite Hnb.
  - apply dict_keys_get. by rewrite Hnb.
Qed.

End QLearningTrace.

(** ** Bandwidths along a path under the two defaults *)

Section BandwidthDefaults.
Context (g : Graph).
Local Open Scope float_scope.

(** [.get("bandwidth", inf)] and [.get("bandwidth", 0)] differ only where
    the attribute is missing. *)
Lemma edge_bandwidths_defaults p l0 li :
  Graph.edge_bandwidths g 0 p = Some l0 →
  Graph.edge_bandwidths g infinity p = Some li →
  Forall2 (λ x y, x = y ∨ x = infinity) li l0.
Proof.
  unfold Graph.edge_bandwidths. generalize (pairs p) as ps. intros ps.
  revert l0 li. induction ps as [|[u v] ps IH]; intros l0 li; simpl.
  - intros [= <-] [= <-]. constructor.
  - destruct (Graph.edges g u v) as [e|]; simpl; [|done].
    destruct (mapM _ ps) as [l0'|] eqn:H0; simpl; [|done].
    destruct (mapM _ ps) as [li'|] eqn:Hi in |- *; simpl; [|done].
    intros [= <-] [= <-]. constructor; [|by apply IH].
    destruct (bandwidth e); simpl; [by left|by right].
Qed.

(** A path that carries the demand with a missing bandwidth counted as 0
    has no edge below the demand when it is counted as [inf]. *)
Lemma feasible_min_of d p li m :
  Graph.feasible g 0 d p →
  Graph.edge_bandwidths g infinity p = Some li →
  PyFloat.min_of li = Some m →
  (m <? d) = false.
Proof.
  intros (b & Hb & Hle) Hli Hm. unfold Graph.bottleneck in Hb.
  destruct (Graph.edge_bandwidths g 0 p) as [l0|] eqn:Hl0; simpl in Hb; [|done].
  injection Hb as <-.
  pose proof (edge_bandwidths_defaults p l0 li Hl0 Hli) as Hall.
  apply min_of_elem_of in Hm. apply list_elem_of_lookup in Hm as [i Hi].
  destruct (Forall2_lookup_l _ _ _ _ _ Hall Hi) as (y & Hy & Hor).
  destruct (m <? d) eqn:Hlt; [|done].
  pose proof (ltb_is_number _ _ Hlt) as [Hmn Hdn].
  destruct Hor as [->| ->].
  - assert (Hfold : (fold_left PyFloat.min2 l0 infinity <=? y) = true).
    { apply fold_min2_leb_elem; [apply is_number_infinity|done|].
      apply list_elem_of_lookup. eauto. }
    pose proof (leb_trans _ _ _ Hle Hfold) as Hdy.
    apply leb_ltb_false in Hdy. congruence.
  - pose proof (leb_infinity d Hdn) as Hdi. apply leb_ltb_false in Hdi. congruence.
Qed.

End BandwidthDefaults.

(** ** QLearningRouter: instances and their Q-tables *)

Section QLearningInstances.
Import QLearningRouter.
Context `{!Metrics} (rng : Rng) (cfg : Config).
Local Open Scope float_scope.

Lemma train_trace src dst d st t st' t' :
  train rng cfg src dst d st t = Some (st', t') →
  same_shape (Q st) (Q st') ∧
  epsilon st' = Nat.iter (episodes cfg) (decayed cfg) (epsilon st) ∧ (t ≤ t')%nat ∧
  retains (route src dst (max_steps cfg + 1) (dict_keys (Q st))) st st'.
Proof. apply train_episodes_trace. Qed.

(** The Q-table has a row for every node of the network, and only
    neighbours as actions. *)
Definition Q_fits (q : QTable) : Prop :=
  Q_closed cfg q ∧ dict_keys q = Graph.nodes (graph cfg).

Lemma same_shape_fits q q' : same_shape q q' → Q_fits q → Q_fits q'.
Proof.
  intros Hshape [Hcl Hk]. split; [by eapply same_shape_closed|].
  destruct Hshape as [-> _]. done.
Qed.

Lemma fresh_Q_fits q :
  neighbours_are_nodes (graph cfg) → fresh_Q (graph cfg) = Some q → Q_fits q.
Proof. intros Hwf Hq. split; [by apply fresh_Q_closed|by apply fresh_Q_keys]. Qed.

Lemma run_loop_fits src dst d runs st t gb st' t' gb' :
  neighbours_are_nodes (graph cfg) →
  run_loop rng cfg src dst d runs st t gb = Some (st', t', gb') →
  Q_fits (Q st) → Q_fits (Q st').
Proof.
  intros Hwf. revert st t gb. induction runs as [|runs IH]; intros st t gb; simpl.
  - by intros [= <- <- <-].
  - destruct (reset cfg) as [st0|] eqn:Hreset; simpl; [|done].
    destruct (train _ _ _ _ _ _ _) as [[st1 t1]|] eqn:Htr; simpl; [|done].
    intros Hloop _. apply (IH _ _ _ Hloop).
    apply train_trace in Htr as [Hshape _].
    apply (same_shape_fits _ _ Hshape).
    apply reset_spec in Hreset as [Hq _]. by apply fresh_Q_fits.
Qed.

Lemma reachable_fits st :
  neighbours_are_nodes (graph cfg) → reachable rng cfg st →
  Q_fits (Q st) ∧ is_Some (fresh_Q (graph cfg)).
Proof.
  intros Hwf Hr. induction Hr as
    [w a gm e me ed ep ms sp pb st Hnew
    |src dst d st t st' t' Hr [IH Hf] Htr
    |src dst d runs st t r st' t' Hr [IH Hf] Hrun].
  - unfold new in Hnew. destruct (fresh_Q (graph cfg)) as [q|] eqn:Hq; simpl in Hnew; [|done].
    injection Hnew as _ <-. simpl. split; [by apply fresh_Q_fits|eauto].
  - split; [|done]. apply train_trace in Htr as [Hshape _].
    by apply (same_shape_fits _ _ Hshape).
  - split; [|done]. unfold run_multiple in Hrun.
    destruct (run_loop _ _ _ _ _ _ _ _ _) as [[[st1 t1] [gc gp]]|] eqn:Hloop;
      simpl in Hrun; [|done].
    injection Hrun as _ <- _. simpl. by eapply run_loop_fits.
Qed.

Lemma fits_train_returns src dst d st t :
  Q_fits (Q st) → src ∈ Graph.nodes (graph cfg) →
  is_Some (train rng cfg src dst d st t).
Proof.
  intros [Hcl Hk] Hsrc. apply train_episodes_returns; [done|].
  apply dict_keys_get. by rewrite Hk.
Qed.

Lemma run_loop_returns src dst d runs st t gb :
  neighbours_are_nodes (graph cfg) → is_Some (fresh_Q (graph cfg)) →
  src ∈ Graph.nodes (graph cfg) →
  is_Some (run_loop rng cfg src dst d runs st t gb).
Proof.
  intros Hwf [q Hq] Hsrc. revert st t gb.
  induction runs as [|runs IH]; intros st t gb; simpl; [eauto|].
  unfold reset. rewrite Hq. simpl.
  destruct (fits_train_returns src dst d
              {| Q := q; best_path := None; best_cost := infinity; epsilon := 1.0 |} t)
    as [[st1 t1] Htr]; [by apply fresh_Q_fits|done|].
  rewrite Htr. simpl. apply IH.
Qed.

(** The best path of a newly built and trained router: what was recorded,
    and what the router's own [get_path_metrics] makes of it. *)
Lemma new_train_metrics w a gm e me ed ep ms sp pb st0 src dst d t st' t' p :
  new (graph cfg) w a gm e me ed ep ms sp pb = Some (cfg, st0) →
  train rng cfg src dst d st0 t = Some (st', t') →
  get_best_path st' = Some p →
  recorded cfg d p ∧
  route src dst (max_steps cfg + 1) (Graph.nodes (graph cfg)) p ∧
  best_cost st' = PyFloat.max2 (path_cost cfg p) 1e-6 ∧
  ∃ r, get_path_metrics cfg (Some p) d = Some (Valid r) ∧
       m_path r = p ∧ m_total_cost r = path_cost cfg p ∧
       m_hop_count r = (length p - 1)%nat.
Proof.
  unfold get_best_path. intros Hnew Htr Hp.
  assert (Hinit : fresh_Q (graph cfg) = Some (Q st0) ∧ best_path st0 = None).
  { unfold new in Hnew.
    destruct (fresh_Q (graph cfg)) as [q|] eqn:Hq; simpl in Hnew; [|done].
    injection Hnew as _ <-. by split. }
  destruct Hinit as [Hq Hnone].
  destruct (train_fresh rng cfg _ _ _ _ _ _ _ _ Hnone Htr Hp) as (Hrec & Hcost & _).
  pose proof Hrec as [[_ Hwalk] Hfeas].
  apply train_trace in Htr as (_ & _ & _ & [[Hsame _]|(p' & Hp' & Hroute)]); [congruence|].
  assert (p' = p) as -> by congruence.
  rewrite (fresh_Q_keys cfg _ Hq) in Hroute.
  split; [done|]. split; [done|]. split; [done|].
  destruct Hroute as (_ & _ & [Hlen _] & Hkeys).
  assert (Hnodes : Graph.on_nodes (graph cfg) p).
  { eapply Forall_impl; [exact Hkeys|]. intros n Hn. by apply dict_keys_get. }
  unfold get_path_metrics.
  rewrite decide_False by lia.
  destruct (path_reliability_is_Some _ p Hwalk Hnodes) as [rel ->]. simpl.
  destruct (is_walk_edge_bandwidths (graph cfg) infinity p Hwalk) as [li Hli].
  rewrite Hli. simpl.
  assert (Hm : ∃ m, PyFloat.min_of li = Some m).
  { apply edge_bandwidths_length in Hli as Hl. destruct li as [|x li]; simpl in *; [lia|eauto]. }
  destruct Hm as [m Hm]. rewrite Hm. simpl.
  rewrite (feasible_min_of _ d p li m Hfeas Hli Hm).
  eexists. split; [done|]. simpl. done.
Qed.

End QLearningInstances.

(** ** QLearningRouter: properties of [train] and [run_multiple] *)

Section QLearningProperties.

(** X1. [QLearningRouter.train] rewrites values of the Q-table and nothing
    else: after a call that raised nothing the table has the same states
    in the same order, and every state the same actions in the same
    order. *)
Theorem train_keeps_Q_shape `{!Metrics} (rng : Rng) (cfg : QLearningRouter.Config)
    (src dst : node) (d : float) (st st' : QLearningRouter.State) (t t' : nat) :
  QLearningRouter.train rng cfg src dst d st t = Some (st', t') →
  dict_keys (QLearningRouter.Q st') = dict_keys (QLearningRouter.Q st) ∧
  ∀ n, dict_keys <$> dict_get n (QLearningRouter.Q st')
       = dict_keys <$> dict_get n (QLearningRouter.Q st).
Proof. intros Htr. by apply train_trace in Htr as [Hshape _]. Qed.

Lemma train_keeps_Q_shape_witness :
  let cfg := Scenario.qlearning_cfg Scenario.ring Scenario.delay_only 3 in
  let st0 := Scenario.qlearning_init Scenario.ring 1 in
  let st1 := (Scenario.after st0
    (QLearningRouter.train (H := Scenario.delay_metrics) Scenario.draws cfg 0 2 5 st0 0)).1 in
  dict_keys (QLearningRouter.Q st1) = [0; 1; 2; 3] ∧
  dict_keys <$> dict_get 0 (QLearningRouter.Q st1) = Some [1; 3].
Proof.
  intros cfg st0 st1.
  pose (r := Scenario.after st0
    (QLearningRouter.train (H := Scenario.delay_metrics) Scenario.draws cfg 0 2 5 st0 0)).
  destruct (train_keeps_Q_shape (H := Scenario.delay_metrics) Scenario.draws cfg
              0 2 5%float st0 r.1 0 r.2) as [Hk Hl].
  - vm_compute. reflexivity.
  - split; [etrans; [exact Hk|reflexivity]|etrans; [exact (Hl 0)|reflexivity]].
Defined.

(** X2. [QLearningRouter.train] changes [epsilon] once per episode and by
    the decay rule alone, whatever the walks do: after the call [epsilon]
    is the start value with [if epsilon > min_epsilon: epsilon *=
    epsilon_decay] applied [episodes] times; an [epsilon] that is not above
    [min_epsilon] is left as it is. *)
Theorem train_epsilon_schedule `{!Metrics} (rng : Rng) (cfg : QLearningRouter.Config)
    (src dst : node) (d : float) (st st' : QLearningRouter.State) (t t' : nat) :
  QLearningRouter.train rng cfg src dst d st t = Some (st', t') →
  QLearningRouter.epsilon st'
    = Nat.iter (QLearningRouter.episodes cfg) (decayed cfg) (QLearningRouter.epsilon st) ∧
  ((QLearningRouter.min_epsilon cfg <? QLearningRouter.epsilon st)%float = false →
   QLearningRouter.epsilon st' = QLearningRouter.epsilon st).
Proof.
  intros Htr. apply train_trace in Htr as (_ & Heps & _). split; [done|].
  intros Hlow. rewrite Heps. clear Heps.
  induction (QLearningRouter.episodes cfg) as [|n IH]; [done|].
  simpl. rewrite IH. unfold decayed. by rewrite Hlow.
Qed.

Lemma train_epsilon_schedule_witness :
  let cfg := Scenario.qlearning_cfg Scenario.ring Scenario.delay_only 3 in
  let st0 := Scenario.qlearning_init Scenario.ring 1 in
  let st1 := (Scenario.after st0
    (QLearningRouter.train (H := Scenario.delay_metrics) Scenario.draws cfg 0 2 5 st0 0)).1 in
  QLearningRouter.epsilon st1 = (1 * 0.99 * 0.99 * 0.99)%float.
Proof.
  intros cfg st0 st1.
  pose (r := Scenario.after st0
    (QLearningRouter.train (H := Scenario.delay_metrics) Scenario.draws cfg 0 2 5 st0 0)).
  destruct (train_epsilon_schedule (H := Scenario.delay_metrics) Scenario.draws cfg
              0 2 5%float st0 r.1 0 r.2) as [Heps _].
  - vm_compute. reflexivity.
  - etrans; [exact Heps|]. vm_compute. reflexivity.
Defined.

(** X3. A path that [QLearningRouter.train] newly retains runs from [src]
    to [dst]: its first node is [src], its last node is [dst], it has at
    least two and at most [max_steps + 1] nodes, and every node of it has
    a row in the Q-table. *)
Theorem train_best_path_route `{!Metrics} (rng : Rng) (cfg : QLearningRouter.Config)
    (src dst : node) (d : float) (st st' : QLearningRouter.State) (t t' : nat)
    (p : list node) :
  QLearningRouter.train rng cfg src dst d st t = Some (st', t') →
  QLearningRouter.get_best_path st' = Some p →
  QLearningRouter.get_best_path st ≠ Some p →
  head p = Some src ∧ last p = Some dst ∧
  (2 ≤ length p ≤ QLearningRouter.max_steps cfg + 1)%nat ∧
  Forall (λ n, n ∈ dict_keys (QLearningRouter.Q st)) p.
Proof.
  unfold QLearningRouter.get_best_path. intros Htr Hp Hnew.
  apply train_trace in Htr as (_ & _ & _ & [[Hsame _]|(p' & Hp' & Hroute)]).
  - congruence.
  - by simplify_eq.
Qed.

Lemma train_best_path_route_witness :
  let cfg := Scenario.qlearning_cfg Scenario.ring Scenario.delay_only 3 in
  let st0 := Scenario.qlearning_init Scenario.ring 1 in
  let st1 := (Scenario.after st0
    (QLearningRouter.train (H := Scenario.delay_metrics) Scenario.draws cfg 0 2 5 st0 0)).1 in
  QLearningRouter.get_best_path st1 = Some [0; 3; 2] ∧
  head [0; 3; 2] = Some 0 ∧ last [0; 3; 2] = Some 2.
Proof.
  intros cfg st0 st1.
  pose (r := Scenario.after st0
    (QLearningRouter.train (H := Scenario.delay_metrics) Scenario.draws cfg 0 2 5 st0 0)).
  split; [vm_compute; reflexivity|].
  destruct (train_best_path_route (H := Scenario.delay_metrics) Scenario.draws cfg
              0 2 5%float st0 r.1 0 r.2 [0; 3; 2]) as (Hh & Hl & _).
  - vm_compute. reflexivity.
  - vm_compute. reflexivity.
  - discriminate.
  - by split.
Defined.

(** X4. On a network whose neighbours are all nodes of it, an instance
    built by [__init__] and used through [train] and [run_multiple] never
    raises: for a source that is a node of the network, a further [train]
    and a further [run_multiple] both return, whatever the destination,
    the demand and the random draws are. *)
Theorem train_returns `{!Metrics} (rng : Rng) (cfg : QLearningRouter.Config)
    (st : QLearningRouter.State) (src dst : node) (d : float) (runs t : nat) :
  reachable rng cfg st →
  neighbours_are_nodes (QLearningRouter.graph cfg) →
  src ∈ Graph.nodes (QLearningRouter.graph cfg) →
  is_Some (QLearningRouter.train rng cfg src dst d st t) ∧
  is_Some (QLearningRouter.run_multiple rng cfg src dst d runs st t).
Proof.
  intros Hr Hwf Hsrc. destruct (reachable_fits rng cfg st Hwf Hr) as [Hfits Hfresh].
  split; [by apply fits_train_returns|].
  unfold QLearningRouter.run_multiple.
  destruct (run_loop_returns rng cfg src dst d runs st t (infinity, None) Hwf Hfresh Hsrc)
    as [[[st' t'] [gc gp]] ->].
  simpl. eauto.
Qed.

Lemma train_returns_witness :
  let cfg := Scenario.qlearning_cfg Scenario.ring Scenario.delay_only 3 in
  let st0 := Scenario.qlearning_init Scenario.ring 1 in
  is_Some (QLearningRouter.train (H := Scenario.delay_metrics) Scenario.draws cfg 0 2 5 st0 0) ∧
  is_Some (QLearningRouter.run_multiple (H := Scenario.delay_metrics) Scenario.draws cfg
             0 2 5 2 st0 0).
Proof.
  intros cfg st0.
  apply (train_returns (H := Scenario.delay_metrics) Scenario.draws cfg st0 0 2 5%float 2 0).
  - apply (reach_new Scenario.draws cfg Scenario.delay_only 0.15%float 0.92%float 1%float
             0.01%float 0.99%float 3 100 (-2.0)%float 0.5%float st0).
    reflexivity.
  - apply (bool_decide_unpack _). vm_compute. exact I.
  - apply (bool_decide_unpack _). vm_compute. exact I.
Defined.

(** X5. [QLearningRouter.train] raises at once ([KeyError] on
    [self.Q[state]]) when the source has no row in the Q-table, unless
    there is nothing to do: the source is the destination, or [episodes]
    or [max_steps] is 0. *)
Theorem train_unknown_source `{!Metrics} (rng : Rng) (cfg : QLearningRouter.Config)
    (src dst : node) (d : float) (st : QLearningRouter.State) (t : nat) :
  dict_get src (QLearningRouter.Q st) = None →
  src ≠ dst →
  (0 < QLearningRouter.episodes cfg)%nat →
  (0 < QLearningRouter.max_steps cfg)%nat →
  QLearningRouter.train rng cfg src dst d st t = None.
Proof.
  intros Hq Hne He Hm. unfold QLearningRouter.train.
  destruct (QLearningRouter.episodes cfg) as [|n]; [lia|]. simpl.
  destruct (QLearningRouter.max_steps cfg) as [|m]; [lia|]. simpl.
  rewrite decide_False by done.
  unfold QLearningRouter.step. simpl. by rewrite Hq.
Qed.

Lemma train_unknown_source_witness :
  QLearningRouter.train (H := Scenario.delay_metrics) Scenario.draws
    (Scenario.qlearning_cfg Scenario.ring Scenario.delay_only 3) 7 2 5
    (Scenario.qlearning_init Scenario.ring 1) 0 = None.
Proof.
  apply (train_unknown_source (H := Scenario.delay_metrics)).
  - reflexivity.
  - discriminate.
  - simpl. lia.
  - simpl. lia.
Defined.

(** X6. The best path of a newly built [QLearningRouter] passes the
    router's own check: after [train(src, dst, demand_bw)] on the instance
    [__init__] built, [get_path_metrics(get_best_path(), demand_bw)] raises
    nothing and is a valid record for a retained path, with that path,
    [hop_count = len(path) - 1], and a [total_cost] that floored at [1e-6]
    is the router's [best_cost]. *)
Theorem fresh_train_passes_metrics `{!Metrics} (rng : Rng) (g : Graph) (w : Weights)
    (a gm e me ed : float) (ep ms : nat) (sp pb : float)
    (cfg : QLearningRouter.Config) (st0 st' : QLearningRouter.State)
    (src dst : node) (d : float) (t t' : nat) (p : list node) :
  QLearningRouter.new g w a gm e me ed ep ms sp pb = Some (cfg, st0) →
  QLearningRouter.train rng cfg src dst d st0 t = Some (st', t') →
  QLearningRouter.get_best_path st' = Some p →
  ∃ r, QLearningRouter.get_path_metrics cfg (Some p) d = Some (Valid r) ∧
       m_path r = p ∧ m_hop_count r = (length p - 1)%nat ∧
       QLearningRouter.best_cost st' = PyFloat.max2 (m_total_cost r) 1e-6%float.
Proof.
  intros Hnew Htr Hp.
  assert (Hg : g = QLearningRouter.graph cfg).
  { unfold QLearningRouter.new in Hnew.
    destruct (QLearningRouter.fresh_Q g); simpl in Hnew; [|done].
    by injection Hnew as <- _. }
  subst g.
  destruct (new_train_metrics rng cfg _ _ _ _ _ _ _ _ _ _ _ _ _ _ _ _ _ _ Hnew Htr Hp)
    as (_ & _ & Hcost & r & Hr & Hpath & Htotal & Hhops).
  exists r. split; [done|]. split; [done|]. split; [done|]. by rewrite Htotal.
Qed.

Lemma fresh_train_passes_metrics_witness :
  let cfg := Scenario.qlearning_cfg Scenario.ring Scenario.delay_only 3 in
  ∃ r, QLearningRouter.get_path_metrics (H := Scenario.delay_metrics) cfg (Some [0; 3; 2]) 5
         = Some (Valid r) ∧ m_path r = [0; 3; 2].
Proof.
  intros cfg.
  pose (st0 := Scenario.qlearning_init Scenario.ring 1).
  pose (r := Scenario.after st0
    (QLearningRouter.train (H := Scenario.delay_metrics) Scenario.draws cfg 0 2 5 st0 0)).
  destruct (fresh_train_passes_metrics (H := Scenario.delay_metrics) Scenario.draws
              Scenario.ring Scenario.delay_only 0.15%float 0.92%float 1%float
              0.01%float 0.99%float 3 100 (-2.0)%float 0.5%float
              cfg st0 r.1 0 2 5%float 0 r.2 [0; 3; 2])
    as (m & Hm & Hpath & _).
  - reflexivity.
  - vm_compute. reflexivity.
  - vm_compute. reflexivity.
  - exists m. by split.
Defined.

(** X7. What [run_multiple] leaves behind: it returns the path it retains;
    that path is a simple path of the network that carries the demand, was
    retained by one of the runs, and costs no more than the path any run
    retained; [best_cost] is its weighted cost as computed, without the
    [1e-6] floor [train] applies, and [inf] when no run retained a path,
    which is exactly when [None] is returned. *)
Theorem run_multiple_outcome `{!Metrics} (rng : Rng) (cfg : QLearningRouter.Config)
    (src dst : node) (d : float) (runs : nat) (st st' : QLearningRouter.State)
    (t t' : nat) (r : option (list node)) :
  QLearningRouter.run_multiple rng cfg src dst d runs st t = Some (r, st', t') →
  QLearningRouter.get_best_path st' = r ∧
  QLearningRouter.best_cost st'
    = from_option (QLearningRouter.path_cost cfg) infinity r ∧
  (∀ p, r = Some p →
     Graph.simple_walk (QLearningRouter.graph cfg) p ∧
     Graph.feasible (QLearningRouter.graph cfg) 0 d p) ∧
  ∃ sts, run_states rng cfg src dst d runs t = Some (sts, t') ∧ length sts = runs ∧
    (r = None ↔ ∀ s, s ∈ sts → QLearningRouter.best_path s = None) ∧
    (∀ p, r = Some p → ∃ s, s ∈ sts ∧ QLearningRouter.best_path s = Some p) ∧
    (∀ s q, s ∈ sts → QLearningRouter.best_path s = Some q →
       ∃ p, r = Some p ∧
            (QLearningRouter.path_cost cfg p <=? QLearningRouter.path_cost cfg q)%float = true).
Proof.
  intros Hrun.
  pose proof (run_multiple_recorded rng cfg _ _ _ _ _ _ _ _ _ Hrun) as [Hbp Hrec].
  pose proof (run_multiple_best_of_runs rng cfg _ _ _ _ _ _ _ _ _ Hrun) as Hbest.
  split; [done|]. split; [|split; [exact Hrec|exact Hbest]].
  unfold QLearningRouter.run_multiple in Hrun.
  destruct (QLearningRouter.run_loop _ _ _ _ _ _ _ _ _) as [[[st1 t1] [gc gp]]|] eqn:Hloop;
    simpl in Hrun; [|done].
  injection Hrun as <- <- <-. simpl.
  apply run_loop_best_of_runs in Hloop as (_ & _ & _ & Hinv & _); [|done].
  unfold global_best_inv in Hinv. simpl in Hinv.
  destruct gp as [p|]; simpl; [by destruct Hinv|done].
Qed.

Lemma run_multiple_outcome_witness :
  let cfg := Scenario.qlearning_cfg Scenario.ring Scenario.delay_only 3 in
  let st0 := Scenario.qlearning_init Scenario.ring 1 in
  let st1 := (default (None, st0, 0)
    (QLearningRouter.run_multiple (H := Scenario.delay_metrics) Scenario.draws cfg
       0 2 5 2 st0 0)).1.2 in
  QLearningRouter.get_best_path st1 = Some [0; 3; 2] ∧
  QLearningRouter.best_cost st1 = 2%float.
Proof.
  intros cfg st0 st1.
  pose (out := default (None, st0, 0)
    (QLearningRouter.run_multiple (H := Scenario.delay_metrics) Scenario.draws cfg
       0 2 5 2 st0 0)).
  destruct (run_multiple_outcome (H := Scenario.delay_metrics) Scenario.draws cfg
              0 2 5%float 2 st0 out.1.2 0 out.2 (Some [0; 3; 2])) as (Hbp & Hbc & _).
  - vm_compute. reflexivity.
  - split; [exact Hbp|]. etrans; [exact Hbc|]. vm_compute. reflexivity.
Defined.

End QLearningProperties.

(** ** ACORouter: what the ants and the pheromone update keep *)

Section ACOTrace.
Import ACORouter.
Context `{!Metrics} `{!FloatPow} (rng : Rng) (cfg : Config).
Local Open Scope float_scope.

(** *** The route of an ant *)

Lemma construct_loop_route ph src dst d bound fuel t current path visited p t' :
  (∃ tl, path = src :: tl) → (∃ p0, path = p0 ++ [current]) →
  (length path + fuel ≤ bound + 1)%nat →
  construct_loop rng cfg ph dst d fuel t current path visited = Some (Some p, t') →
  head p = Some src ∧ last p = Some dst ∧ (1 ≤ length p ≤ bound)%nat.
Proof.
  revert t current path visited. induction fuel as [|fuel IH];
    intros t current path visited Hhd Hlast Hlen; simpl; [done|].
  destruct (decide (current = dst)) as [->|Hne].
  { intros [= <- <-]. destruct Hhd as [tl ->]. destruct Hlast as [p0 Hp0].
    split; [done|]. split; [by rewrite Hp0, last_snoc|]. simpl in *. lia. }
  destruct (Graph.neighbors (graph cfg) current) as [ns|]; simpl; [|done].
  destruct (valid_neighbors _ _ _ _ _) as [valid|]; simpl; [|done].
  destruct valid as [|v0 valid']; [done|].
  destruct (attractiveness _ _ _ _) as [probs|]; simpl; [|done].
  destruct (next_node _ _ _ _) as [next|]; simpl; [|done].
  apply IH.
  - destruct Hhd as [tl ->]. by exists (tl ++ [next]).
  - by exists path.
  - rewrite length_app. simpl. lia.
Qed.

Lemma construct_path_route ph src dst d t p t' :
  construct_path rng cfg ph src dst d t = Some (Some p, t') →
  head p = Some src ∧ last p = Some dst ∧ (1 ≤ length p ≤ length (nodes cfg) * 2)%nat.
Proof.
  apply construct_loop_route; simpl; [by exists []|by exists []|lia].
Qed.

(** *** The retained best *)

(** [best_cost] is the cost of [best_path], a number below [inf], and
    [inf] without one; the path is an ant's route. *)
Definition best_of_ants (src dst : node) (st : State) : Prop :=
  match best_path st with
  | None => best_cost st = infinity
  | Some p =>
      best_cost st = calculate_path_cost cfg p ∧ (best_cost st <? infinity) = true ∧
      head p = Some src ∧ last p = Some dst ∧ (1 ≤ length p ≤ length (nodes cfg) * 2)%nat
  end.

Lemma best_of_ants_number src dst st : best_of_ants src dst st → PyFloat.is_number (best_cost st).
Proof.
  unfold best_of_ants. destruct (best_path st).
  - intros (_ & Hlt & _). by apply ltb_is_number in Hlt as [? _].
  - intros ->. apply is_number_infinity.
Qed.

Lemma record_best_of_ants src dst st p :
  best_of_ants src dst st →
  head p = Some src ∧ last p = Some dst ∧ (1 ≤ length p ≤ length (nodes cfg) * 2)%nat →
  best_of_ants src dst (record_best st (calculate_path_cost cfg p) p).
Proof.
  intros Hst Hp. unfold record_best.
  destruct (calculate_path_cost cfg p <? best_cost st) eqn:Hlt; [|done].
  unfold best_of_ants. simpl. split; [done|]. split; [|done].
  eapply ltb_leb_trans; [exact Hlt|]. by apply leb_infinity, (best_of_ants_number src dst).
Qed.

Lemma send_ants_best_of_ants src dst d ants st t all st' t' all' :
  best_of_ants src dst st →
  send_ants rng cfg src dst d ants st t all = Some (st', t', all') →
  best_of_ants src dst st'.
Proof.
  revert st t all. induction ants as [|ants IH]; intros st t all Hst; simpl.
  - by intros [= <- <- <-].
  - destruct (construct_path _ _ _ _ _ _ _) as [[[p|] t1]|] eqn:Hc; simpl; [| |done].
    + apply IH. apply record_best_of_ants; [done|]. by eapply construct_path_route.
    + by apply IH.
Qed.

Lemma iterate_best_of_ants src dst d n st t st' t' :
  best_of_ants src dst st →
  iterate rng cfg src dst d n st t = Some (st', t') → best_of_ants src dst st'.
Proof.
  revert st t. induction n as [|n IH]; intros st t Hst; simpl.
  - by intros [= <- <-].
  - destruct (send_ants _ _ _ _ _ _ _ _ _) as [[[st1 t1] all]|] eqn:Hs; simpl; [|done].
    apply send_ants_best_of_ants in Hs; [|done].
    destruct (update_pheromones _ _ _) as [ph'|]; simpl; [|done].
    by apply IH.
Qed.

(** *** The cheapest ant of an iteration *)



(** *** The pheromone table *)

Lemma deposit_path_dom ph pc ph' :
  deposit_path cfg ph pc = Some ph' → dom ph' = dom ph.
Proof.
  unfold deposit_path. destruct (PyFloat.div _ _) as [dep|]; simpl; [|done].
  intros [= <-]. generalize (pairs pc.1) as l. intros l. revert ph.
  induction l as [|[u v] l IH]; intros ph; simpl; [done|].
  rewrite IH. unfold add_deposit. by rewrite !dom_alter_L.
Qed.

(** A property of the table that evaporation and every deposit keep is
    kept by the update. *)
Lemma update_pheromones_keeps (P : gmap (node * node) float → Prop) ph all ph' :
  (∀ ph0 pc ph1, P ph0 → deposit_path cfg ph0 pc = Some ph1 → P ph1) →
  P (evaporate cfg <$> ph) →
  update_pheromones cfg ph all = Some ph' → P ph'.
Proof.
  intros Hdep. unfold update_pheromones.
  generalize (evaporate cfg <$> ph) as ph0. intros ph0 Hph0.
  revert ph0 Hph0. induction all as [|pc all IH]; intros ph0 Hph0; simpl.
  - by intros [= <-].
  - destruct (deposit_path cfg ph0 pc) as [ph1|] eqn:Hd; simpl.
    + apply IH. by eapply Hdep.
    + assert (Hnone : ∀ l, fold_left (λ acc pc0, ph2 ← acc; deposit_path cfg ph2 pc0) l None
                           = None).
      { induction l as [|x l IHl]; [done|]. simpl. apply IHl. }
      by rewrite Hnone.
Qed.

Lemma update_pheromones_dom ph all ph' :
  update_pheromones cfg ph all = Some ph' → dom ph' = dom ph.
Proof.
  apply (update_pheromones_keeps (λ m, dom m = dom ph)).
  - intros ph0 pc ph1 Hdom Hd. by rewrite (deposit_path_dom _ _ _ Hd).
  - by rewrite dom_fmap_L.
Qed.

(** Both directions of an edge carry the same pheromone. *)
Definition symmetric (ph : gmap (node * node) float) : Prop :=
  ∀ u v, ph !! (u, v) = ph !! (v, u).

Lemma alter_both_lookup (f : float → float) (ph : gmap (node * node) float) u v a b :
  alter f (v, u) (alter f (u, v) ph) !! (a, b) =
  (if decide ((a, b) = (v, u)) then fmap f else id)
    ((if decide ((a, b) = (u, v)) then fmap f else id) (ph !! (a, b))).
Proof.
  destruct (decide ((a, b) = (v, u))) as [->|Hne1].
  - rewrite lookup_alter_eq. f_equal.
    destruct (decide ((v, u) = (u, v))) as [Heq|Hne2].
    + rewrite <- Heq. by rewrite lookup_alter_eq.
    + by rewrite lookup_alter_ne.
  - rewrite lookup_alter_ne by done. simpl.
    destruct (decide ((a, b) = (u, v))) as [->|Hne2].
    + by rewrite lookup_alter_eq.
    + by rewrite lookup_alter_ne.
Qed.

Lemma alter_both_symmetric (f : float → float) ph u v :
  symmetric ph → symmetric (alter f (v, u) (alter f (u, v) ph)).
Proof.
  intros Hs a b. rewrite !alter_both_lookup, (Hs a b).
  destruct (decide ((a, b) = (v, u))) as [E1|N1],
    (decide ((a, b) = (u, v))) as [E2|N2],
    (decide ((b, a) = (v, u))) as [E3|N3],
    (decide ((b, a) = (u, v))) as [E4|N4];
    first [reflexivity|congruence].
Qed.

Lemma deposit_path_symmetric ph pc ph' :
  symmetric ph → deposit_path cfg ph pc = Some ph' → symmetric ph'.
Proof.
  unfold deposit_path. destruct (PyFloat.div _ _) as [dep|]; simpl; [|done].
  intros Hs [= <-]. revert Hs. generalize (pairs pc.1) as l. intros l. revert ph.
  induction l as [|[u v] l IH]; intros ph Hs; simpl; [done|].
  apply IH. by apply alter_both_symmetric.
Qed.

Lemma update_pheromones_symmetric ph all ph' :
  symmetric ph → update_pheromones cfg ph all = Some ph' → symmetric ph'.
Proof.
  intros Hs. apply (update_pheromones_keeps symmetric).
  - intros ph0 pc ph1. apply deposit_path_symmetric.
  - intros u v. by rewrite !lookup_fmap, (Hs u v).
Qed.

Lemma send_ants_pheromones src dst d ants st t all st' t' all' :
  send_ants rng cfg src dst d ants st t all = Some (st', t', all') →
  pheromones st' = pheromones st.
Proof.
  revert st t all. induction ants as [|ants IH]; intros st t all; simpl.
  - by intros [= <- <- <-].
  - destruct (construct_path _ _ _ _ _ _ _) as [[[p|] t1]|]; simpl; [| |done].
    + intros Hs. apply IH in Hs. by rewrite Hs, record_best_pheromones.
    + apply IH.
Qed.

Lemma iterate_pheromone_table src dst d n st t st' t' :
  iterate rng cfg src dst d n st t = Some (st', t') →
  dom (pheromones st') = dom (pheromones st) ∧
  (symmetric (pheromones st) → symmetric (pheromones st')).
Proof.
  revert st t. induction n as [|n IH]; intros st t; simpl.
  - by intros [= <- <-].
  - destruct (send_ants _ _ _ _ _ _ _ _ _) as [[[st1 t1] all]|] eqn:Hs; simpl; [|done].
    destruct (update_pheromones _ _ _) as [ph'|] eqn:Hup; simpl; [|done].
    intros Hit. apply IH in Hit as [Hdom Hsym]. simpl in *.
    apply send_ants_pheromones in Hs as Hph. rewrite Hph in Hup.
    split.
    + by rewrite Hdom, (update_pheromones_dom _ _ _ Hup).
    + intros Hsy. by apply Hsym, (update_pheromones_symmetric _ _ _ Hsy Hup).
Qed.

End ACOTrace.

(** ** Networks as networkx builds them *)

Section Networks.
Context (g : Graph).
Local Open Scope float_scope.

(** Every node has an adjacency row, and every neighbour is a node. *)
Definition network : Prop :=
  neighbours_are_nodes g ∧ Forall (λ n, is_Some (dict_get n (g_adj g))) (Graph.nodes g).

(** A walk from a node of the network stays on its nodes. *)
Lemma walk_on_nodes p :
  neighbours_are_nodes g → Graph.is_walk g p →
  (∀ n, head p = Some n → n ∈ Graph.nodes g) → Graph.on_nodes g p.
Proof.
  intros Hnb. unfold Graph.is_walk, Graph.on_nodes.
  induction p as [|u p IH]; intros Hw Hhd; [constructor|].
  constructor; [apply dict_keys_get, Hhd; done|].
  destruct p as [|v p]; [constructor|]. simpl in Hw.
  apply Forall_cons in Hw as [[e He] Hw]. simpl in He.
  apply IH; [done|]. intros n [= <-].
  unfold Graph.edges in He.
  destruct (dict_get u (g_adj g)) as [nbrs|] eqn:Hnbrs; simpl in He; [|done].
  apply dict_get_elem_of in Hnbrs. unfold neighbours_are_nodes in Hnb.
  rewrite Forall_forall in Hnb. specialize (Hnb _ Hnbrs). simpl in Hnb.
  rewrite Forall_forall in Hnb. apply Hnb. apply dict_get_keys. eauto.
Qed.

(** The table [_initialize_pheromones] builds from an empty one. *)
Lemma initialize_pheromones_lookup (k : node * node) :
  ACORouter.initialize_pheromones g ∅ !! k =
  if decide (touches (Graph.edge_list g) k) then Some 1.0 else None.
Proof.
  unfold ACORouter.initialize_pheromones.
  assert (Hfold : ∀ l (ph : gmap (node * node) float),
    fold_left (λ ph '(u, v), <[(v, u) := 1.0]> (<[(u, v) := 1.0]> ph)) l ph !! k =
    if decide (touches l k) then Some 1.0 else ph !! k).
  { induction l as [|[u v] l IH]; intros ph; cbn [fold_left].
    - rewrite decide_False; [done|]. by intros [?%elem_of_nil|?%elem_of_nil].
    - rewrite IH. unfold touches. destruct k as [a b]; cbn [fst snd].
      destruct (decide ((a, b) ∈ l ∨ (b, a) ∈ l)) as [Ht|Ht].
      + rewrite decide_True; [done|]. destruct Ht; [left|right]; by apply list_elem_of_further.
      + destruct (decide ((a, b) = (v, u))) as [[= -> ->]|N1].
        * rewrite lookup_insert_eq. rewrite decide_True; [done|].
          right. apply list_elem_of_here.
        * rewrite lookup_insert_ne by done.
          destruct (decide ((a, b) = (u, v))) as [[= -> ->]|N2].
          -- rewrite lookup_insert_eq. rewrite decide_True; [done|].
             left. apply list_elem_of_here.
          -- rewrite lookup_insert_ne by done. rewrite decide_False; [done|].
             rewrite !elem_of_cons. intros [[?|?]|[[= -> ->]|?]]; tauto. }
  rewrite Hfold. by rewrite lookup_empty.
Qed.

End Networks.

(** ** ACORouter: the best path and the router's own check *)

Section ACOInstances.
Import ACORouter.
Context `{!Metrics} `{!FloatPow} (rng : Rng) (cfg : Config).
Local Open Scope float_scope.

(** The best path of a trained router through the router's own
    [get_path_metrics]. *)
Lemma aco_train_metrics src dst d st t st' t' p :
  neighbours_are_nodes (graph cfg) →
  src ∈ Graph.nodes (graph cfg) →
  train rng cfg src dst d st t = Some (st', t') →
  get_best_path st' = Some p →
  (1 < length p)%nat →
  ∃ r, get_path_metrics cfg (Some p) d = Some (Valid r) ∧
       m_path r = p ∧ m_total_cost r = best_cost st' ∧
       (d <=? m_bottleneck_bw r) = true.
Proof.
  unfold get_best_path. intros Hnb Hsrc Htr Hp Hlen.
  pose proof (train_best_ok rng cfg _ _ _ _ _ _ _ Htr p Hp) as ([_ Hwalk] & bws & Hbws & Hall).
  assert (Hout : best_of_ants cfg src dst st').
  { unfold train in Htr. apply (iterate_best_of_ants rng cfg src dst) in Htr; [done|].
    reflexivity. }
  unfold best_of_ants in Hout. rewrite Hp in Hout.
  destruct Hout as (Hcost & _ & Hhd & _).
  assert (Hnodes : Graph.on_nodes (graph cfg) p).
  { apply walk_on_nodes; [done|done|]. intros n Hn. congruence. }
  assert (Hd : PyFloat.is_number d).
  { apply edge_bandwidths_length in Hbws as Hl.
    destruct bws as [|b bws]; simpl in Hl; [lia|].
    apply Forall_cons in Hall as [Hb _]. by apply leb_is_number in Hb as [? _]. }
  assert (Hmin : (d <=? fold_left PyFloat.min2 bws infinity) = true).
  { apply fold_min2_lower_bound; [by apply leb_infinity|done]. }
  unfold get_path_metrics.
  rewrite decide_False by lia. rewrite Hbws. simpl.
  rewrite (leb_ltb_false _ _ Hmin).
  destruct (path_reliability_is_Some _ p Hwalk Hnodes) as [rel ->]. simpl.
  eexists. split; [done|]. simpl. by rewrite Hcost.
Qed.

End ACOInstances.

(** ** The pheromone table of a new ACORouter *)

Section PheromoneKeys.
Context (g : Graph).
Local Open Scope float_scope.

(** The adjacency of an undirected network: [v] in [adj[u]] gives [u] in
    [adj[v]]. *)
Definition undirected : Prop :=
  Forall (λ row, Forall (λ v, is_Some (Graph.edges g v row.1)) (dict_keys row.2)) (g_adj g).

Lemma undirected_edges u v :
  undirected → is_Some (Graph.edges g u v) → is_Some (Graph.edges g v u).
Proof.
  intros Hun He. unfold Graph.edges in He.
  destruct (dict_get u (g_adj g)) as [nu|] eqn:Hu; simpl in He; [|done].
  apply dict_get_elem_of in Hu. unfold undirected in Hun.
  rewrite Forall_forall in Hun. specialize (Hun _ Hu). simpl in Hun.
  rewrite Forall_forall in Hun. by apply Hun, dict_get_keys.
Qed.

Lemma dict_get_NoDup {A} (d : list (node * A)) k x :
  NoDup (dict_keys d) → (k, x) ∈ d → dict_get k d = Some x.
Proof.
  induction d as [|[k0 x0] d IH]; simpl; [by intros _ ?%elem_of_nil|].
  intros [Hnew Hnd]%NoDup_cons [[= -> ->]|Hin]%elem_of_cons.
  - by rewrite decide_True.
  - rewrite decide_False; [by apply IH|].
    intros ->. apply Hnew. by apply (list_elem_of_fmap_2 fst) in Hin.
Qed.

Lemma edge_list_from_elem seen adj u v :
  (u, v) ∈ Graph.edge_list_from seen adj → ∃ nbrs, (u, nbrs) ∈ adj ∧ v ∈ dict_keys nbrs.
Proof.
  revert seen. induction adj as [|[n nbrs] adj IH]; intros seen; simpl.
  - by intros ?%elem_of_nil.
  - intros [Hin|Hin]%elem_of_app.
    + apply list_elem_of_fmap in Hin as (x & [= -> ->] & Hx).
      apply list_elem_of_filter in Hx as [_ Hx].
      exists nbrs. split; [apply list_elem_of_here|done].
    + destruct (IH _ Hin) as (nb & Hnb & Hv).
      exists nb. split; [by apply list_elem_of_further|done].
Qed.

Lemma edge_list_from_covers seen adj u v nu nv :
  NoDup (dict_keys adj) →
  (u, nu) ∈ adj → v ∈ dict_keys nu → (v, nv) ∈ adj → u ∈ dict_keys nv →
  u ∉ seen → v ∉ seen → touches (Graph.edge_list_from seen adj) (u, v).
Proof.
  revert seen. induction adj as [|[n nbrs] adj IH]; intros seen; simpl.
  - by intros _ ?%elem_of_nil.
  - intros [Hnew Hnd]%NoDup_cons Hu Hvk Hv Huk Hus Hvs.
    assert (Hkey : ∀ k x, (k, x) ∈ adj → k ≠ n).
    { intros k x Hin ->. apply Hnew. by apply (list_elem_of_fmap_2 fst) in Hin. }
    apply elem_of_cons in Hu as [[= -> ->]|Hu].
    { left. apply elem_of_app. left. simpl.
      apply (list_elem_of_fmap_2 (λ nbr, (n, nbr))). by apply list_elem_of_filter. }
    apply elem_of_cons in Hv as [[= -> ->]|Hv].
    { right. apply elem_of_app. left. simpl.
      apply (list_elem_of_fmap_2 (λ nbr, (n, nbr))). by apply list_elem_of_filter. }
    destruct (IH (n :: seen) Hnd Hu Hvk Hv Huk) as [Hin|Hin].
    + rewrite not_elem_of_cons. split; [by eapply Hkey|done].
    + rewrite not_elem_of_cons. split; [by eapply Hkey|done].
    + left. apply elem_of_app. by right.
    + right. apply elem_of_app. by right.
Qed.

Lemma touches_edge_list u v :
  NoDup (dict_keys (g_adj g)) → undirected →
  touches (Graph.edge_list g) (u, v) ↔ is_Some (Graph.edges g u v).
Proof.
  intros Hnd Hun. unfold Graph.edge_list.
  assert (Hfwd : ∀ a b, (a, b) ∈ Graph.edge_list_from [] (g_adj g) →
                        is_Some (Graph.edges g a b)).
  { intros a b (nbrs & Hrow & Hb)%edge_list_from_elem.
    unfold Graph.edges. rewrite (dict_get_NoDup _ _ _ Hnd Hrow). simpl.
    by apply dict_keys_get. }
  split.
  - intros [Hin|Hin]; simpl in Hin; [by apply Hfwd|].
    by apply undirected_edges, Hfwd.
  - intros He. pose proof (undirected_edges u v Hun He) as He'.
    unfold Graph.edges in He, He'.
    destruct (dict_get u (g_adj g)) as [nu|] eqn:Hu; simpl in He; [|done].
    destruct (dict_get v (g_adj g)) as [nv|] eqn:Hv; simpl in He'; [|done].
    apply (edge_list_from_covers [] (g_adj g) u v nu nv); try done.
    + by apply dict_get_elem_of.
    + by apply dict_get_keys.
    + by apply dict_get_elem_of.
    + by apply dict_get_keys.
    + apply not_elem_of_nil.
    + apply not_elem_of_nil.
Qed.

Lemma touches_swap (l : list (node * node)) u v : touches l (u, v) ↔ touches l (v, u).
Proof. unfold touches. simpl. tauto. Qed.

Lemma initialize_pheromones_symmetric : symmetric (ACORouter.initialize_pheromones g ∅).
Proof.
  intros u v. rewrite !initialize_pheromones_lookup.
  destruct (decide (touches (Graph.edge_list g) (u, v))) as [Ht|Ht].
  - rewrite decide_True; [done|]. by apply touches_swap.
  - rewrite decide_False; [done|]. by rewrite touches_swap.
Qed.

End PheromoneKeys.

(** ** ACORouter: properties of [train], the ants and the pheromones *)

Section ACOProperties.

(** X8. What [ACORouter.train] leaves behind: without a best path
    [best_cost] is [inf]; with one, [best_cost] is that path's weighted
    cost, a number below [inf] (neither [inf] nor NaN), and the path starts
    at [src], ends at [dst] and has at most [2 * len(nodes)] nodes. *)
Theorem aco_train_outcome `{!Metrics} `{!FloatPow} (rng : Rng) (cfg : ACORouter.Config)
    (src dst : node) (d : float) (st st' : ACORouter.State) (t t' : nat) :
  ACORouter.train rng cfg src dst d st t = Some (st', t') →
  match ACORouter.get_best_path st' with
  | None => ACORouter.best_cost st' = infinity
  | Some p =>
      ACORouter.best_cost st' = ACORouter.calculate_path_cost cfg p ∧
      (ACORouter.best_cost st' <? infinity)%float = true ∧
      head p = Some src ∧ last p = Some dst ∧
      (1 ≤ length p ≤ length (ACORouter.nodes cfg) * 2)%nat
  end.
Proof.
  intros Htr. unfold ACORouter.train in Htr.
  apply (iterate_best_of_ants rng cfg src dst) in Htr; [exact Htr|].
  reflexivity.
Qed.

Lemma aco_train_outcome_witness :
  let ac := Scenario.aco Scenario.ring Scenario.delay_only 2 2 in
  let st1 := (Scenario.after ac.2
    (ACORouter.train (H := Scenario.delay_metrics) (H0 := Scenario.pow12)
       Scenario.draws ac.1 0 2 5 ac.2 0)).1 in
  ACORouter.get_best_path st1 = Some [0; 1; 2] ∧
  ACORouter.best_cost st1 = 2%float.
Proof.
  intros ac st1. split; [vm_compute; reflexivity|].
  pose (r := Scenario.after ac.2
    (ACORouter.train (H := Scenario.delay_metrics) (H0 := Scenario.pow12)
       Scenario.draws ac.1 0 2 5 ac.2 0)).
  pose proof (aco_train_outcome (H := Scenario.delay_metrics) (H0 := Scenario.pow12)
                Scenario.draws ac.1 0 2 5%float ac.2 r.1 0 r.2) as Hout.
  assert (Hbp : ACORouter.get_best_path r.1 = Some [0; 1; 2]) by (vm_compute; reflexivity).
  rewrite Hbp in Hout. destruct Hout as [Hc _]; [vm_compute; reflexivity|].
  etrans; [exact Hc|]. vm_compute. reflexivity.
Defined.



(** X10. [ACORouter.train] neither adds a key to the pheromone table nor
    removes one, and it keeps the table symmetric: when both directions of
    every edge carry the same pheromone before the call, they do after
    it. *)
Theorem train_pheromone_table `{!Metrics} `{!FloatPow} (rng : Rng) (cfg : ACORouter.Config)
    (src dst : node) (d : float) (st st' : ACORouter.State) (t t' : nat) :
  ACORouter.train rng cfg src dst d st t = Some (st', t') →
  dom (ACORouter.pheromones st') = dom (ACORouter.pheromones st) ∧
  (symmetric (ACORouter.pheromones st) → symmetric (ACORouter.pheromones st')).
Proof.
  intros Htr. unfold ACORouter.train in Htr.
  by apply iterate_pheromone_table in Htr.
Qed.

Lemma train_pheromone_table_witness :
  let ac := Scenario.aco Scenario.ring Scenario.delay_only 2 2 in
  let st1 := (Scenario.after ac.2
    (ACORouter.train (H := Scenario.delay_metrics) (H0 := Scenario.pow12)
       Scenario.draws ac.1 0 2 5 ac.2 0)).1 in
  symmetric (ACORouter.pheromones st1).
Proof.
  intros ac st1.
  pose (r := Scenario.after ac.2
    (ACORouter.train (H := Scenario.delay_metrics) (H0 := Scenario.pow12)
       Scenario.draws ac.1 0 2 5 ac.2 0)).
  destruct (train_pheromone_table (H := Scenario.delay_metrics) (H0 := Scenario.pow12)
              Scenario.draws ac.1 0 2 5%float ac.2 r.1 0 r.2) as [_ Hsym].
  - vm_compute. reflexivity.
  - apply Hsym. apply initialize_pheromones_symmetric.
Defined.

(** X11. The pheromone table [ACORouter.__init__] builds on an undirected
    network holds exactly the pairs [(u, v)] with [v] a neighbour of [u],
    each at 1.0: [_construct_path]'s [pheromones.get((current, n), 1.0)]
    never falls back on its default there. *)
Theorem new_pheromones_cover (g : Graph) (w : Weights) (ants n : nat)
    (a b ev q : float) (u v : node) :
  NoDup (dict_keys (g_adj g)) → undirected g →
  ACORouter.pheromones (ACORouter.new g w ants n a b ev q).2 !! (u, v) =
  if decide (is_Some (Graph.edges g u v)) then Some 1.0%float else None.
Proof.
  intros Hnd Hun. simpl. rewrite initialize_pheromones_lookup.
  pose proof (touches_edge_list g u v Hnd Hun) as Hiff.
  destruct (decide (touches (Graph.edge_list g) (u, v))) as [Ht|Ht].
  - rewrite decide_True; [done|]. by apply Hiff.
  - rewrite decide_False; [done|]. by rewrite <- Hiff.
Qed.

Lemma new_pheromones_cover_witness :
  ACORouter.pheromones (Scenario.aco Scenario.ring Scenario.delay_only 2 2).2 !! (3, 0)
    = Some 1.0%float ∧
  ACORouter.pheromones (Scenario.aco Scenario.ring Scenario.delay_only 2 2).2 !! (0, 2)
    = None.
Proof.
  assert (Hnd : NoDup (dict_keys (g_adj Scenario.ring))).
  { apply (bool_decide_unpack _). vm_compute. exact I. }
  assert (Hun : undirected Scenario.ring).
  { apply (bool_decide_unpack _). vm_compute. exact I. }
  split.
  - etrans; [exact (new_pheromones_cover Scenario.ring Scenario.delay_only 2 2
                      1.0%float 2.0%float 0.5%float 100.0%float 3 0 Hnd Hun)|].
    vm_compute. reflexivity.
  - etrans; [exact (new_pheromones_cover Scenario.ring Scenario.delay_only 2 2
                      1.0%float 2.0%float 0.5%float 100.0%float 0 2 Hnd Hun)|].
    vm_compute. reflexivity.
Defined.

(** X13. [ACORouter.train] raises with the first ant when the source has
    no adjacency row ([graph.neighbors(current)] fails), unless there is
    nothing to do: the source is the destination, there are no
    iterations or no ants, or the network has no nodes. *)
Theorem aco_train_unknown_source `{!Metrics} `{!FloatPow} (rng : Rng)
    (cfg : ACORouter.Config) (src dst : node) (d : float) (st : ACORouter.State)
    (t : nat) :
  Graph.neighbors (ACORouter.graph cfg) src = None →
  src ≠ dst →
  (0 < ACORouter.iterations cfg)%nat →
  (0 < ACORouter.ant_count cfg)%nat →
  ACORouter.nodes cfg ≠ [] →
  ACORouter.train rng cfg src dst d st t = None.
Proof.
  intros Hnb Hne Hit Hants Hnodes. unfold ACORouter.train.
  destruct (ACORouter.iterations cfg) as [|n]; [lia|]. simpl.
  destruct (ACORouter.ant_count cfg) as [|m]; [lia|]. simpl.
  unfold ACORouter.construct_path.
  destruct (ACORouter.nodes cfg) as [|x xs]; [done|]. simpl.
  rewrite decide_False by done. by rewrite Hnb.
Qed.

Lemma aco_train_unknown_source_witness :
  let ac := Scenario.aco Scenario.ring Scenario.delay_only 2 2 in
  ACORouter.train (H := Scenario.delay_metrics) (H0 := Scenario.pow12)
    Scenario.draws ac.1 7 2 5 ac.2 0 = None.
Proof.
  intros ac.
  apply (aco_train_unknown_source (H := Scenario.delay_metrics) (H0 := Scenario.pow12)).
  - reflexivity.
  - discriminate.
  - simpl. lia.
  - simpl. lia.
  - discriminate.
Defined.

(** X14. The best path of an [ACORouter] passes the router's own check:
    on a network whose neighbours are nodes, after [train(src, dst,
    demand_bw)] from a node [src], [get_path_metrics] of a best path of at
    least two nodes raises nothing and is a valid record, with that path,
    a [total_cost] equal to the router's [best_cost] and a bottleneck that
    carries the demand. *)
Theorem aco_train_passes_metrics `{!Metrics} `{!FloatPow} (rng : Rng)
    (cfg : ACORouter.Config) (src dst : node) (d : float)
    (st st' : ACORouter.State) (t t' : nat) (p : list node) :
  neighbours_are_nodes (ACORouter.graph cfg) →
  src ∈ Graph.nodes (ACORouter.graph cfg) →
  ACORouter.train rng cfg src dst d st t = Some (st', t') →
  ACORouter.get_best_path st' = Some p →
  (1 < length p)%nat →
  ∃ r, ACORouter.get_path_metrics cfg (Some p) d = Some (Valid r) ∧
       m_path r = p ∧ m_total_cost r = ACORouter.best_cost st' ∧
       (d <=? m_bottleneck_bw r)%float = true.
Proof. apply aco_train_metrics. Qed.

Lemma aco_train_passes_metrics_witness :
  let ac := Scenario.aco Scenario.ring Scenario.delay_only 2 2 in
  ∃ r, ACORouter.get_path_metrics (H := Scenario.delay_metrics) ac.1 (Some [0; 1; 2]) 5
         = Some (Valid r) ∧ m_path r = [0; 1; 2].
Proof.
  intros ac.
  pose (r := Scenario.after ac.2
    (ACORouter.train (H := Scenario.delay_metrics) (H0 := Scenario.pow12)
       Scenario.draws ac.1 0 2 5 ac.2 0)).
  destruct (aco_train_passes_metrics (H := Scenario.delay_metrics) (H0 := Scenario.pow12)
              Scenario.draws ac.1 0 2 5%float ac.2 r.1 0 r.2 [0; 1; 2])
    as (m & Hm & Hpath & _).
  - apply (bool_decide_unpack _). vm_compute. exact I.
  - apply (bool_decide_unpack _). vm_compute. exact I.
  - vm_compute. reflexivity.
  - vm_compute. reflexivity.
  - simpl. lia.
  - exists m. by split.
Defined.

End ACOProperties.

(** ** The two routers side by side *)

Section RoutersCompared.

Lemma edge_bandwidths_present (g : Graph) (d1 d2 : float) (p : list node) :
  Forall (λ uv, ∀ e, Graph.edges g uv.1 uv.2 = Some e → is_Some (bandwidth e)) (pairs p) →
  Graph.edge_bandwidths g d1 p = Graph.edge_bandwidths g d2 p.
Proof.
  unfold Graph.edge_bandwidths. generalize (pairs p) as ps.
  induction ps as [|[u v] ps IH]; intros Hall; simpl; [done|].
  apply Forall_cons in Hall as [Huv Hall]. simpl in Huv.
  rewrite (IH Hall). destruct (Graph.edges g u v) as [e|]; simpl; [|done].
  destruct (Huv e eq_refl) as [b ->]. done.
Qed.

(** X15. On a path along edges and nodes of the network whose edges all
    carry a bandwidth that is a number, the two routers' [get_path_metrics]
    agree: both return, both accept or both reject, and when they accept
    the records agree on the path, the total delay, the total reliability,
    the resource cost, the total cost, the bottleneck bandwidth and the hop
    count. *)
Theorem routers_agree_on_metrics `{!Metrics} (qcfg : QLearningRouter.Config)
    (acfg : ACORouter.Config) (p : list node) (d : float) :
  QLearningRouter.graph qcfg = ACORouter.graph acfg →
  QLearningRouter.weights qcfg = ACORouter.weights acfg →
  Graph.is_walk (ACORouter.graph acfg) p →
  Graph.on_nodes (ACORouter.graph acfg) p →
  Graph.numeric_bandwidths (ACORouter.graph acfg) p →
  Forall (λ uv, ∀ e, Graph.edges (ACORouter.graph acfg) uv.1 uv.2 = Some e →
                     is_Some (bandwidth e)) (pairs p) →
  ∃ m1 m2,
    QLearningRouter.get_path_metrics qcfg (Some p) d = Some m1 ∧
    ACORouter.get_path_metrics acfg (Some p) d = Some m2 ∧
    valid m1 = valid m2 ∧
    ∀ r1 r2, m1 = Valid r1 → m2 = Valid r2 →
      m_path r1 = m_path r2 ∧ m_total_delay r1 = m_total_delay r2 ∧
      m_total_reliability r1 = m_total_reliability r2 ∧
      m_resource_cost r1 = m_resource_cost r2 ∧
      m_total_cost r1 = m_total_cost r2 ∧
      m_bottleneck_bw r1 = m_bottleneck_bw r2 ∧
      m_hop_count r1 = m_hop_count r2.
Proof.
  intros Hg Hw Hwalk Hnodes Hnum Hpresent.
  unfold QLearningRouter.get_path_metrics, ACORouter.get_path_metrics.
  rewrite Hg, Hw.
  destruct (decide (length p < 2)%nat) as [Hshort|Hlong].
  { do 2 eexists. split; [done|]. split; [done|]. split; [done|]. by intros r1 r2 [=]. }
  destruct (path_reliability_is_Some _ p Hwalk Hnodes) as [rel ->]. simpl.
  rewrite (edge_bandwidths_present _ infinity 0%float p Hpresent).
  destruct (is_walk_edge_bandwidths (ACORouter.graph acfg) 0%float p Hwalk) as [bws Hbws].
  rewrite Hbws. simpl.
  assert (Hm : ∃ m, PyFloat.min_of bws = Some m).
  { apply edge_bandwidths_length in Hbws as Hl.
    destruct bws as [|x bws]; simpl in *; [lia|eauto]. }
  destruct Hm as [m Hm]. rewrite Hm. simpl.
  assert (Hfold : m = fold_left PyFloat.min2 bws infinity).
  { apply min_of_fold; [|done].
    by apply (edge_bandwidths_numeric (ACORouter.graph acfg) 0%float p). }
  rewrite <- Hfold. destruct (m <? d)%float.
  - do 2 eexists. split; [done|]. split; [done|]. split; [done|]. by intros r1 r2 [=].
  - do 2 eexists. split; [done|]. split; [done|]. split; [done|].
    by intros r1 r2 [= <-] [= <-].
Qed.

Lemma routers_agree_on_metrics_witness :
  valid <$> QLearningRouter.get_path_metrics (H := Scenario.delay_metrics)
              (Scenario.qlearning_cfg Scenario.ring Scenario.delay_only 3) (Some [0; 1; 2]) 5
  = valid <$> ACORouter.get_path_metrics (H := Scenario.delay_metrics)
                (Scenario.aco Scenario.ring Scenario.delay_only 2 2).1 (Some [0; 1; 2]) 5.
Proof.
  destruct (routers_agree_on_metrics (H := Scenario.delay_metrics)
              (Scenario.qlearning_cfg Scenario.ring Scenario.delay_only 3)
              (Scenario.aco Scenario.ring Scenario.delay_only 2 2).1 [0; 1; 2] 5)
    as (m1 & m2 & H1 & H2 & Hv & _).
  - reflexivity.
  - reflexivity.
  - apply (bool_decide_unpack _). vm_compute. exact I.
  - apply (bool_decide_unpack _). vm_compute. exact I.
  - repeat constructor; simpl; intros e b [= <-] [= <-]; reflexivity.
  - repeat constructor; simpl; intros e [= <-]; simpl; eauto.
  - etrans; [exact (f_equal (fmap valid) H1)|]. symmetry.
    etrans; [exact (f_equal (fmap valid) H2)|]. simpl. by rewrite Hv.
Defined.

(** X16. A path of two or more nodes that leaves the network makes
    [get_path_metrics] raise in both routers ([KeyError] on
    [graph.edges[u, v]]) instead of reporting an invalid path: when some
    consecutive pair of the path is not an edge, neither returns. *)
Theorem get_path_metrics_off_network `{!Metrics} (qcfg : QLearningRouter.Config)
    (acfg : ACORouter.Config) (p : list node) (d : float) :
  (2 ≤ length p)%nat →
  Exists (λ uv, Graph.edges (QLearningRouter.graph qcfg) uv.1 uv.2 = None) (pairs p) →
  Exists (λ uv, Graph.edges (ACORouter.graph acfg) uv.1 uv.2 = None) (pairs p) →
  QLearningRouter.get_path_metrics qcfg (Some p) d = None ∧
  ACORouter.get_path_metrics acfg (Some p) d = None.
Proof.
  intros Hlen Hq Ha.
  unfold QLearningRouter.get_path_metrics, ACORouter.get_path_metrics.
  rewrite !decide_False by lia. split.
  - unfold path_reliability.
    assert (Hnone : mapM (λ '(u, v), e ← Graph.edges (QLearningRouter.graph qcfg) u v;
                                     Some (default 1.0%float (reliability e))) (pairs p) = None).
    { apply mapM_None. eapply Exists_impl; [exact Hq|].
      intros [u v]; simpl. by intros ->. }
    by rewrite Hnone.
  - assert (Hnone : Graph.edge_bandwidths (ACORouter.graph acfg) 0%float p = None).
    { unfold Graph.edge_bandwidths. apply mapM_None. eapply Exists_impl; [exact Ha|].
      intros [u v]; simpl. by intros ->. }
    by rewrite Hnone.
Qed.

Lemma get_path_metrics_off_network_witness :
  QLearningRouter.get_path_metrics (H := Scenario.delay_metrics)
    (Scenario.qlearning_cfg Scenario.ring Scenario.delay_only 3) (Some [0; 2]) 5 = None ∧
  ACORouter.get_path_metrics (H := Scenario.delay_metrics)
    (Scenario.aco Scenario.ring Scenario.delay_only 2 2).1 (Some [0; 2]) 5 = None.
Proof.
  apply (get_path_metrics_off_network (H := Scenario.delay_metrics)).
  - simpl. lia.
  - apply Exists_cons_hd. reflexivity.
  - apply Exists_cons_hd. reflexivity.
Defined.

End RoutersCompared.

(** ** The panel: the rounds of [calculate_score] *)

Section PanelFacts.
Context `{!Metrics} `{!FloatPow} (rng : Rng) (graph : Graph).
Local Open Scope float_scope.
Local Arguments ACORouter.get_path_metrics : simpl never.
Local Arguments QLearningRouter.get_path_metrics : simpl never.

(** A record the panel may show for the demand [src -> dst] of bandwidth
    [d]: a simple path of the network from [src] to [dst] that carries the
    demand, with its weighted cost and its hop count. *)
Definition shown (w : Weights) (src dst : node) (d : float) (r : MetricsRecord) : Prop :=
  Graph.simple_walk graph (m_path r) ∧ Graph.feasible graph 0 d (m_path r) ∧
  head (m_path r) = Some src ∧ last (m_path r) = Some dst ∧
  m_total_cost r = calculate_weighted_cost (calculate_path_attributes graph (m_path r)) w ∧
  m_hop_count r = (length (m_path r) - 1)%nat.

(** [best_cost] is the cost of [best_metrics], a number below [inf], and
    [inf] without one. *)
Definition best_inv (P : MetricsRecord → Prop) (best : option MetricsRecord * float) : Prop :=
  match best.1 with
  | None => best.2 = infinity
  | Some r => best.2 = m_total_cost r ∧ (m_total_cost r <? infinity) = true ∧ P r
  end.

Lemma best_inv_number P best : best_inv P best → PyFloat.is_number best.2.
Proof.
  unfold best_inv. destruct best.1.
  - intros (-> & Hlt & _). by apply ltb_is_number in Hlt as [? _].
  - intros ->. apply is_number_infinity.
Qed.

Lemma keep_cheapest_inv P metrics best :
  best_inv P best → (∀ r, metrics = Valid r → P r) →
  best_inv P (NetworkApp.keep_cheapest metrics best).
Proof.
  intros Hinv HP. unfold NetworkApp.keep_cheapest.
  destruct metrics as [err|r]; [done|].
  destruct (m_total_cost r <? best.2) eqn:Hlt; [|done].
  unfold best_inv. simpl. split; [done|]. split; [|by apply HP].
  eapply ltb_leb_trans; [exact Hlt|]. by eapply leb_infinity, best_inv_number.
Qed.

Lemma new_config g w a gm e me ed ep ms sp pb cfg st0 :
  QLearningRouter.new g w a gm e me ed ep ms sp pb = Some (cfg, st0) →
  QLearningRouter.graph cfg = g ∧ QLearningRouter.weights cfg = w.
Proof.
  unfold QLearningRouter.new. destruct (QLearningRouter.fresh_Q g); simpl; [|done].
  by intros [= <- _].
Qed.

Lemma q_learning_metrics_valid cfg path d r :
  QLearningRouter.get_path_metrics cfg path d = Some (Valid r) →
  path = Some (m_path r) ∧
  m_total_cost r = QLearningRouter.path_cost cfg (m_path r) ∧
  m_hop_count r = (length (m_path r) - 1)%nat.
Proof.
  unfold QLearningRouter.get_path_metrics. destruct path as [p|]; [|done].
  destruct (decide _); [done|].
  destruct (path_reliability _ _); simpl; [|done].
  destruct (Graph.edge_bandwidths _ _ _); simpl; [|done].
  destruct (PyFloat.min_of _); simpl; [|done].
  destruct (_ <? _); [done|]. by intros [= <-].
Qed.

Lemma aco_metrics_valid cfg path d r :
  ACORouter.get_path_metrics cfg path d = Some (Valid r) →
  path = Some (m_path r) ∧
  m_total_cost r = ACORouter.calculate_path_cost cfg (m_path r) ∧
  m_hop_count r = (length (m_path r) - 1)%nat.
Proof.
  unfold ACORouter.get_path_metrics. destruct path as [p|]; [|done].
  destruct (decide _); [done|].
  destruct (Graph.edge_bandwidths _ _ _); simpl; [|done].
  destruct (_ <? _); [done|].
  destruct (path_reliability _ _); simpl; [|done]. by intros [= <-].
Qed.

Lemma q_learning_rounds_inv w src dst d n t best best' t' :
  best_inv (shown w src dst d) best →
  NetworkApp.q_learning_rounds rng graph w src dst d n t best = Some (best', t') →
  best_inv (shown w src dst d) best'.
Proof.
  revert t best. induction n as [|n IH]; intros t best Hinv; simpl.
  - by intros [= <- <-].
  - destruct (QLearningRouter.new _ _ _ _ _ _ _ _ _ _ _) as [[cfg st0]|] eqn:Hnew;
      simpl; [|done].
    destruct (QLearningRouter.train _ _ _ _ _ _ _) as [[st1 t1]|] eqn:Htr; simpl; [|done].
    destruct (QLearningRouter.get_path_metrics _ _ _) as [metrics|] eqn:Hm; simpl; [|done].
    apply IH. apply keep_cheapest_inv; [done|]. intros r ->.
    apply q_learning_metrics_valid in Hm as (Hp & Hcost & Hhops).
    destruct (new_config _ _ _ _ _ _ _ _ _ _ _ _ _ Hnew) as [Hg Hw].
    rewrite <- Hg in Hnew.
    destruct (new_train_metrics rng cfg _ _ _ _ _ _ _ _ _ _ _ _ _ _ _ _ _ _ Hnew Htr Hp)
      as ([Hwalk Hfeas] & (Hhd & Hlast & _) & _).
    unfold shown. rewrite <- Hg, <- Hw. done.
Qed.

Lemma aco_new_config g w ants n a b ev q cfg st0 :
  ACORouter.new g w ants n a b ev q = (cfg, st0) →
  ACORouter.graph cfg = g ∧ ACORouter.weights cfg = w ∧
  ACORouter.best_path st0 = None.
Proof. unfold ACORouter.new. by intros [= <- <-]. Qed.

Lemma aco_rounds_inv w src dst d n t best best' t' :
  best_inv (shown w src dst d) best →
  NetworkApp.aco_rounds rng graph w src dst d n t best = Some (best', t') →
  best_inv (shown w src dst d) best'.
Proof.
  revert t best. induction n as [|n IH]; intros t best Hinv.
  { simpl. by intros [= <- <-]. }
  cbn [NetworkApp.aco_rounds].
  destruct (ACORouter.new graph w 20 20 1 2 0.5 100) as [cfg st0] eqn:Hnew.
  apply aco_new_config in Hnew as (Hg & Hw & _).
  destruct (ACORouter.train _ _ _ _ _ _ _) as [[st1 t1]|] eqn:Htr; simpl; [|done].
  destruct (ACORouter.get_best_path st1) as [p|] eqn:Hp; [|by apply IH].
  destruct (decide (1 < length p)%nat) as [Hlen|]; [|by apply IH].
  destruct (ACORouter.get_path_metrics _ _ _) as [metrics|] eqn:Hm; simpl; [|done].
  apply IH. apply keep_cheapest_inv; [done|]. intros r ->.
  apply aco_metrics_valid in Hm as ([= Hpath] & Hcost & Hhops).
  pose proof (train_best_ok rng cfg _ _ _ _ _ _ _ Htr p Hp) as Hant.
  assert (Hd : PyFloat.is_number d).
  { destruct Hant as (_ & bws & Hbws & Hall).
    apply edge_bandwidths_length in Hbws as Hl.
    destruct bws as [|b bws]; simpl in Hl; [lia|].
    apply Forall_cons in Hall as [Hb _]. by apply leb_is_number in Hb as [? _]. }
  pose proof (ant_path_feasible cfg d p Hd Hant) as Hfeas.
  unfold ACORouter.train in Htr.
  apply (iterate_best_of_ants rng cfg src dst) in Htr; [|reflexivity].
  unfold best_of_ants in Htr. unfold ACORouter.get_best_path in Hp.
  rewrite Hp in Htr. destruct Htr as (_ & _ & Hhd & Hlast & _).
  destruct Hant as [Hsimple _].
  unfold shown. rewrite <- Hpath. unfold ACORouter.calculate_path_cost in Hcost.
  rewrite <- Hpath, Hg, Hw in Hcost. rewrite Hg in Hsimple, Hfeas.
  rewrite <- Hpath in Hhops.
  pose proof Hsimple as [Hnd Hwalk]. repeat split; assumption.
Qed.

(** *** The rounds raise nothing *)

Lemma network_fresh_Q : network graph → is_Some (QLearningRouter.fresh_Q graph).
Proof.
  intros [_ Hadj]. unfold QLearningRouter.fresh_Q. apply mapM_is_Some.
  eapply Forall_impl; [exact Hadj|]. intros n [nbrs Hn]. simpl.
  unfold Graph.neighbors. rewrite Hn. simpl. eauto.
Qed.

Lemma q_learning_rounds_returns w src dst d n t best :
  network graph → src ∈ Graph.nodes graph →
  is_Some (NetworkApp.q_learning_rounds rng graph w src dst d n t best).
Proof.
  intros Hnet Hsrc. revert t best. induction n as [|n IH]; intros t best; simpl; [eauto|].
  destruct (network_fresh_Q Hnet) as [q Hq].
  destruct (QLearningRouter.new _ _ _ _ _ _ _ _ _ _ _) as [[cfg st0]|] eqn:Hnew; simpl.
  2:{ unfold QLearningRouter.new in Hnew. rewrite Hq in Hnew. done. }
  destruct (new_config _ _ _ _ _ _ _ _ _ _ _ _ _ Hnew) as [Hg Hw].
  assert (HQ : QLearningRouter.Q st0 = q).
  { unfold QLearningRouter.new in Hnew. rewrite Hq in Hnew. simpl in Hnew.
    by injection Hnew as _ <-. }
  destruct (fits_train_returns rng cfg src dst d st0 t) as [[st1 t1] Htr].
  { rewrite HQ. apply fresh_Q_fits; rewrite Hg; [by destruct Hnet|done]. }
  { by rewrite Hg. }
  rewrite Htr. simpl.
  destruct (QLearningRouter.get_best_path st1) as [p|] eqn:Hp; simpl.
  - rewrite <- Hg in Hnew.
    destruct (new_train_metrics rng cfg _ _ _ _ _ _ _ _ _ _ _ _ _ _ _ _ _ _ Hnew Htr Hp)
      as (_ & _ & _ & r & -> & _).
    simpl. apply IH.
  - apply IH.
Qed.

(** *** A demand from a node to itself *)

Lemma q_learning_rounds_at_destination w src d n t best :
  is_Some (QLearningRouter.fresh_Q graph) →
  NetworkApp.q_learning_rounds rng graph w src src d n t best = Some (best, t).
Proof.
  intros [q Hq]. revert best. induction n as [|n IH]; intros best; simpl; [done|].
  unfold QLearningRouter.new. rewrite Hq. simpl.
  unfold QLearningRouter.train.
  match goal with |- context [QLearningRouter.train_episodes rng ?c src src d ?k ?s t] =>
    destruct (qlearning_train_at_destination rng c src d k s t)
      as (st1 & -> & _ & Hbp & _)
  end.
  simpl in *. unfold QLearningRouter.get_best_path. rewrite Hbp. simpl. apply IH.
Qed.

(** The ACO rounds of such a demand: no record, unless the first
    pheromone update raises. *)
Lemma aco_rounds_at_destination w src d n t best :
  NetworkApp.aco_rounds rng graph w src src d n t best =
  if decide (Graph.nodes graph = [] ∨ n = O) then Some (best, t)
  else if calculate_weighted_cost (calculate_path_attributes graph [src]) w + 0.0001 =? 0
       then None else Some (best, t).
Proof.
  destruct (decide (Graph.nodes graph = [])) as [Hno|Hnodes].
  { rewrite decide_True by (by left).
    revert best. induction n as [|n IH]; intros best; [done|].
    cbn [NetworkApp.aco_rounds].
    destruct (ACORouter.new graph w 20 20 1 2 0.5 100) as [cfg st0] eqn:Hnew.
    assert (Hn : ACORouter.nodes cfg = []) by (by injection Hnew as <- _).
    unfold ACORouter.train.
    match goal with |- context [ACORouter.iterate rng cfg src src d ?k ?s t] =>
      pose proof (aco_iterate_at_destination rng cfg src d k s t) as Hiter end.
    simpl in Hiter. rewrite decide_True in Hiter by (by left).
    destruct Hiter as (st1 & -> & Hbp & _). simpl in *.
    unfold ACORouter.get_best_path. rewrite Hbp. apply IH. }
  destruct n as [|n]; [by rewrite decide_True by (by right)|].
  rewrite decide_False by (intros [?|?]; done).
  assert (Hround : ∀ best0 m,
    NetworkApp.aco_rounds rng graph w src src d (S m) t best0 =
    if calculate_weighted_cost (calculate_path_attributes graph [src]) w + 0.0001 =? 0
    then None else NetworkApp.aco_rounds rng graph w src src d m t best0).
  { intros best0 m. cbn [NetworkApp.aco_rounds].
    destruct (ACORouter.new graph w 20 20 1 2 0.5 100) as [cfg st0] eqn:Hnew.
    assert (Hcfg : ACORouter.nodes cfg = Graph.nodes graph ∧ ACORouter.graph cfg = graph ∧
                   ACORouter.weights cfg = w ∧ ACORouter.ant_count cfg = 20%nat ∧
                   ACORouter.iterations cfg = 20%nat)
      by (by injection Hnew as <- _).
    destruct Hcfg as (Hn & Hg & Hw & Hants & Hits).
    unfold ACORouter.train.
    match goal with |- context [ACORouter.iterate rng cfg src src d ?k ?s t] =>
      pose proof (aco_iterate_at_destination rng cfg src d k s t) as Hiter end.
    simpl in Hiter.
    rewrite decide_False in Hiter
      by (rewrite Hn, Hants, Hits; intros [?|[?|?]]; done).
    unfold ACORouter.calculate_path_cost in Hiter. rewrite Hg, Hw in Hiter.
    destruct (_ + 0.0001 =? 0).
    - by rewrite Hiter.
    - destruct Hiter as (st1 & -> & Hbp & _). simpl in *.
      unfold ACORouter.get_best_path. rewrite Hbp.
      unfold ACORouter.record_best. simpl. by destruct (_ <? _). }
  rewrite Hround.
  destruct (_ + 0.0001 =? 0) eqn:Hz; [done|].
  revert best. induction n as [|n IH]; intros best; [done|].
  rewrite Hround. apply IH.
Qed.

End PanelFacts.

(** ** Attributes read with [[...]]: [calculate_metrics_manual] and the experiments *)

Section StrictAttributes.
Context `{!Metrics} `{!FloatPow} (rng : Rng) (graph : Graph).
Local Open Scope float_scope.

Lemma strict_edge_attribute (attr : EdgeData → option float) (dflt : float)
    (ps : list (node * node)) (l : list float) :
  mapM (λ '(u, v), e ← Graph.edges graph u v; attr e) ps = Some l →
  mapM (λ '(u, v), e ← Graph.edges graph u v; Some (default dflt (attr e))) ps = Some l.
Proof.
  revert l. induction ps as [|[u v] ps IH]; intros l; simpl; [done|].
  destruct (Graph.edges graph u v) as [e|]; simpl; [|done].
  destruct (attr e) as [x|]; simpl; [|done].
  destruct (mapM _ ps) as [l'|] eqn:Hl'; simpl; [|done].
  intros [= <-]. by rewrite (IH l' eq_refl).
Qed.

Lemma strict_node_attribute (dflt : float) (p : list node) (l : list float) :
  mapM (λ n, d ← Graph.node_data graph n; node_reliability d) p = Some l →
  mapM (λ n, d ← Graph.node_data graph n; Some (default dflt (node_reliability d))) p
    = Some l.
Proof.
  revert l. induction p as [|n p IH]; intros l; simpl; [done|].
  destruct (Graph.node_data graph n) as [nd|]; simpl; [|done].
  destruct (node_reliability nd) as [x|]; simpl; [|done].
  destruct (mapM _ p) as [l'|] eqn:Hl'; simpl; [|done].
  intros [= <-]. by rewrite (IH l' eq_refl).
Qed.

(** Every bandwidth attribute of the network is a number, not NaN. *)
Definition numeric_network : Prop :=
  Forall (λ row, Forall (λ nb, ∀ b, bandwidth nb.2 = Some b → PyFloat.is_number b) row.2)
         (g_adj graph).

Lemma numeric_network_path p : numeric_network → Graph.numeric_bandwidths graph p.
Proof.
  intros Hnum. unfold Graph.numeric_bandwidths. apply Forall_forall.
  intros [u v] _ e b He Hb. simpl in He. unfold Graph.edges in He.
  destruct (dict_get u (g_adj graph)) as [nbrs|] eqn:Hu; simpl in He; [|done].
  apply dict_get_elem_of in Hu, He. unfold numeric_network in Hnum.
  rewrite Forall_forall in Hnum. specialize (Hnum _ Hu). simpl in Hnum.
  rewrite Forall_forall in Hnum. by apply (Hnum _ He).
Qed.

(** [min(...)] over the bandwidths read with [[...]] is the bottleneck the
    routers compute. *)
Lemma strict_bottleneck p bws m :
  Graph.numeric_bandwidths graph p →
  mapM (λ '(u, v), e ← Graph.edges graph u v; bandwidth e) (pairs p) = Some bws →
  PyFloat.min_of bws = Some m →
  Graph.edge_bandwidths graph 0 p = Some bws ∧
  m = fold_left PyFloat.min2 bws infinity ∧ (2 ≤ length p)%nat.
Proof.
  intros Hnum Hbws Hm.
  apply (strict_edge_attribute bandwidth 0) in Hbws.
  change (Graph.edge_bandwidths graph 0 p = Some bws) in Hbws.
  split; [done|]. split.
  - apply min_of_fold; [|done]. by apply (edge_bandwidths_numeric graph 0 p).
  - apply edge_bandwidths_length in Hbws. destruct bws; simpl in *; [done|lia].
Qed.

Lemma calculate_metrics_manual_short p w :
  (length p < 2)%nat → NetworkApp.calculate_metrics_manual graph p w = None.
Proof.
  intros Hlen. unfold NetworkApp.calculate_metrics_manual.
  destruct p as [|n [|n' p]]; simpl in *; [done| |lia].
  destruct (Graph.node_data graph n) as [nd|]; simpl; [|done].
  by destruct (node_reliability nd).
Qed.

End StrictAttributes.

(** ** The panel and the experiments: properties *)

Section PanelProperties.

(** X17. What the Q-Learning branch of [calculate_score] shows for a
    demand: a record whose path is a simple path of the network from
    [src] to [dst] that carries the demand, whose [total_cost] is the
    weighted cost of that path, a number below [inf] (neither [inf] nor
    NaN), and whose [hop_count] is the number of its edges. *)
Theorem q_learning_score_outcome `{!Metrics} (rng : Rng) (graph : Graph) (w : Weights)
    (src dst : node) (d : float) (t : nat) (r : MetricsRecord) :
  fst <$> NetworkApp.q_learning_score rng graph w src dst d t = Some (Some r) →
  Graph.simple_walk graph (m_path r) ∧ Graph.feasible graph 0 d (m_path r) ∧
  head (m_path r) = Some src ∧ last (m_path r) = Some dst ∧
  m_total_cost r = calculate_weighted_cost (calculate_path_attributes graph (m_path r)) w ∧
  (m_total_cost r <? infinity)%float = true ∧
  m_hop_count r = (length (m_path r) - 1)%nat.
Proof.
  unfold NetworkApp.q_learning_score.
  destruct (NetworkApp.q_learning_rounds _ _ _ _ _ _ _ _ _) as [[best t']|] eqn:Hrounds;
    simpl; [|done].
  intros [= Hbest].
  eapply (q_learning_rounds_inv rng graph) in Hrounds; [|reflexivity].
  unfold best_inv in Hrounds. rewrite Hbest in Hrounds.
  destruct Hrounds as (_ & Hfin & Hsimple & Hfeas & Hhd & Hlast & Hcost & Hhops).
  done.
Qed.

Lemma q_learning_score_outcome_witness :
  ∃ r, fst <$> NetworkApp.q_learning_score (H := Scenario.delay_metrics) Scenario.draws
                 Scenario.ring Scenario.delay_only 0 2 5 0 = Some (Some r) ∧
       head (m_path r) = Some 0 ∧ last (m_path r) = Some 2.
Proof.
  destruct (fst <$> NetworkApp.q_learning_score (H := Scenario.delay_metrics) Scenario.draws
                      Scenario.ring Scenario.delay_only 0 2 5 0) as [[r|]|] eqn:Hrun.
  - exists r. split; [reflexivity|].
    destruct (q_learning_score_outcome (H := Scenario.delay_metrics) Scenario.draws
                Scenario.ring Scenario.delay_only 0 2 5%float 0 r Hrun)
      as (_ & _ & Hhd & Hlast & _).
    by split.
  - exfalso. vm_compute in Hrun. discriminate Hrun.
  - exfalso. vm_compute in Hrun. discriminate Hrun.
Defined.

(** X18. What the ACO branch of [calculate_score] shows for a demand: a
    record whose path is a simple path of the network from [src] to
    [dst] that carries the demand, whose [total_cost] is the weighted cost
    of that path, a number below [inf] (neither [inf] nor NaN), and whose
    [hop_count] is the number of its edges. *)
Theorem aco_score_outcome `{!Metrics} `{!FloatPow} (rng : Rng) (graph : Graph)
    (w : Weights) (src dst : node) (d : float) (t : nat) (r : MetricsRecord) :
  fst <$> NetworkApp.aco_score rng graph w src dst d t = Some (Some r) →
  Graph.simple_walk graph (m_path r) ∧ Graph.feasible graph 0 d (m_path r) ∧
  head (m_path r) = Some src ∧ last (m_path r) = Some dst ∧
  m_total_cost r = calculate_weighted_cost (calculate_path_attributes graph (m_path r)) w ∧
  (m_total_cost r <? infinity)%float = true ∧
  m_hop_count r = (length (m_path r) - 1)%nat.
Proof.
  unfold NetworkApp.aco_score.
  destruct (NetworkApp.aco_rounds _ _ _ _ _ _ _ _ _) as [[best t']|] eqn:Hrounds;
    simpl; [|done].
  intros [= Hbest].
  eapply (aco_rounds_inv rng graph) in Hrounds; [|reflexivity].
  unfold best_inv in Hrounds. rewrite Hbest in Hrounds.
  destruct Hrounds as (_ & Hfin & Hsimple & Hfeas & Hhd & Hlast & Hcost & Hhops).
  done.
Qed.

Lemma aco_score_outcome_witness :
  ∃ r, fst <$> NetworkApp.aco_score (H := Scenario.delay_metrics) (H0 := Scenario.pow12)
                 Scenario.draws Scenario.ring Scenario.delay_only 0 2 5 0 = Some (Some r) ∧
       head (m_path r) = Some 0 ∧ last (m_path r) = Some 2.
Proof.
  destruct (fst <$> NetworkApp.aco_score (H := Scenario.delay_metrics) (H0 := Scenario.pow12)
                      Scenario.draws Scenario.ring Scenario.delay_only 0 2 5 0)
    as [[r|]|] eqn:Hrun.
  - exists r. split; [reflexivity|].
    destruct (aco_score_outcome (H := Scenario.delay_metrics) (H0 := Scenario.pow12)
                Scenario.draws Scenario.ring Scenario.delay_only 0 2 5%float 0 r Hrun)
      as (_ & _ & Hhd & Hlast & _).
    by split.
  - exfalso. vm_compute in Hrun. discriminate Hrun.
  - exfalso. vm_compute in Hrun. discriminate Hrun.
Defined.

(** X19. On a network as networkx builds it and for a demand whose source
    is a node of it, the Q-Learning branch of [calculate_score] raises
    nothing: every round builds its router, trains it and gets a record
    from [get_path_metrics]. *)
Theorem q_learning_score_returns `{!Metrics} (rng : Rng) (graph : Graph) (w : Weights)
    (src dst : node) (d : float) (t : nat) :
  network graph → src ∈ Graph.nodes graph →
  is_Some (NetworkApp.q_learning_score rng graph w src dst d t).
Proof.
  intros Hnet Hsrc. unfold NetworkApp.q_learning_score.
  destruct (q_learning_rounds_returns rng graph w src dst d 5 t (None, infinity)
              Hnet Hsrc) as [[best t'] ->].
  simpl. eauto.
Qed.

Lemma q_learning_score_returns_witness :
  is_Some (NetworkApp.q_learning_score (H := Scenario.delay_metrics) Scenario.draws
             Scenario.ring Scenario.delay_only 0 2 5 0).
Proof.
  apply (q_learning_score_returns (H := Scenario.delay_metrics)).
  - split; apply (bool_decide_unpack _); vm_compute; exact I.
  - apply (bool_decide_unpack _). vm_compute. exact I.
Defined.

(** X20. A demand from a node to itself is reported as "no path" by both
    engines of the panel, without a random draw: the Q-Learning branch,
    when the routers can be built, ends with no record; so does the ACO
    branch, whose ants all return [[src]], which the branch sets aside as
    too short, except when the cost of [[src]] makes [cost + 0.0001]
    zero, where the first pheromone update raises. *)
Theorem scores_at_destination `{!Metrics} `{!FloatPow} (rng : Rng) (graph : Graph)
    (w : Weights) (src : node) (d : float) (t : nat) :
  is_Some (QLearningRouter.fresh_Q graph) →
  NetworkApp.q_learning_score rng graph w src src d t = Some (None, t) ∧
  NetworkApp.aco_score rng graph w src src d t =
    if decide (Graph.nodes graph = []) then Some (None, t)
    else if (calculate_weighted_cost (calculate_path_attributes graph [src]) w + 0.0001
               =? 0)%float
         then None else Some (None, t).
Proof.
  intros Hq. unfold NetworkApp.q_learning_score, NetworkApp.aco_score.
  rewrite (q_learning_rounds_at_destination rng graph w src d 5 t (None, infinity) Hq).
  split; [done|].
  rewrite (aco_rounds_at_destination rng graph w src d 5 t (None, infinity)).
  destruct (decide (Graph.nodes graph = [])) as [Hno|Hnodes].
  - by rewrite decide_True by (by left).
  - rewrite decide_False by (intros [?|?]; done).
    by destruct (_ =? _)%float.
Qed.

Lemma scores_at_destination_witness :
  NetworkApp.q_learning_score (H := Scenario.delay_metrics) Scenario.draws
    Scenario.ring Scenario.delay_only 1 1 5 0 = Some (None, 0) ∧
  NetworkApp.aco_score (H := Scenario.delay_metrics) (H0 := Scenario.pow12)
    Scenario.draws Scenario.ring Scenario.delay_only 1 1 5 0 = Some (None, 0).
Proof.
  destruct (scores_at_destination (H := Scenario.delay_metrics) (H0 := Scenario.pow12)
              Scenario.draws Scenario.ring Scenario.delay_only 1 5%float 0)
    as [Hq Ha].
  - vm_compute. eauto.
  - split; [exact Hq|]. etrans; [exact Ha|]. vm_compute. reflexivity.
Defined.

(** X21. [calculate_metrics_manual] raises on a path of fewer than two
    nodes ([min] of an empty sequence, or a missing node attribute before
    it), where the routers' [get_path_metrics] report an invalid path. *)
Theorem calculate_metrics_manual_no_edge `{!Metrics} (graph : Graph) (p : list node)
    (w : Weights) (qcfg : QLearningRouter.Config) (acfg : ACORouter.Config) (d : float) :
  (length p < 2)%nat →
  NetworkApp.calculate_metrics_manual graph p w = None ∧
  valid <$> QLearningRouter.get_path_metrics qcfg (Some p) d = Some false ∧
  valid <$> ACORouter.get_path_metrics acfg (Some p) d = Some false.
Proof.
  intros Hlen. split; [by apply calculate_metrics_manual_short|].
  unfold QLearningRouter.get_path_metrics, ACORouter.get_path_metrics.
  by rewrite !decide_True by done.
Qed.

Lemma calculate_metrics_manual_no_edge_witness :
  NetworkApp.calculate_metrics_manual (H := Scenario.delay_metrics) Scenario.ring [1]
    Scenario.delay_only = None.
Proof.
  refine (proj1 (calculate_metrics_manual_no_edge (H := Scenario.delay_metrics)
    Scenario.ring [1] Scenario.delay_only
    (Scenario.qlearning_cfg Scenario.ring Scenario.delay_only 3)
    (Scenario.aco Scenario.ring Scenario.delay_only 2 2).1 5%float _)).
  simpl. lia.
Defined.

(** X22. [calculate_metrics_manual] never checks a demand. When it returns
    a record for a path, on a network whose bandwidths are numbers, the
    record is marked valid and carries the path and its bottleneck; an
    [ACORouter] on the same network and weights returns the same figures
    when the bottleneck carries the demand, and rejects the path
    otherwise. *)
Theorem calculate_metrics_manual_ignores_demand `{!Metrics} (graph : Graph)
    (p : list node) (w : Weights) (m : NetworkApp.ManualMetrics)
    (cfg : ACORouter.Config) (d : float) :
  NetworkApp.calculate_metrics_manual graph p w = Some m →
  Graph.numeric_bandwidths graph p →
  ACORouter.graph cfg = graph → ACORouter.weights cfg = w →
  NetworkApp.mm_valid m = true ∧ NetworkApp.mm_path m = p ∧
  Graph.bottleneck graph 0 p = Some (NetworkApp.mm_bottleneck_bw m) ∧
  ACORouter.get_path_metrics cfg (Some p) d =
    Some (if (NetworkApp.mm_bottleneck_bw m <? d)%float
          then Invalid "Bant genişliği yetersiz"
          else Valid {| m_path := p;
                        m_total_delay := NetworkApp.mm_total_delay m;
                        m_total_reliability := NetworkApp.mm_total_reliability m;
                        m_reliability_cost := None;
                        m_resource_cost := NetworkApp.mm_resource_cost m;
                        m_total_cost := NetworkApp.mm_total_cost m;
                        m_bottleneck_bw := NetworkApp.mm_bottleneck_bw m;
                        m_hop_count := length p - 1;
                        m_node_count := None |}).
Proof.
  intros Hm Hnum Hg Hw. unfold NetworkApp.calculate_metrics_manual in Hm.
  destruct (mapM (λ '(u, v), e ← Graph.edges graph u v; reliability e) (pairs p))
    as [er|] eqn:Her; simpl in Hm; [|done].
  destruct (mapM (λ n, nd ← Graph.node_data graph n; node_reliability nd) p)
    as [nr|] eqn:Hnr; simpl in Hm; [|done].
  destruct (mapM (λ '(u, v), e ← Graph.edges graph u v; bandwidth e) (pairs p))
    as [bws|] eqn:Hbws; simpl in Hm; [|done].
  destruct (PyFloat.min_of bws) as [mb|] eqn:Hmb; simpl in Hm; [|done].
  injection Hm as <-. simpl.
  destruct (strict_bottleneck graph p bws mb Hnum Hbws Hmb) as (Hb0 & Hfold & Hlen).
  split; [done|]. split; [done|]. split.
  { unfold Graph.bottleneck. rewrite Hb0. simpl. by rewrite Hfold. }
  apply (strict_edge_attribute graph reliability 1.0%float) in Her.
  apply (strict_node_attribute graph 1.0%float) in Hnr.
  unfold ACORouter.get_path_metrics. rewrite Hg, Hw.
  rewrite decide_False by lia. rewrite Hb0. simpl. rewrite <- Hfold.
  destruct (mb <? d)%float; [done|].
  unfold path_reliability. rewrite Her. simpl. rewrite Hnr. simpl. done.
Qed.

Lemma calculate_metrics_manual_ignores_demand_witness :
  ∃ m, NetworkApp.calculate_metrics_manual (H := Scenario.delay_metrics) Scenario.ring
         [0; 1; 2] Scenario.delay_only = Some m ∧
       NetworkApp.mm_valid m = true ∧
       ACORouter.get_path_metrics (H := Scenario.delay_metrics)
         (Scenario.aco Scenario.ring Scenario.delay_only 2 2).1 (Some [0; 1; 2]) 20
       = Some (Invalid "Bant genişliği yetersiz").
Proof.
  destruct (NetworkApp.calculate_metrics_manual (H := Scenario.delay_metrics) Scenario.ring
              [0; 1; 2] Scenario.delay_only) as [m|] eqn:Hm.
  - exists m. split; [reflexivity|].
    destruct (calculate_metrics_manual_ignores_demand (H := Scenario.delay_metrics)
                Scenario.ring [0; 1; 2] Scenario.delay_only m
                (Scenario.aco Scenario.ring Scenario.delay_only 2 2).1 20%float Hm)
      as (Hvalid & _ & _ & Hrouter).
    + repeat constructor; simpl; intros e b [= <-] [= <-]; reflexivity.
    + reflexivity.
    + reflexivity.
    + split; [exact Hvalid|]. etrans; [exact Hrouter|].
      vm_compute in Hm. injection Hm as <-. vm_compute. reflexivity.
  - exfalso. vm_compute in Hm. discriminate Hm.
Defined.

(** X23. One run of the Q-learning experiment on a network whose
    bandwidths are numbers: the cost it appends to [run_costs] is [inf]
    when the trained router retained no path, and otherwise the weighted
    cost of the retained path, a number below [inf] (neither [inf] nor
    NaN); that path is a simple path from [src] to [dst] that carries the
    demand, so the [else] branch that appends [inf] for a path below the
    demand is never taken. *)
Theorem experiment_run_cost `{!Metrics} (rng : Rng) (graph : Graph) (w : Weights)
    (episodes : nat) (src dst : node) (d : float) (t t' : nat) (c : float) :
  numeric_network graph →
  Experiments.run rng graph w episodes src dst d t = Some (c, t') →
  ∃ ql st0 st1,
    QLearningRouter.new graph w 0.1 0.9 1.0 0.01 0.99 episodes 500 (-2.0) 0.5
      = Some (ql, st0) ∧
    QLearningRouter.train rng ql src dst d st0 t = Some (st1, t') ∧
    match QLearningRouter.get_best_path st1 with
    | None => c = infinity
    | Some p =>
        c = calculate_weighted_cost (calculate_path_attributes graph p) w ∧
        (c <? infinity)%float = true ∧
        Graph.simple_walk graph p ∧ Graph.feasible graph 0 d p ∧
        head p = Some src ∧ last p = Some dst
    end.
Proof.
  intros Hnum. unfold Experiments.run.
  destruct (QLearningRouter.new _ _ _ _ _ _ _ _ _ _ _) as [[ql st0]|] eqn:Hnew;
    simpl; [|done].
  destruct (QLearningRouter.train _ _ _ _ _ _ _) as [[st1 t1]|] eqn:Htr; simpl; [|done].
  destruct (Experiments.run_cost _ _ _ _) as [c'|] eqn:Hc; simpl; [|done].
  intros [= -> ->]. exists ql, st0, st1. split; [done|]. split; [done|].
  unfold Experiments.run_cost in Hc.
  destruct (QLearningRouter.get_best_path st1) as [p|] eqn:Hp; [|by injection Hc as <-].
  destruct (new_config _ _ _ _ _ _ _ _ _ _ _ _ _ Hnew) as [Hg Hw].
  pose proof Hnew as Hnew'. rewrite <- Hg in Hnew'.
  destruct (new_train_metrics rng ql _ _ _ _ _ _ _ _ _ _ _ _ _ _ _ _ _ _ Hnew' Htr Hp)
    as ([Hsimple Hfeas] & (Hhd & Hlast & [Hlen _] & _) & Hbest & _).
  assert (Hnone : QLearningRouter.best_path st0 = None).
  { unfold QLearningRouter.new in Hnew.
    destruct (QLearningRouter.fresh_Q graph); simpl in Hnew; [|done].
    by injection Hnew as _ <-. }
  assert (Hinf : QLearningRouter.best_cost st0 = infinity).
  { unfold QLearningRouter.new in Hnew.
    destruct (QLearningRouter.fresh_Q graph); simpl in Hnew; [|done].
    by injection Hnew as _ <-. }
  destruct (train_fresh rng ql _ _ _ _ _ _ _ _ Hnone Htr Hp) as (_ & _ & Hlt).
  rewrite Hbest, Hinf in Hlt. apply max2_ltb_l in Hlt.
  unfold QLearningRouter.path_cost in Hlt. rewrite Hg, Hw in Hlt.
  rewrite Hg in Hsimple, Hfeas.
  rewrite decide_True in Hc by lia.
  destruct (mapM _ (pairs p)) as [bws|] eqn:Hbws; simpl in Hc; [|done].
  destruct (PyFloat.min_of bws) as [mb|] eqn:Hmb; simpl in Hc; [|done].
  destruct (strict_bottleneck graph p bws mb (numeric_network_path graph p Hnum) Hbws Hmb)
    as (Hb0 & Hfold & _).
  destruct Hfeas as (b & Hb & Hle). pose proof Hb as Hb'.
  unfold Graph.bottleneck in Hb'. rewrite Hb0 in Hb'. simpl in Hb'.
  injection Hb' as Hb'. rewrite <- Hfold in Hb'. subst b.
  rewrite Hle in Hc. injection Hc as <-.
  split; [done|]. split; [done|]. split; [done|]. split; [by exists mb|]. done.
Qed.

Lemma experiment_run_cost_witness :
  Experiments.run (H := Scenario.delay_metrics) Scenario.draws Scenario.ring
    Scenario.delay_only 30 0 2 5 0 = Some (2%float, 120) ∧
  (2 <? infinity)%float = true.
Proof.
  split; [vm_compute; reflexivity|].
  destruct (experiment_run_cost (H := Scenario.delay_metrics) Scenario.draws Scenario.ring
              Scenario.delay_only 30 0 2 5%float 0 120 2%float)
    as (ql & st0 & st1 & Hnew & Htr & Hout).
  - repeat constructor; simpl; intros b [= <-]; reflexivity.
  - vm_compute. reflexivity.
  - reflexivity.
Defined.

End PanelProperties.

(** ** Feasibility of the retained path *)

Section FeasibilityKept.

(** X24. [train] keeps the feasibility of the retained path: when the
    demand is a number and the path a [QLearningRouter] retains on entry,
    if any, carries the demand (its bottleneck, a missing bandwidth
    counting as 0, is at least [demand_bw]), then after
    [train(src, dst, demand_bw)] [get_best_path] returns [None] or a path
    that carries the demand; for an [ACORouter], which clears its best
    path on entry, this holds after every [train]. *)
Theorem train_preserves_feasibility `{!Metrics} `{!FloatPow} (rng : Rng)
    (qcfg : QLearningRouter.Config) (acfg : ACORouter.Config)
    (src dst : node) (d : float)
    (qst qst' : QLearningRouter.State) (ast ast' : ACORouter.State) (t t' u u' : nat) :
  PyFloat.is_number d →
  (∀ p, QLearningRouter.get_best_path qst = Some p →
        Graph.feasible (QLearningRouter.graph qcfg) 0 d p) →
  QLearningRouter.train rng qcfg src dst d qst t = Some (qst', t') →
  ACORouter.train rng acfg src dst d ast u = Some (ast', u') →
  (∀ p, QLearningRouter.get_best_path qst' = Some p →
        Graph.feasible (QLearningRouter.graph qcfg) 0 d p) ∧
  (∀ p, ACORouter.get_best_path ast' = Some p →
        Graph.feasible (ACORouter.graph acfg) 0 d p).
Proof.
  intros Hd Hkept Hq Ha. split; intros p Hp.
  - unfold QLearningRouter.get_best_path in *.
    apply train_advances in Hq as [[Hsame _]|[_ (p' & Hp' & _ & Hfeas & _)]].
    + apply Hkept. congruence.
    + assert (p' = p) as -> by congruence. exact Hfeas.
  - apply train_best_ok in Ha. by apply ant_path_feasible, Ha.
Qed.

Lemma train_preserves_feasibility_witness :
  let qcfg := Scenario.qlearning_cfg Scenario.ring Scenario.delay_only 3 in
  let st0 := Scenario.qlearning_init Scenario.ring 1 in
  let st1 := (Scenario.after st0
    (QLearningRouter.train (H := Scenario.delay_metrics) Scenario.draws qcfg 0 2 5 st0 0)).1 in
  let st2 := (Scenario.after st1
    (QLearningRouter.train (H := Scenario.delay_metrics) Scenario.draws qcfg 0 2 8 st1 0)).1 in
  QLearningRouter.get_best_path st1 = Some [0; 3; 2] ∧
  QLearningRouter.get_best_path st2 = Some [0; 3; 2] ∧
  Graph.feasible Scenario.ring 0 8 [0; 3; 2].
Proof.
  intros qcfg st0 st1 st2.
  pose (r2 := Scenario.after st1
    (QLearningRouter.train (H := Scenario.delay_metrics) Scenario.draws qcfg 0 2 8 st1 0)).
  pose (ac := Scenario.aco Scenario.ring Scenario.delay_only 2 2).
  pose (ar := Scenario.after ac.2
    (ACORouter.train (H := Scenario.delay_metrics) (H0 := Scenario.pow12)
       Scenario.draws ac.1 0 2 8 ac.2 0)).
  split; [vm_compute; reflexivity|]. split; [vm_compute; reflexivity|].
  destruct (train_preserves_feasibility (H := Scenario.delay_metrics) (H0 := Scenario.pow12)
              Scenario.draws qcfg ac.1 0 2 8%float st1 r2.1 ac.2 ar.1 0 r2.2 0 ar.2)
    as [HQ _].
  - reflexivity.
  - intros p Hp. vm_compute in Hp. injection Hp as <-.
    exists 10%float. split; vm_compute; reflexivity.
  - vm_compute. reflexivity.
  - vm_compute. reflexivity.
  - apply HQ. vm_compute. reflexivity.
Defined.

End FeasibilityKept.
